(** * pdf-rag client: a shallow embedding of the shell and the chat component

    The development follows the TypeScript sources of the client:
    - the component [AppShell] (sessions, active session, history loading);
    - the component [ChatComponent] (stream consumer of the chat and
      translate exchanges, PDF library, merge, delete, upload and status
      polling);
    - the component [PDFLibraryPanel] (the library panel with its own
      selection, [handleMergeClick]).

    JavaScript strings are sequences of UTF-16 code units.  React state is
    threaded explicitly: a handler is a function of the state at its call
    and of what the network answers at each of its [await]s, and returns
    the next state with the requests and callbacks it issued, in order.
    State updates queued by one handler are applied in the order of the
    source, and a handler runs without another one in between. *)

From Stdlib Require Import List NArith ZArith Bool Lia String Ascii.
Import ListNotations.
Local Open Scope N_scope.
Local Open Scope list_scope.

Set Implicit Arguments.
Set Warnings "-register-all".

(* ================================================================== *)
(** ** JavaScript strings *)
(* ================================================================== *)

Module JS.

(** A string value: the sequence of its UTF-16 code units. *)
Definition jsstring := list N.

(** String literals of the source (all of them ASCII). *)
Definition lit (s : string) : jsstring :=
  map N_of_ascii (list_ascii_of_string s).

(** [a === b] on strings. *)
Fixpoint str_eqb (a b : jsstring) : bool :=
  match a, b with
  | [], [] => true
  | x :: a', y :: b' => (x =? y) && str_eqb a' b'
  | _, _ => false
  end.

(** [s.startsWith(p)] *)
Fixpoint startsWith (s p : jsstring) : bool :=
  match p with
  | [] => true
  | c :: p' =>
      match s with
      | [] => false
      | d :: s' => (d =? c) && startsWith s' p'
      end
  end.

(** [s.slice(n)] for a non-negative start index. *)
Definition slice (n : nat) (s : jsstring) : jsstring := skipn n s.

(** Code units removed by [trim]: ECMAScript WhiteSpace and LineTerminator. *)
Definition is_white_space (c : N) : bool :=
  (c =? 9) || (c =? 10) || (c =? 11) || (c =? 12) || (c =? 13) || (c =? 32)
  || (c =? 160) || (c =? 5760)
  || ((8192 <=? c) && (c <=? 8202))
  || (c =? 8232) || (c =? 8233) || (c =? 8239) || (c =? 8287)
  || (c =? 12288) || (c =? 65279).

Fixpoint trimStart (s : jsstring) : jsstring :=
  match s with
  | [] => []
  | c :: s' => if is_white_space c then trimStart s' else s
  end.

Definition trimEnd (s : jsstring) : jsstring := rev (trimStart (rev s)).

(** [s.trim()] *)
Definition trim (s : jsstring) : jsstring := trimEnd (trimStart s).

(** The line feed, the separator of [sseBuffer.split('\n')]. *)
Definition LF : N := 10.

(** [s.split(sep)] for a separator of one code unit: never empty. *)
Fixpoint split (sep : N) (s : jsstring) : list jsstring :=
  match s with
  | [] => [[]]
  | c :: s' =>
      if c =? sep then [] :: split sep s'
      else match split sep s' with
           | [] => [[c]]
           | h :: t => (c :: h) :: t
           end
  end.

(** [arr.pop()]: the array without its last element, and that element
    ([None] stands for [undefined], on an empty array). *)
Definition pop {A} (l : list A) : list A * option A :=
  match rev l with
  | [] => ([], None)
  | x :: r => (rev r, Some x)
  end.

(** [s.endsWith(p)] *)
Definition endsWith (s p : jsstring) : bool := startsWith (rev s) (rev p).

(** [a ?? b] *)
Definition nullish {A} (a : option A) (b : A) : A :=
  match a with Some x => x | None => b end.

(** [arr.join(sep)] on an array of strings. *)
Fixpoint join (sep : jsstring) (l : list jsstring) : jsstring :=
  match l with
  | [] => []
  | [x] => x
  | x :: r => x ++ sep ++ join sep r
  end.

End JS.
Import JS.

(* ================================================================== *)
(** ** JSON values and the part of the runtime the client relies on *)
(* ================================================================== *)

Section JSONValues.

(** The Number type of the host is kept abstract (IEEE doubles). *)
Variable JSNumber : Type.

Inductive JSON : Type :=
| JNull
| JBool (b : bool)
| JNumber (n : JSNumber)
| JString (s : jsstring)
| JArray (items : list JSON)
| JObject (fields : list (jsstring * JSON)).

(** Result of reading a property: a [TypeError], [undefined], or a value. *)
Inductive Prop_read : Type :=
| PThrow
| PUndefined
| PValue (v : JSON).

(** Own property lookup in a parsed object; on duplicate keys
    [JSON.parse] keeps the last one. *)
Fixpoint lookup_field (k : jsstring) (fs : list (jsstring * JSON)) : option JSON :=
  match fs with
  | [] => None
  | (k', v) :: r =>
      match lookup_field k r with
      | Some w => Some w
      | None => if str_eqb k' k then Some v else None
      end
  end.

(** [parsed.k] for [k] among ["type"] and ["data"]: reading a property of
    [null] throws, primitives and arrays have no such property. *)
Definition get_prop (parsed : JSON) (k : jsstring) : Prop_read :=
  match parsed with
  | JNull => PThrow
  | JObject fs =>
      match lookup_field k fs with
      | Some v => PValue v
      | None => PUndefined
      end
  | _ => PUndefined
  end.

End JSONValues.

Arguments JNull {JSNumber}.
Arguments JBool {JSNumber} b.
Arguments JString {JSNumber} s.
Arguments PThrow {JSNumber}.
Arguments PUndefined {JSNumber}.

(** What the host provides: numbers, their truthiness and printing,
    [JSON.parse] ([None] when it throws a [SyntaxError]) and
    [encodeURIComponent] ([None] when it throws a [URIError]). *)
Record Runtime : Type := mkRuntime {
  JSNumber : Type;
  number_falsy : JSNumber -> bool;
  number_to_string : JSNumber -> jsstring;
  JSON_parse : jsstring -> option (JSON JSNumber);
  encodeURIComponent : jsstring -> option jsstring
}.

Section Values.

Variable rt : Runtime.
Abbreviation value := (JSON (JSNumber rt)).

(** ToBoolean *)
Definition truthy (v : value) : bool :=
  match v with
  | JNull => false
  | JBool b => b
  | JNumber n => negb (number_falsy rt n)
  | JString s => match s with [] => false | _ => true end
  | JArray _ => true
  | JObject _ => true
  end.

(** ToString, as applied by [fullAnswer += parsed.data]; [None] is the
    [TypeError] raised for an object whose own ["toString"] entry (a JSON
    value, hence not callable) hides [Object.prototype.toString].  Arrays
    print their elements joined by commas, [null] elements as empty. *)
Fixpoint ToString (v : value) : option jsstring :=
  match v with
  | JNull => Some (lit "null")
  | JBool true => Some (lit "true")
  | JBool false => Some (lit "false")
  | JNumber n => Some (number_to_string rt n)
  | JString s => Some s
  | JArray items =>
      let fix each (l : list value) : option (list jsstring) :=
        match l with
        | [] => Some []
        | e :: r =>
            match (match e with JNull => Some [] | _ => ToString e end),
                  each r with
            | Some x, Some xs => Some (x :: xs)
            | _, _ => None
            end
        end in
      option_map (join (lit ",")) (each items)
  | JObject fs =>
      match lookup_field (lit "toString") fs with
      | Some _ => None
      | None => Some (lit "[object Object]")
      end
  end.

(** The body of the inner [try] of the stream consumers:
<<
  const parsed = JSON.parse(data);
  if (parsed.type === 'token' && parsed.data) { ... += parsed.data ... }
>>
    [Some d] is the text appended; [None] covers everything the [try]
    swallows or the [if] rejects: a parse error, a [TypeError], another
    event type, a falsy [data]. *)
Definition token_of (data : jsstring) : option jsstring :=
  match JSON_parse rt data with
  | None => None
  | Some parsed =>
      match get_prop parsed (lit "type") with
      | PValue (JString t) =>
          if str_eqb t (lit "token") then
            match get_prop parsed (lit "data") with
            | PValue d => if truthy d then ToString d else None
            | _ => None
            end
          else None
      | _ => None
      end
  end.

End Values.

(* ================================================================== *)
(** ** types.ts *)
(* ================================================================== *)

Inductive Role : Type := user | assistant.

Record Message : Type := { role : Role; content : jsstring }.

(** A PDF entry held in the library: server-side filename, display name,
    blob URL (local upload) or server download URL (merged PDF). *)
Record PdfEntry : Type := {
  name : jsstring;
  displayName : jsstring;
  objectUrl : jsstring
}.

(* ================================================================== *)
(** ** ChatComponent: state *)
(* ================================================================== *)

Inductive UploadStatus : Type :=
| idle | uploading | embedding | success | error.

(** [pendingUploadRef.current] *)
Record PendingUpload : Type := {
  pending_displayName : jsstring;
  pending_objectUrl : jsstring
}.

Record Props : Type := {
  sessionId : jsstring;
  (** whether the optional [onSaveSession] callback was supplied *)
  has_onSaveSession : bool
}.

Record State : Type := mkState {
  messages : list Message;
  input : jsstring;
  loading : bool;
  suggestions : list jsstring;
  suggestionsLoading : bool;
  uploadStatus : UploadStatus;
  uploadedFileName : option jsstring;
  uploadedFileServerName : option jsstring;
  pdfLibrary : list PdfEntry;
  previewPdfName : option jsstring;
  showPdfLibrary : bool;
  mergeSelected : list jsstring;
  mergeName : jsstring;
  mergeLoading : bool;
  translatingPdf : option jsstring;
  pendingUploadRef : option PendingUpload
}.

Definition with_messages (v : list Message) (s : State) : State :=
  mkState v (input s) (loading s) (suggestions s) (suggestionsLoading s)
      (uploadStatus s) (uploadedFileName s) (uploadedFileServerName s)
      (pdfLibrary s) (previewPdfName s) (showPdfLibrary s) (mergeSelected s)
      (mergeName s) (mergeLoading s) (translatingPdf s) (pendingUploadRef s).

Definition with_input (v : jsstring) (s : State) : State :=
  mkState (messages s) v (loading s) (suggestions s) (suggestionsLoading s)
      (uploadStatus s) (uploadedFileName s) (uploadedFileServerName s)
      (pdfLibrary s) (previewPdfName s) (showPdfLibrary s) (mergeSelected s)
      (mergeName s) (mergeLoading s) (translatingPdf s) (pendingUploadRef s).

Definition with_loading (v : bool) (s : State) : State :=
  mkState (messages s) (input s) v (suggestions s) (suggestionsLoading s)
      (uploadStatus s) (uploadedFileName s) (uploadedFileServerName s)
      (pdfLibrary s) (previewPdfName s) (showPdfLibrary s) (mergeSelected s)
      (mergeName s) (mergeLoading s) (translatingPdf s) (pendingUploadRef s).

Definition with_suggestions (v : list jsstring) (s : State) : State :=
  mkState (messages s) (input s) (loading s) v (suggestionsLoading s)
      (uploadStatus s) (uploadedFileName s) (uploadedFileServerName s)
      (pdfLibrary s) (previewPdfName s) (showPdfLibrary s) (mergeSelected s)
      (mergeName s) (mergeLoading s) (translatingPdf s) (pendingUploadRef s).

Definition with_suggestionsLoading (v : bool) (s : State) : State :=
  mkState (messages s) (input s) (loading s) (suggestions s) v (uploadStatus
      s) (uploadedFileName s) (uploadedFileServerName s) (pdfLibrary s)
      (previewPdfName s) (showPdfLibrary s) (mergeSelected s) (mergeName s)
      (mergeLoading s) (translatingPdf s) (pendingUploadRef s).

Definition with_uploadStatus (v : UploadStatus) (s : State) : State :=
  mkState (messages s) (input s) (loading s) (suggestions s)
      (suggestionsLoading s) v (uploadedFileName s) (uploadedFileServerName
      s) (pdfLibrary s) (previewPdfName s) (showPdfLibrary s) (mergeSelected
      s) (mergeName s) (mergeLoading s) (translatingPdf s) (pendingUploadRef
      s).

Definition with_uploadedFileName (v : option jsstring) (s : State) : State :=
  mkState (messages s) (input s) (loading s) (suggestions s)
      (suggestionsLoading s) (uploadStatus s) v (uploadedFileServerName s)
      (pdfLibrary s) (previewPdfName s) (showPdfLibrary s) (mergeSelected s)
      (mergeName s) (mergeLoading s) (translatingPdf s) (pendingUploadRef s).

Definition with_uploadedFileServerName (v : option jsstring) (s : State) : State :=
  mkState (messages s) (input s) (loading s) (suggestions s)
      (suggestionsLoading s) (uploadStatus s) (uploadedFileName s) v
      (pdfLibrary s) (previewPdfName s) (showPdfLibrary s) (mergeSelected s)
      (mergeName s) (mergeLoading s) (translatingPdf s) (pendingUploadRef s).

Definition with_pdfLibrary (v : list PdfEntry) (s : State) : State :=
  mkState (messages s) (input s) (loading s) (suggestions s)
      (suggestionsLoading s) (uploadStatus s) (uploadedFileName s)
      (uploadedFileServerName s) v (previewPdfName s) (showPdfLibrary s)
      (mergeSelected s) (mergeName s) (mergeLoading s) (translatingPdf s)
      (pendingUploadRef s).

Definition with_previewPdfName (v : option jsstring) (s : State) : State :=
  mkState (messages s) (input s) (loading s) (suggestions s)
      (suggestionsLoading s) (uploadStatus s) (uploadedFileName s)
      (uploadedFileServerName s) (pdfLibrary s) v (showPdfLibrary s)
      (mergeSelected s) (mergeName s) (mergeLoading s) (translatingPdf s)
      (pendingUploadRef s).

Definition with_showPdfLibrary (v : bool) (s : State) : State :=
  mkState (messages s) (input s) (loading s) (suggestions s)
      (suggestionsLoading s) (uploadStatus s) (uploadedFileName s)
      (uploadedFileServerName s) (pdfLibrary s) (previewPdfName s) v
      (mergeSelected s) (mergeName s) (mergeLoading s) (translatingPdf s)
      (pendingUploadRef s).

Definition with_mergeSelected (v : list jsstring) (s : State) : State :=
  mkState (messages s) (input s) (loading s) (suggestions s)
      (suggestionsLoading s) (uploadStatus s) (uploadedFileName s)
      (uploadedFileServerName s) (pdfLibrary s) (previewPdfName s)
      (showPdfLibrary s) v (mergeName s) (mergeLoading s) (translatingPdf s)
      (pendingUploadRef s).

Definition with_mergeName (v : jsstring) (s : State) : State :=
  mkState (messages s) (input s) (loading s) (suggestions s)
      (suggestionsLoading s) (uploadStatus s) (uploadedFileName s)
      (uploadedFileServerName s) (pdfLibrary s) (previewPdfName s)
      (showPdfLibrary s) (mergeSelected s) v (mergeLoading s)
      (translatingPdf s) (pendingUploadRef s).

Definition with_mergeLoading (v : bool) (s : State) : State :=
  mkState (messages s) (input s) (loading s) (suggestions s)
      (suggestionsLoading s) (uploadStatus s) (uploadedFileName s)
      (uploadedFileServerName s) (pdfLibrary s) (previewPdfName s)
      (showPdfLibrary s) (mergeSelected s) (mergeName s) v (translatingPdf
      s) (pendingUploadRef s).

Definition with_translatingPdf (v : option jsstring) (s : State) : State :=
  mkState (messages s) (input s) (loading s) (suggestions s)
      (suggestionsLoading s) (uploadStatus s) (uploadedFileName s)
      (uploadedFileServerName s) (pdfLibrary s) (previewPdfName s)
      (showPdfLibrary s) (mergeSelected s) (mergeName s) (mergeLoading s) v
      (pendingUploadRef s).

Definition with_pendingUploadRef (v : option PendingUpload) (s : State) : State :=
  mkState (messages s) (input s) (loading s) (suggestions s)
      (suggestionsLoading s) (uploadStatus s) (uploadedFileName s)
      (uploadedFileServerName s) (pdfLibrary s) (previewPdfName s)
      (showPdfLibrary s) (mergeSelected s) (mergeName s) (mergeLoading s)
      (translatingPdf s) v.

(** [ChatComponent] starts from [initialMessages] and an empty library. *)
Definition initial_state (initialMessages : list Message) : State :=
  mkState initialMessages [] false [] false idle None None [] None false
          [] [] false None None.

(** *** What leaves the component *)

Inductive Request : Type :=
| POST_chat_stream (message : jsstring) (history : list Message)
                   (active_pdfs : list jsstring)
| GET_suggestions (message answer : jsstring)
| POST_pdf_translate_stream (filename language : jsstring)
| POST_pdf_merge (filenames : list jsstring) (output_name : jsstring)
| DELETE_pdfs (pdf_name : jsstring)
| POST_upload_pdf (file_name : jsstring)
| GET_upload_status (filename : jsstring).

Inductive Effect : Type :=
| Fetch (r : Request)
| OnSaveSession (session : jsstring) (final : list Message)
| RevokeObjectURL (url : jsstring)
| Alert (text : jsstring).

(** *** What comes back from the network *)

(** A response body read through [getReader()]: the text of the successive
    [read()] results as the streaming [TextDecoder] returns it, then either
    [done] or a rejected [read()]. *)
Record Body : Type := {
  reads : list jsstring;
  read_rejects : bool
}.

Inductive FetchOutcome : Type :=
| Rejected                                   (* [fetch] itself throws *)
| Response (ok : bool) (body : option Body).

(** *** State, effects and crashes *)

(** A handler run: [None] is an exception that no [catch] of the handler
    sees (a state updater that throws); otherwise a result, the next state
    and what was emitted, in order. *)
Definition M (A : Type) : Type := State -> option (A * State * list Effect).

Definition ret {A} (a : A) : M A := fun s => Some (a, s, []).

Definition bind {A B} (m : M A) (k : A -> M B) : M B :=
  fun s =>
    match m s with
    | None => None
    | Some (a, s1, e1) =>
        match k a s1 with
        | None => None
        | Some (b, s2, e2) => Some (b, s2, e1 ++ e2)
        end
    end.

Notation "x <- m ;; k" := (bind m (fun x => k))
  (at level 61, m at next level, right associativity).
Notation "m ;; k" := (bind m (fun _ => k))
  (at level 61, right associativity).

(** The state at the call, which the closures of the handler captured. *)
Definition rendered : M State := fun s => Some (s, s, []).

(** The state now, where the source reads a ref's [current]. *)
Definition current : M State := fun s => Some (s, s, []).

Definition update (f : State -> State) : M unit := fun s => Some (tt, f s, []).

Definition emit (e : Effect) : M unit := fun s => Some (tt, s, [e]).

(** [setMessages(updater)]; the updater may throw. *)
Definition setMessages (f : list Message -> option (list Message)) : M unit :=
  fun s =>
    match f (messages s) with
    | None => None
    | Some ms => Some (tt, with_messages ms s, [])
    end.

Definition when (b : bool) (m : M unit) : M unit := if b then m else ret tt.

(** Truthiness of a string. *)
Definition nonempty (s : jsstring) : bool :=
  match s with [] => false | _ => true end.

(* ================================================================== *)
(** ** ChatComponent: the stream consumer of [sendMessage] and [handleTranslate] *)
(* ================================================================== *)

Section Chat.

Variable rt : Runtime.
Variable props : Props.

(** The updater of the token branch:
<<
  const updated = [...prev];
  updated[updated.length - 1] = { ...updated[updated.length - 1],
    content: updated[updated.length - 1].content + parsed.data };
>>
    On an empty array [updated[-1]] is [undefined] and reading its
    [content] throws. *)
Definition append_to_last (d : jsstring) (prev : list Message)
  : option (list Message) :=
  match rev prev with
  | [] => None
  | m :: r => Some (rev r ++ [{| role := role m; content := content m ++ d |}])
  end.

(** The updater of the [catch] branch: [updated[updated.length - 1] = msg].
    On an empty array the assignment creates the property ["-1"] and the
    array keeps no element. *)
Definition replace_last (msg : Message) (prev : list Message) : list Message :=
  match rev prev with
  | [] => []
  | _ :: r => rev r ++ [msg]
  end.

(** [for (const line of lines)]: the text accumulated so far is the
    argument, the visible messages are in the state.  [break] leaves this
    loop only. *)
Fixpoint for_lines (lines : list jsstring) (full : jsstring) : M jsstring :=
  match lines with
  | [] => ret full
  | line :: rest =>
      if negb (startsWith line (lit "data: ")) then for_lines rest full
      else
        let data := trim (slice 6 line) in
        if str_eqb data (lit "[DONE]") then ret full
        else
          match token_of rt data with
          | Some d =>
              setMessages (append_to_last d) ;;
              for_lines rest (full ++ d)
          | None => for_lines rest full
          end
  end.

(** One turn of [while (true)] after a [read()] that returned [value]:
    the buffer is extended, split at line feeds, its last piece kept. *)
Definition on_read (value : jsstring) (st : jsstring * jsstring)
  : M (jsstring * jsstring) :=
  let '(sseBuffer, full) := st in
  let sseBuffer := sseBuffer ++ value in
  let '(lines, last) := pop (split LF sseBuffer) in
  let sseBuffer := nullish last [] in
  full' <- for_lines lines full ;;
  ret (sseBuffer, full').

(** The [while (true)] loop over the successive reads, until [done]. *)
Fixpoint read_loop (values : list jsstring) (st : jsstring * jsstring)
  : M (jsstring * jsstring) :=
  match values with
  | [] => ret st
  | value :: more => st' <- on_read value st ;; read_loop more st'
  end.

(** The [try] block up to the end of the read loop: the text accumulated
    when control leaves it, and whether it leaves by a [throw] (rejected
    [fetch], [!res.ok || !res.body], rejected [read()]). *)
Definition stream_try (reply : FetchOutcome) : M (jsstring * bool) :=
  match reply with
  | Rejected => ret ([], true)
  | Response ok body =>
      match body with
      | Some b =>
          if negb ok then ret ([], true)
          else
            st <- read_loop (reads b) ([], []) ;;
            ret (snd st, read_rejects b)
      | None => ret ([], true)
      end
  end.

(** The follow-up suggestions of [sendMessage]: what the inner
    [try]/[catch] leaves, [Some l] being a successful reply carrying
    [sugData.suggestions ?? []]. *)
Definition fetch_suggestions (trimmed fullAnswer : jsstring)
    (reply : option (list jsstring)) : M unit :=
  update (with_suggestionsLoading true) ;;
  match encodeURIComponent rt trimmed, encodeURIComponent rt fullAnswer with
  | Some _, Some _ =>
      emit (Fetch (GET_suggestions trimmed fullAnswer)) ;;
      match reply with
      | Some l => update (with_suggestions l)
      | None => ret tt
      end
  | _, _ => ret tt
  end ;;
  update (with_suggestionsLoading false).

Definition chat_error : Message :=
  {| role := assistant; content := lit "Error: Could not reach the server." |}.

Definition sendMessage (overrideText : option jsstring)
    (reply : FetchOutcome) (sug_reply : option (list jsstring)) : M unit :=
  st0 <- rendered ;;
  let trimmed := trim (nullish overrideText (input st0)) in
  if negb (nonempty trimmed) || loading st0 then ret tt
  else
    update (with_suggestions []) ;;
    let userMessage := {| role := user; content := trimmed |} in
    let messagesBeforeExchange := messages st0 in
    setMessages (fun prev => Some (prev ++ [userMessage])) ;;
    update (with_input []) ;;
    update (with_loading true) ;;
    setMessages (fun prev => Some (prev ++ [{| role := assistant; content := [] |}])) ;;
    emit (Fetch (POST_chat_stream trimmed (messages st0)
                                  (map name (pdfLibrary st0)))) ;;
    r <- stream_try reply ;;
    let '(fullAnswer, thrown) := r in
    (if thrown
     then setMessages (fun prev => Some (replace_last chat_error prev))
     else when (nonempty (trim fullAnswer))
               (fetch_suggestions trimmed fullAnswer sug_reply)) ;;
    let hadError := thrown in
    update (with_loading false) ;;
    when (negb hadError && nonempty (trim fullAnswer) && has_onSaveSession props)
         (emit (OnSaveSession (sessionId props)
                  (messagesBeforeExchange ++
                   [userMessage; {| role := assistant; content := fullAnswer |}]))).

Definition translate_error : Message :=
  {| role := assistant;
     content := lit "Error: Translation failed. Please try again." |}.

(** The double quote. *)
Definition DQUOTE : N := 34.

Definition handleTranslate (filename lang : jsstring) (reply : FetchOutcome)
  : M unit :=
  st0 <- rendered ;;
  if match translatingPdf st0 with Some t => nonempty t | None => false end
     || loading st0
  then ret tt
  else
    update (with_showPdfLibrary false) ;;
    update (with_translatingPdf (Some filename)) ;;
    let userMsg :=
      {| role := user;
         content := lit "Translate " ++ [DQUOTE] ++ filename ++ [DQUOTE]
                    ++ lit " to " ++ lang |} in
    let snapshotBefore := messages st0 in
    setMessages (fun prev =>
      Some (prev ++ [userMsg; {| role := assistant; content := [] |}])) ;;
    update (with_loading true) ;;
    emit (Fetch (POST_pdf_translate_stream filename lang)) ;;
    r <- stream_try reply ;;
    let '(fullText, thrown) := r in
    when thrown
         (setMessages (fun prev => Some (replace_last translate_error prev))) ;;
    let hadError := thrown in
    update (with_loading false) ;;
    update (with_translatingPdf None) ;;
    when (negb hadError && nonempty (trim fullText) && has_onSaveSession props)
         (emit (OnSaveSession (sessionId props)
                  (snapshotBefore ++
                   [userMsg; {| role := assistant; content := fullText |}]))).

(* ================================================================== *)
(** ** ChatComponent: the PDF library *)
(* ================================================================== *)

(** [prev.filter((p) => p.name !== n)] *)
Definition without_name (n : jsstring) (prev : list PdfEntry) : list PdfEntry :=
  filter (fun p => negb (str_eqb (name p) n)) prev.

(** [prev.filter((x) => x !== n)] on an array of names. *)
Definition without (n : jsstring) (prev : list jsstring) : list jsstring :=
  filter (fun x => negb (str_eqb x n)) prev.

(** [prev.find((p) => p.name === n)] *)
Definition find_name (n : jsstring) (prev : list PdfEntry) : option PdfEntry :=
  find (fun p => str_eqb (name p) n) prev.

(** *** Status polling *)

(** The interval started by an upload or a merge: the file it asks about,
    the counter of its closure, and whether [clearInterval] was called. *)
Record Poll : Type := {
  poll_filename : jsstring;
  pollCount : nat;
  cleared : bool
}.

(** What one [GET /upload/status] gives back. *)
Inductive StatusReply : Type :=
| StatusRejected                   (* [fetch] or [json()] throws *)
| StatusNotOk                      (* [!statusRes.ok] *)
| StatusIs (status : jsstring).    (* [statusData.status] *)

Definition MAX_POLLS : nat := 30.

(** Moving the pending upload into the library, shared by the timeout
    branch and the ['done'] branch of the upload poll. *)
Definition adopt_pending (serverFilename : jsstring) : M unit :=
  st <- current ;;
  match pendingUploadRef st with
  | Some pending =>
      update (fun s => with_pdfLibrary
        (without_name serverFilename (pdfLibrary s) ++
         [{| name := serverFilename;
             displayName := pending_displayName pending;
             objectUrl := pending_objectUrl pending |}]) s) ;;
      update (with_showPdfLibrary true) ;;
      update (with_pendingUploadRef None)
  | None => ret tt
  end.

(** One firing of the interval callback of [handleFileChange]. *)
Definition upload_poll (reply : StatusReply) (p : Poll) : M Poll :=
  let serverFilename := poll_filename p in
  let pollCount := S (pollCount p) in
  if (MAX_POLLS <=? pollCount)%nat then
    (* Timed out: assume done so the UI doesn't lock up *)
    update (with_uploadStatus success) ;;
    adopt_pending serverFilename ;;
    ret {| poll_filename := serverFilename; pollCount := pollCount;
           cleared := true |}
  else
    match encodeURIComponent rt serverFilename with
    | None => ret {| poll_filename := serverFilename; pollCount := pollCount;
                     cleared := false |}
    | Some _ =>
        emit (Fetch (GET_upload_status serverFilename)) ;;
        match reply with
        | StatusIs status =>
            if str_eqb status (lit "done") then
              update (with_uploadStatus success) ;;
              adopt_pending serverFilename ;;
              ret {| poll_filename := serverFilename; pollCount := pollCount;
                     cleared := true |}
            else if str_eqb status (lit "error") then
              update (with_uploadStatus error) ;;
              ret {| poll_filename := serverFilename; pollCount := pollCount;
                     cleared := true |}
            else ret {| poll_filename := serverFilename;
                        pollCount := pollCount; cleared := false |}
        | _ => ret {| poll_filename := serverFilename; pollCount := pollCount;
                      cleared := false |}
        end
    end.

(** One firing of the interval callback of [handleMerge]. *)
Definition merge_poll (reply : StatusReply) (p : Poll) : M Poll :=
  let serverName := poll_filename p in
  let count := S (pollCount p) in
  if (30 <=? count)%nat then
    update (with_uploadStatus success) ;;
    ret {| poll_filename := serverName; pollCount := count; cleared := true |}
  else
    match encodeURIComponent rt serverName with
    | None => ret {| poll_filename := serverName; pollCount := count;
                     cleared := false |}
    | Some _ =>
        emit (Fetch (GET_upload_status serverName)) ;;
        match reply with
        | StatusIs status =>
            if str_eqb status (lit "done") then
              update (with_uploadStatus success) ;;
              ret {| poll_filename := serverName; pollCount := count;
                     cleared := true |}
            else if str_eqb status (lit "error") then
              update (with_uploadStatus error) ;;
              ret {| poll_filename := serverName; pollCount := count;
                     cleared := true |}
            else ret {| poll_filename := serverName; pollCount := count;
                        cleared := false |}
        | _ => ret {| poll_filename := serverName; pollCount := count;
                      cleared := false |}
        end
    end.

(** The firings of an interval, one reply per firing, each reply settled
    before the next firing; a cleared interval fires no more. *)
Fixpoint run_poll (tick : StatusReply -> Poll -> M Poll)
    (replies : list StatusReply) (p : Poll) : M Poll :=
  match replies with
  | [] => ret p
  | r :: more =>
      if cleared p then ret p
      else p' <- tick r p ;; run_poll tick more p'
  end.

(** The effect that dismisses the status pill two seconds after a
    success. *)
Definition auto_dismiss (s : State) : State :=
  match uploadStatus s with
  | success => with_uploadStatus idle s
  | _ => s
  end.

(** *** Upload *)

Inductive UploadReply : Type :=
| UploadRejected                              (* [fetch] or [json()] throws *)
| UploadNotOk
| UploadOk (filename : option jsstring).      (* [data.filename] *)

(** [handleFileChange] up to the start of the interval; [file_name] is
    [e.target.files?.[0]?.name] and [objUrl] what [URL.createObjectURL]
    returned.  The result is the interval it started, if any. *)
Definition handleFileChange (file_name : option jsstring) (objUrl : jsstring)
    (reply : UploadReply) : M (option Poll) :=
  match file_name with
  | None => ret None
  | Some fname =>
      if negb (endsWith fname (lit ".pdf")) then
        update (with_uploadStatus error) ;;
        update (with_uploadedFileName (Some (lit "Only PDF files are accepted"))) ;;
        ret None
      else
        update (with_uploadedFileName (Some fname)) ;;
        update (with_uploadStatus uploading) ;;
        update (with_pendingUploadRef
                  (Some {| pending_displayName := fname;
                           pending_objectUrl := objUrl |})) ;;
        emit (Fetch (POST_upload_pdf fname)) ;;
        match reply with
        | UploadOk filename =>
            let serverFilename := nullish filename fname in
            update (with_uploadedFileServerName (Some serverFilename)) ;;
            update (with_uploadStatus embedding) ;;
            ret (Some {| poll_filename := serverFilename; pollCount := 0;
                         cleared := false |})
        | _ =>
            update (with_uploadStatus error) ;;
            ret None
        end
  end.

(** *** Delete *)

Definition handleDeletePdf (n : jsstring) : M unit :=
  st0 <- rendered ;;
  match encodeURIComponent rt n with
  | Some _ => emit (Fetch (DELETE_pdfs n))
  | None => ret tt                               (* caught: non-critical *)
  end ;;
  st <- current ;;
  match find_name n (pdfLibrary st) with
  | Some entry =>
      when (startsWith (objectUrl entry) (lit "blob:"))
           (emit (RevokeObjectURL (objectUrl entry)))
  | None => ret tt
  end ;;
  update (fun s => with_pdfLibrary (without_name n (pdfLibrary s)) s) ;;
  update (fun s => with_mergeSelected (without n (mergeSelected s)) s) ;;
  when (match previewPdfName st0 with
        | Some pv => str_eqb pv n
        | None => false
        end)
       (update (with_previewPdfName None)).

(** *** Merge *)

Inductive MergeReply : Type :=
| MergeRejected                    (* [fetch] or [json()] throws *)
| MergeNotOk
| MergeOk (filename : jsstring).   (* [data.filename] *)

Definition merge_alert : jsstring :=
  lit "Merge failed. Please check that the selected PDFs exist on the server.".

(** [handleMerge]; [now] is the text of [Date.now()].  The result is the
    interval it started, if any. *)
Definition handleMerge (now : jsstring) (reply : MergeReply) : M (option Poll) :=
  st0 <- rendered ;;
  if (List.length (mergeSelected st0) <? 2)%nat || mergeLoading st0 then ret None
  else
    let outName :=
      if nonempty (trim (mergeName st0)) then trim (mergeName st0)
      else lit "merged_" ++ now in
    update (with_mergeLoading true) ;;
    emit (Fetch (POST_pdf_merge (mergeSelected st0) outName)) ;;
    r <-
      match reply with
      | MergeOk serverName =>
          match encodeURIComponent rt serverName with
          | Some enc =>
              let objectUrl := lit "http://localhost:8000/pdf/download/" ++ enc in
              update (fun s => with_pdfLibrary
                (without_name serverName (pdfLibrary s) ++
                 [{| name := serverName; displayName := serverName;
                     objectUrl := objectUrl |}]) s) ;;
              update (with_mergeSelected []) ;;
              update (with_mergeName []) ;;
              update (with_uploadedFileName (Some serverName)) ;;
              update (with_uploadedFileServerName (Some serverName)) ;;
              update (with_uploadStatus embedding) ;;
              ret (Some {| poll_filename := serverName; pollCount := 0;
                           cleared := false |})
          | None => emit (Alert merge_alert) ;; ret None
          end
      | _ => emit (Alert merge_alert) ;; ret None
      end ;;
    update (with_mergeLoading false) ;;
    ret r.

End Chat.

(* ================================================================== *)
(** ** PDFLibraryPanel *)
(* ================================================================== *)

Module PDFLibraryPanel.

(** The panel keeps its own selection; the library and [mergeLoading]
    come from its props. *)
Record PanelState : Type := {
  previewPdfName : option jsstring;
  mergeSelected : list jsstring;
  mergeName : jsstring
}.

(** Calls of the callbacks received as props. *)
Inductive Callback : Type :=
| onDelete (pdf_name : jsstring)
| onMerge (filenames : list jsstring) (outputName : jsstring).

Definition handleDelete (n : jsstring) (s : PanelState)
  : PanelState * list Callback :=
  ({| previewPdfName :=
        match previewPdfName s with
        | Some pv => if str_eqb pv n then None else Some pv
        | None => None
        end;
      mergeSelected := without n (mergeSelected s);
      mergeName := mergeName s |},
   [onDelete n]).

Definition handleMergeClick (mergeLoading : bool) (now : jsstring)
    (s : PanelState) : PanelState * list Callback :=
  if (List.length (mergeSelected s) <? 2)%nat || mergeLoading then (s, [])
  else
    let outName :=
      if nonempty (trim (mergeName s)) then trim (mergeName s)
      else lit "merged_" ++ now in
    ({| previewPdfName := previewPdfName s;
        mergeSelected := [];
        mergeName := [] |},
     [onMerge (mergeSelected s) outName]).

End PDFLibraryPanel.

(* ================================================================== *)
(** ** AppShell *)
(* ================================================================== *)

Module AppShell.

Record Session : Type := {
  id : jsstring;
  title : jsstring;
  messages : list Message;
  createdAt : N
}.

Record State : Type := {
  sessions : list Session;
  activeSessionId : jsstring;
  historyLoading : bool
}.

(** [useState] initial values. *)
Definition initial : State :=
  {| sessions := []; activeSessionId := []; historyLoading := true |}.

(** What [createSession] draws from the host: the result of [generateId()]
    and of [Date.now()]. *)
Record Fresh : Type := { fresh_id : jsstring; fresh_now : N }.

Definition createSession (f : Fresh) : Session :=
  {| id := fresh_id f; title := lit "New Chat"; messages := [];
     createdAt := fresh_now f |}.

(** What [GET /history] gives back. *)
Inductive HistoryReply : Type :=
| HistoryFailed                      (* unreachable, timed out, bad JSON *)
| HistoryLoaded (loaded : option (list Session)).   (* [data.sessions] *)

(** The promise chain of the mount effect. *)
Definition load_history (reply : HistoryReply) (f : Fresh) (s : State) : State :=
  match reply with
  | HistoryLoaded data_sessions =>
      let loaded := nullish data_sessions [] in
      match loaded with
      | first :: _ =>
          {| sessions := loaded; activeSessionId := id first;
             historyLoading := false |}
      | [] =>
          let first := createSession f in
          {| sessions := [first]; activeSessionId := id first;
             historyLoading := false |}
      end
  | HistoryFailed =>
      let first := createSession f in
      {| sessions := [first]; activeSessionId := id first;
         historyLoading := false |}
  end.

Definition handleNewChat (f : Fresh) (s : State) : State :=
  let n := createSession f in
  {| sessions := n :: sessions s; activeSessionId := id n;
     historyLoading := historyLoading s |}.

Definition handleSelectSession (i : jsstring) (s : State) : State :=
  {| sessions := sessions s; activeSessionId := i;
     historyLoading := historyLoading s |}.

Definition handleDeleteSession (i : jsstring) (f : Fresh) (s : State) : State :=
  let prev := sessions s in
  let next := filter (fun x => negb (str_eqb (id x) i)) prev in
  if str_eqb i (activeSessionId s) then
    match next with
    | first :: _ =>
        {| sessions := next; activeSessionId := id first;
           historyLoading := historyLoading s |}
    | [] =>
        let fresh := createSession f in
        {| sessions := [fresh]; activeSessionId := id fresh;
           historyLoading := historyLoading s |}
    end
  else
    {| sessions := next; activeSessionId := activeSessionId s;
       historyLoading := historyLoading s |}.

(** The horizontal ellipsis appended to a shortened title. *)
Definition ELLIPSIS : N := 8230.

(** The title derived from the first user message, if there is one. *)
Definition derive_title (msgs : list Message) (old : jsstring) : jsstring :=
  match find (fun m => match role m with user => true | assistant => false end)
             msgs with
  | Some firstUser =>
      firstn 42 (content firstUser) ++
      (if (42 <? List.length (content firstUser))%nat then [ELLIPSIS] else [])
  | None => old
  end.

(** The [setSessions] updater shared by [handleMessagesChange] and
    [handleSaveSession]. *)
Definition put_messages (sid : jsstring) (msgs : list Message)
    (prev : list Session) : list Session :=
  map (fun x =>
         if negb (str_eqb (id x) sid) then x
         else {| id := id x; title := derive_title msgs (title x);
                 messages := msgs; createdAt := createdAt x |})
      prev.

Definition handleMessagesChange (sid : jsstring) (msgs : list Message)
    (s : State) : State :=
  {| sessions := put_messages sid msgs (sessions s);
     activeSessionId := activeSessionId s;
     historyLoading := historyLoading s |}.

(** The body of [POST /history/session]. *)
Record SavedSession : Type := {
  saved_user_id : jsstring;
  saved_session_id : jsstring;
  saved_title : jsstring;
  saved_messages : list Message;
  saved_created_at : N
}.

(** [handleSaveSession]: the session is looked up in [sessionsRef.current]
    (the list as last rendered) and posted with the final messages. *)
Definition handleSaveSession (userId sid : jsstring)
    (finalMessages : list Message) (s : State) : State * list SavedSession :=
  ({| sessions := put_messages sid finalMessages (sessions s);
      activeSessionId := activeSessionId s;
      historyLoading := historyLoading s |},
   match find (fun x => str_eqb (id x) sid) (sessions s) with
   | Some fromRef =>
       if nonempty userId then
         [{| saved_user_id := userId; saved_session_id := id fromRef;
             saved_title := title fromRef; saved_messages := finalMessages;
             saved_created_at := createdAt fromRef |}]
       else []
   | None => []
   end).

(** What the user and the network can make happen.  The sidebar lists the
    sessions and offers selection and deletion of the listed ones only. *)
Inductive Event : Type :=
| HistoryArrives (reply : HistoryReply) (f : Fresh)
| NewChat (f : Fresh)
| SelectSession (i : jsstring)
| DeleteSession (i : jsstring) (f : Fresh)
| MessagesChange (sid : jsstring) (msgs : list Message)
| SaveSession (userId sid : jsstring) (msgs : list Message).

Definition listed (i : jsstring) (s : State) : Prop :=
  In i (map id (sessions s)).

Definition offered (e : Event) (s : State) : Prop :=
  match e with
  | HistoryArrives _ _ => True
  | NewChat _ | DeleteSession _ _ | MessagesChange _ _ | SaveSession _ _ _ =>
      historyLoading s = false
  | SelectSession i => historyLoading s = false /\ listed i s
  end.

Definition handle (e : Event) (s : State) : State :=
  match e with
  | HistoryArrives reply f => load_history reply f s
  | NewChat f => handleNewChat f s
  | SelectSession i => handleSelectSession i s
  | DeleteSession i f => handleDeleteSession i f s
  | MessagesChange sid msgs => handleMessagesChange sid msgs s
  | SaveSession userId sid msgs => fst (handleSaveSession userId sid msgs s)
  end.

(** The states the shell goes through. *)
Inductive reachable : State -> Prop :=
| reach_initial : reachable initial
| reach_step e s : reachable s -> offered e s -> reachable (handle e s).

(** The invariant of the shell once the history has been loaded. *)
Definition well_formed (s : State) : Prop :=
  sessions s <> [] /\ listed (activeSessionId s) s.

End AppShell.

(* ================================================================== *)
(** ** A concrete runtime, to run the handlers on examples *)
(* ================================================================== *)

(** The theorems below hold for every [Runtime].  To evaluate the handlers
    on concrete streams, [Sample] implements [JSON.parse] for JSON texts
    whose numbers are integers of at most 15 digits (it refuses fractions
    and exponents, which the examples do not use) and
    [encodeURIComponent] in full. *)
Module Sample.

(** A literal in which the apostrophe stands for the double quote. *)
Definition dq (s : string) : jsstring :=
  map (fun c => if c =? 39 then DQUOTE else c) (lit s).

Definition is_json_ws (c : N) : bool :=
  (c =? 32) || (c =? 9) || (c =? 10) || (c =? 13).

Fixpoint skip_ws (s : jsstring) : jsstring :=
  match s with
  | c :: r => if is_json_ws c then skip_ws r else s
  | [] => []
  end.

Definition is_digit (c : N) : bool := (48 <=? c) && (c <=? 57).

Definition hex_val (c : N) : option N :=
  if is_digit c then Some (c - 48)
  else if (65 <=? c) && (c <=? 70) then Some (c - 55)
  else if (97 <=? c) && (c <=? 102) then Some (c - 87)
  else None.

(** The characters of a string literal after its opening quote, and what
    follows the closing quote. *)
Fixpoint parse_chars (s : jsstring) : option (jsstring * jsstring) :=
  match s with
  | [] => None
  | c :: r =>
      if c =? DQUOTE then Some ([], r)
      else if c =? 92 then
        match r with
        | e :: r1 =>
            let simple (u : N) :=
              match parse_chars r1 with
              | Some (cs, rest) => Some (u :: cs, rest)
              | None => None
              end in
            if e =? DQUOTE then simple DQUOTE
            else if e =? 92 then simple 92
            else if e =? 47 then simple 47
            else if e =? 98 then simple 8
            else if e =? 102 then simple 12
            else if e =? 110 then simple 10
            else if e =? 114 then simple 13
            else if e =? 116 then simple 9
            else if e =? 117 then
              match r1 with
              | h1 :: h2 :: h3 :: h4 :: r2 =>
                  match hex_val h1, hex_val h2, hex_val h3, hex_val h4,
                        parse_chars r2 with
                  | Some a, Some b, Some c', Some d, Some (cs, rest) =>
                      Some (((a * 16 + b) * 16 + c') * 16 + d :: cs, rest)
                  | _, _, _, _, _ => None
                  end
              | _ => None
              end
            else None
        | [] => None
        end
      else if c <? 32 then None
      else
        match parse_chars r with
        | Some (cs, rest) => Some (c :: cs, rest)
        | None => None
        end
  end.

(** The digits at the head of a string, and what follows them. *)
Fixpoint take_digits (s : jsstring) : jsstring * jsstring :=
  match s with
  | c :: r =>
      if is_digit c then let '(ds, rest) := take_digits r in (c :: ds, rest)
      else ([], s)
  | [] => ([], [])
  end.

Definition digits_value (ds : jsstring) : Z :=
  fold_left (fun acc c => (acc * 10 + Z.of_N (c - 48))%Z) ds 0%Z.

(** An integer literal: no leading zero, no fraction, no exponent. *)
Definition parse_int (s : jsstring) : option (Z * jsstring) :=
  let '(neg, s1) :=
    match s with
    | c :: r => if c =? 45 then (true, r) else (false, s)
    | [] => (false, s)
    end in
  let '(ds, rest) := take_digits s1 in
  let well_formed :=
    match ds with
    | [] => false
    | [_] => true
    | c :: _ => negb (c =? 48)
    end in
  let followed :=
    match rest with
    | c :: _ => (c =? 46) || (c =? 101) || (c =? 69)
    | [] => false
    end in
  if well_formed && negb followed && (List.length ds <=? 15)%nat
  then Some (if neg then (- digits_value ds)%Z else digits_value ds, rest)
  else None.

Fixpoint parse_value (fuel : nat) (s : jsstring) {struct fuel}
  : option (JSON Z * jsstring) :=
  match fuel with
  | O => None
  | S f =>
      let s := skip_ws s in
      if startsWith s (lit "null") then Some (JNull, skipn 4 s)
      else if startsWith s (lit "true") then Some (JBool true, skipn 4 s)
      else if startsWith s (lit "false") then Some (JBool false, skipn 5 s)
      else
        match s with
        | [] => None
        | c :: r =>
            if c =? DQUOTE then
              match parse_chars r with
              | Some (str, rest) => Some (JString str, rest)
              | None => None
              end
            else if c =? 91 then
              match skip_ws r with
              | 93 :: rest => Some (JArray [], rest)
              | _ =>
                  match parse_elements f r with
                  | Some (vs, rest) => Some (JArray vs, rest)
                  | None => None
                  end
              end
            else if c =? 123 then
              match skip_ws r with
              | 125 :: rest => Some (JObject [], rest)
              | _ =>
                  match parse_members f r with
                  | Some (fs, rest) => Some (JObject fs, rest)
                  | None => None
                  end
              end
            else
              match parse_int s with
              | Some (z, rest) => Some (JNumber z, rest)
              | None => None
              end
        end
  end
with parse_elements (fuel : nat) (s : jsstring) {struct fuel}
  : option (list (JSON Z) * jsstring) :=
  match fuel with
  | O => None
  | S f =>
      match parse_value f s with
      | Some (v, r) =>
          match skip_ws r with
          | 44 :: r1 =>
              match parse_elements f r1 with
              | Some (vs, rest) => Some (v :: vs, rest)
              | None => None
              end
          | 93 :: rest => Some ([v], rest)
          | _ => None
          end
      | None => None
      end
  end
with parse_members (fuel : nat) (s : jsstring) {struct fuel}
  : option (list (jsstring * JSON Z) * jsstring) :=
  match fuel with
  | O => None
  | S f =>
      match skip_ws s with
      | 34 :: r =>
          match parse_chars r with
          | Some (k, r1) =>
              match skip_ws r1 with
              | 58 :: r2 =>
                  match parse_value f r2 with
                  | Some (v, r3) =>
                      match skip_ws r3 with
                      | 44 :: r4 =>
                          match parse_members f r4 with
                          | Some (fs, rest) => Some ((k, v) :: fs, rest)
                          | None => None
                          end
                      | 125 :: rest => Some ([(k, v)], rest)
                      | _ => None
                      end
                  | None => None
                  end
              | _ => None
              end
          | None => None
          end
      | _ => None
      end
  end.

Definition JSON_parse (s : jsstring) : option (JSON Z) :=
  match parse_value (2 * List.length s + 2) s with
  | Some (v, rest) =>
      match skip_ws rest with
      | [] => Some v
      | _ => None
      end
  | None => None
  end.

(** Decimal digits of a natural number, most significant first. *)
Fixpoint decimal (fuel : nat) (n : N) (acc : jsstring) : jsstring :=
  match fuel with
  | O => acc
  | S f =>
      let acc := (48 + n mod 10) :: acc in
      if n / 10 =? 0 then acc else decimal f (n / 10) acc
  end.

Definition number_to_string (z : Z) : jsstring :=
  let n := Z.abs_N z in
  (if (z <? 0)%Z then [45] else []) ++ decimal (S (N.size_nat n)) n [].

Definition hex_digit (n : N) : N := if n <? 10 then 48 + n else 55 + n.

Definition percent (b : N) : jsstring :=
  [37; hex_digit (b / 16); hex_digit (b mod 16)].

(** A-Z a-z 0-9 - _ . ! ~ * ' ( ) *)
Definition unreserved (c : N) : bool :=
  ((65 <=? c) && (c <=? 90)) || ((97 <=? c) && (c <=? 122)) || is_digit c
  || (c =? 45) || (c =? 95) || (c =? 46) || (c =? 33) || (c =? 126)
  || (c =? 42) || (c =? 39) || (c =? 40) || (c =? 41).

(** UTF-8 bytes of a code point, percent-escaped. *)
Definition escape_code_point (cp : N) : jsstring :=
  if cp <? 128 then percent cp
  else if cp <? 2048 then
    percent (192 + cp / 64) ++ percent (128 + cp mod 64)
  else if cp <? 65536 then
    percent (224 + cp / 4096) ++ percent (128 + (cp / 64) mod 64)
    ++ percent (128 + cp mod 64)
  else
    percent (240 + cp / 262144) ++ percent (128 + (cp / 4096) mod 64)
    ++ percent (128 + (cp / 64) mod 64) ++ percent (128 + cp mod 64).

Fixpoint encodeURIComponent (s : jsstring) : option jsstring :=
  match s with
  | [] => Some []
  | c :: r =>
      if unreserved c then option_map (cons c) (encodeURIComponent r)
      else if (55296 <=? c) && (c <=? 56319) then
        match r with
        | d :: r1 =>
            if (56320 <=? d) && (d <=? 57343) then
              option_map
                (app (escape_code_point
                        (65536 + (c - 55296) * 1024 + (d - 56320))))
                (encodeURIComponent r1)
            else None
        | [] => None
        end
      else if (56320 <=? c) && (c <=? 57343) then None
      else option_map (app (escape_code_point c)) (encodeURIComponent r)
  end.

Definition runtime : Runtime :=
  mkRuntime (fun z => (z =? 0)%Z) number_to_string JSON_parse
            encodeURIComponent.

End Sample.

(* ================================================================== *)
(** ** Pure views of the stream consumer *)
(* ================================================================== *)

Section Views.

Variable rt : Runtime.

(** The payload of an event line: [line.slice(6).trim()]. *)
Definition payload (line : jsstring) : jsstring := trim (slice 6 line).

Definition is_data_line (line : jsstring) : bool :=
  startsWith line (lit "data: ").

(** The line at which [for (const line of lines)] executes [break]. *)
Definition is_done_line (line : jsstring) : bool :=
  is_data_line line && str_eqb (payload line) (lit "[DONE]").

(** What a line adds to the answer when the loop reaches it and goes on. *)
Definition line_text (line : jsstring) : jsstring :=
  if is_data_line line then nullish (token_of rt (payload line)) [] else [].






(** The text one run of the [for] loop appends. *)
Fixpoint batch_text (lines : list jsstring) : jsstring :=
  match lines with
  | [] => []
  | line :: rest =>
      if is_done_line line then [] else line_text line ++ batch_text rest
  end.

(** The complete lines of a buffer and the piece kept for the next read. *)
Definition complete_lines (s : jsstring) : list jsstring :=
  fst (pop (split LF s)).

Definition kept (s : jsstring) : jsstring :=
  nullish (snd (pop (split LF s))) [].

(** The text the [while] loop appends over successive reads, starting
    with [sseBuffer = buf]. *)
Fixpoint stream_text (buf : jsstring) (values : list jsstring) : jsstring :=
  match values with
  | [] => []
  | value :: more =>
      batch_text (complete_lines (buf ++ value))
      ++ stream_text (kept (buf ++ value)) more
  end.

(** The lines handed to successive runs of the [for] loop. *)
Fixpoint batches (buf : jsstring) (values : list jsstring)
  : list (list jsstring) :=
  match values with
  | [] => []
  | value :: more =>
      complete_lines (buf ++ value) :: batches (kept (buf ++ value)) more
  end.

(** The effect of the token updaters on the message list, for a text [d]
    appended to the last message. *)
Definition append_text (d : jsstring) (prev : list Message) : list Message :=
  match rev prev with
  | [] => []
  | m :: r => rev r ++ [{| role := role m; content := content m ++ d |}]
  end.

(** Whether the [try] block of an exchange is left by a [throw]. *)
Definition failed (reply : FetchOutcome) : bool :=
  match reply with
  | Rejected => true
  | Response ok body =>
      match body with
      | Some b => negb ok || read_rejects b
      | None => true
      end
  end.

(** The text streamed into the assistant message while the [try] block
    runs (whether or not a later [read()] rejects). *)
Definition streamed (reply : FetchOutcome) : jsstring :=
  match reply with
  | Response true (Some b) => stream_text [] (reads b)
  | _ => []
  end.

(** No line but the last one is the terminator. *)
Definition done_only_last (lines : list jsstring) : Prop :=
  forall l1 d l2,
    lines = l1 ++ d :: l2 -> l2 <> [] -> is_done_line d = false.

(** A position in the stream at which a line begins. *)
Definition at_line_start (before : jsstring) : Prop :=
  before = [] \/ exists s, before = s ++ [LF].

End Views.

(** The calls of [onSaveSession] among the effects of a handler. *)
Fixpoint saved (effs : list Effect) : list (jsstring * list Message) :=
  match effs with
  | [] => []
  | OnSaveSession sid final :: r => (sid, final) :: saved r
  | _ :: r => saved r
  end.

(** The requests among the effects of a handler. *)
Fixpoint requests (effs : list Effect) : list Request :=
  match effs with
  | [] => []
  | Fetch q :: r => q :: requests r
  | _ :: r => requests r
  end.

Definition is_merge_request (q : Request) : bool :=
  match q with POST_pdf_merge _ _ => true | _ => false end.

(** The guards of the two exchanges. *)
Definition can_send (overrideText : option jsstring) (st : State) : bool :=
  nonempty (trim (nullish overrideText (input st))) && negb (loading st).

Definition can_translate (st : State) : bool :=
  negb (match translatingPdf st with Some t => nonempty t | None => false end)
  && negb (loading st).

Definition translate_request (filename lang : jsstring) : Message :=
  {| role := user;
     content := lit "Translate " ++ [DQUOTE] ++ filename ++ [DQUOTE]
                ++ lit " to " ++ lang |}.

(** The names of a library, in order. *)
Definition names (lib : list PdfEntry) : list jsstring := map name lib.

(** The state [handleDeletePdf] leaves, whatever the server answers. *)
Definition after_delete (n : jsstring) (st : State) : State :=
  let st1 :=
    with_mergeSelected (without n (mergeSelected st))
      (with_pdfLibrary (without_name n (pdfLibrary st)) st) in
  if match previewPdfName st with
     | Some pv => str_eqb pv n
     | None => false
     end
  then with_previewPdfName None st1
  else st1.

(** The three ways in which a library changes. *)
Definition library_change (old new : list PdfEntry) : Prop :=
  new = old
  \/ (exists n, new = without_name n old)
  \/ (exists e, new = without_name (name e) old ++ [e]).

Definition is_alert (e : Effect) : bool :=
  match e with Alert _ => true | _ => false end.

(** The entry a merge adds for the file the server created. *)
Definition merged_entry (serverName enc : jsstring) : PdfEntry :=
  {| name := serverName; displayName := serverName;
     objectUrl := lit "http://localhost:8000/pdf/download/" ++ enc |}.

Section Component.

Variable rt : Runtime.
Variable props : Props.

(** The transitions of the chat component: the handlers of the source,
    each with what the network answered, the firings of the two
    intervals, and any other state change, which does not write to the
    library (typing, toggling a selection, opening the panel, ...). *)
Inductive step : State -> State -> Prop :=
| step_sendMessage overrideText reply sug st st' e :
    sendMessage rt props overrideText reply sug st = Some (tt, st', e) ->
    step st st'
| step_handleTranslate filename lang reply st st' e :
    handleTranslate rt props filename lang reply st = Some (tt, st', e) ->
    step st st'
| step_handleFileChange file_name objUrl reply st r st' e :
    handleFileChange file_name objUrl reply st = Some (r, st', e) ->
    step st st'
| step_upload_poll reply p st p' st' e :
    upload_poll rt reply p st = Some (p', st', e) ->
    step st st'
| step_merge_poll reply p st p' st' e :
    merge_poll rt reply p st = Some (p', st', e) ->
    step st st'
| step_handleDeletePdf n st st' e :
    handleDeletePdf rt n st = Some (tt, st', e) ->
    step st st'
| step_handleMerge now reply st r st' e :
    handleMerge rt now reply st = Some (r, st', e) ->
    step st st'
| step_other (f : State -> State) st :
    (forall s, pdfLibrary (f s) = pdfLibrary s) ->
    step st (f st).

Inductive reachable : State -> Prop :=
| reachable_initial initialMessages : reachable (initial_state initialMessages)
| reachable_step st st' : reachable st -> step st st' -> reachable st'.

End Component.

(** A reply that ends the polling: the status is ['done'] or ['error']. *)
Definition reports_end (r : StatusReply) : bool :=
  match r with
  | StatusIs status => str_eqb status (lit "done") || str_eqb status (lit "error")
  | _ => false
  end.

(** A status in which the embedding is over. *)
Definition settled (u : UploadStatus) : bool :=
  match u with success | error => true | _ => false end.

(** What a firing of either interval does, as far as the status pill and
    the interval itself are concerned. *)
Definition tick_ok (tick : StatusReply -> Poll -> M Poll) : Prop :=
  forall r p st,
  exists p' st' e,
    tick r p st = Some (p', st', e)
    /\ pollCount p' = S (pollCount p)
    /\ ((cleared p' = true /\ settled (uploadStatus st') = true
         /\ ((30 <= pollCount p')%nat /\ uploadStatus st' = success
             \/ (pollCount p' < 30)%nat /\ reports_end r = true))
        \/ (cleared p' = false /\ uploadStatus st' = uploadStatus st
            /\ (pollCount p' < 30)%nat)).

(* ================================================================== *)
(** ** Concrete inputs used in the examples *)
(* ================================================================== *)

Module Examples.

Definition props : Props :=
  {| sessionId := lit "s1"; has_onSaveSession := true |}.

(** The event line of a token, without its line feed. *)
Definition token_line (text : string) : jsstring :=
  lit "data: " ++ Sample.dq "{'type':'token','data':'" ++ lit text
  ++ Sample.dq "'}".

Definition done_line : jsstring := lit "data: [DONE]".



Definition earlier : list Message :=
  [{| role := user; content := lit "q" |};
   {| role := assistant; content := lit "r" |}].

(** A chat with one earlier exchange and ["hi"] typed in. *)
Definition typed : State := with_input (lit "hi") (initial_state earlier).

(** A server that never finishes embedding: thirty times the same
    non-final status. *)
Definition stuck : list StatusReply :=
  repeat (StatusIs (lit "processing")) 30.

(** The interval an accepted upload of [doc.pdf] starts. *)
Definition doc_poll : Poll :=
  {| poll_filename := lit "doc.pdf"; pollCount := 0; cleared := false |}.

Definition upload_doc : M (option Poll) :=
  handleFileChange (Some (lit "doc.pdf")) (lit "blob:1")
                   (UploadOk (Some (lit "doc.pdf"))).

(** The component while that upload is being embedded. *)
Definition uploading : State :=
  match upload_doc (initial_state []) with
  | Some (_, st, _) => st
  | None => initial_state []
  end.

(** A library of two local uploads, both selected for a merge. *)
Definition two_docs : list PdfEntry :=
  [{| name := lit "a.pdf"; displayName := lit "Report.pdf";
      objectUrl := lit "blob:1" |};
   {| name := lit "b.pdf"; displayName := lit "Annex.pdf";
      objectUrl := lit "blob:2" |}].

Definition two_selected : State :=
  with_mergeSelected [lit "a.pdf"; lit "b.pdf"]
    (with_pdfLibrary two_docs (initial_state [])).


Definition one_selected : State :=
  with_mergeSelected [lit "a.pdf"]
    (with_pdfLibrary two_docs (initial_state [])).

Definition body (values : list jsstring) : FetchOutcome :=
  Response true (Some {| reads := values; read_rejects := false |}).

(** A body whose reads end with a rejected [read()]. *)
Definition cut_body (values : list jsstring) : FetchOutcome :=
  Response true (Some {| reads := values; read_rejects := true |}).

End Examples.

(* ================================================================== *)
(** ** Further handlers of the components *)
(* ================================================================== *)

(** *** localStorage *)

(** The entries of [localStorage], most recently written first. *)
Definition Storage : Type := list (jsstring * jsstring).

(** [localStorage.getItem(k)] *)
Fixpoint getItem (k : jsstring) (st : Storage) : option jsstring :=
  match st with
  | [] => None
  | (k', v) :: r => if str_eqb k' k then Some v else getItem k r
  end.

(** [localStorage.setItem(k, v)] *)
Definition setItem (k v : jsstring) (st : Storage) : Storage :=
  (k, v) :: filter (fun kv => negb (str_eqb (fst kv) k)) st.

(** [getAnonymousUserId]; [has_window] is [typeof window !== 'undefined']
    and [generated] what [generateId()] returns if it is called. *)
Definition getAnonymousUserId (has_window : bool) (generated : jsstring)
    (st : Storage) : jsstring * Storage :=
  if negb has_window then (lit "anon", st)
  else
    match getItem (lit "anon_user_id") st with
    | Some (c :: i) => (c :: i, st)
    | _ =>
        let id := lit "anon_" ++ generated in
        (id, setItem (lit "anon_user_id") id st)
    end.

(** *** Sidebar: theme *)

Module Sidebar.

(** The theme as the sidebar sees it: its [isDark] state and whether the
    document element carries the class [light]. *)
Record Theme : Type := { isDark : bool; light_class : bool }.

(** The mount effect: [setIsDark(stored !== 'light')]. *)
Definition hydrate (st : Storage) (t : Theme) : Theme :=
  {| isDark :=
       match getItem (lit "theme") st with
       | Some stored => negb (str_eqb stored (lit "light"))
       | None => true
       end;
     light_class := light_class t |}.

(** The theme when the sidebar mounts: [useState(true)], and the class
    as the document carries it then ([page_light]). *)
Definition mounted (page_light : bool) : Theme :=
  {| isDark := true; light_class := page_light |}.

Definition toggleTheme (t : Theme) (st : Storage) : Theme * Storage :=
  let next := negb (isDark t) in
  if next then
    ({| isDark := next; light_class := false |},
     setItem (lit "theme") (lit "dark") st)
  else
    ({| isDark := next; light_class := true |},
     setItem (lit "theme") (lit "light") st).

End Sidebar.

(** *** ChatComponent: editing, summarising, exporting, selecting *)

(** [editingIndex] and [editValue]. *)
Record EditState : Type := {
  editingIndex : option nat;
  editValue : jsstring
}.

Definition startEdit (index : nat) (content : jsstring) : EditState :=
  {| editingIndex := Some index; editValue := content |}.

Definition cancelEdit : EditState :=
  {| editingIndex := None; editValue := [] |}.

(** [submitEdit]: the messages from the edited one on are discarded; the
    result carries the text that the deferred call hands to
    [sendMessage], if there is one. *)
Definition submitEdit (e : EditState) : M (EditState * option jsstring) :=
  st0 <- rendered ;;
  if negb (nonempty (trim (editValue e))) then ret (e, None)
  else
    match editingIndex e with
    | None => ret (e, None)
    | Some index =>
        let before := firstn index (messages st0) in
        setMessages (fun _ => Some before) ;;
        ret (cancelEdit, Some (trim (editValue e)))
    end.

(** The carriage return. *)
Definition CR : N := 13.

(** The text in which every line feed is preceded by a carriage return. *)
Fixpoint crlf (s : jsstring) : jsstring :=
  match s with
  | [] => []
  | c :: r => if c =? LF then CR :: LF :: crlf r else c :: crlf r
  end.

(** A check of [done_only_last]. *)
Fixpoint done_only_last_b (lines : list jsstring) : bool :=
  match lines with
  | [] => true
  | d :: rest =>
      match rest with
      | [] => true
      | _ => negb (is_done_line d) && done_only_last_b rest
      end
  end.

(** A reply that is ok (or not), with a body read as [values]. *)
Definition reply_of (ok : bool) (values : list jsstring) (rejects : bool)
  : FetchOutcome :=
  Response ok (Some {| reads := values; read_rejects := rejects |}).




(** A string that neither begins nor ends with white space. *)
Definition tight (s : jsstring) : Prop :=
  s = []
  \/ ((exists c r, s = c :: r /\ is_white_space c = false)
      /\ (exists r d, s = r ++ [d] /\ is_white_space d = false)).

(** The text of an array length. *)
Definition length_text (n : nat) : jsstring :=
  Sample.decimal (S (N.size_nat (N.of_nat n))) (N.of_nat n) [].

(** The prompt of [summarize]. *)
Definition summarize_prompt (lib : list PdfEntry) : jsstring :=
  if (1 <? List.length lib)%nat then
    lit "Please provide a comprehensive summary of each of the "
    ++ length_text (List.length lib) ++ lit " uploaded PDFs: "
    ++ join (lit ", ") (map displayName lib) ++ lit "."
  else lit "Please provide a comprehensive summary of the uploaded PDF document.".

Inductive ExportFormat : Type := txt | md.

(** The speaker label of [exportChat]; the markdown labels begin with an
    emoji, two code units each. *)
Definition export_label (f : ExportFormat) (r : Role) : jsstring :=
  match f, r with
  | md, user => [55357; 56420] ++ lit " You"
  | md, assistant => [55358; 56598] ++ lit " Assistant"
  | txt, user => lit "You"
  | txt, assistant => lit "Assistant"
  end.

(** The array [lines] of [exportChat]. *)
Definition export_lines (f : ExportFormat) (msgs : list Message)
  : list jsstring :=
  match f with
  | md =>
      (lit "# Chat Export" ++ [LF]) ::
      flat_map (fun m =>
                  [lit "### " ++ export_label md (role m) ++ [LF];
                   content m ++ [LF]]) msgs
  | txt =>
      map (fun m => lit "[" ++ export_label txt (role m) ++ lit "]: "
                    ++ content m ++ [LF]) msgs
  end.

(** [exportChat]: the name of the download and its text. *)
Definition exportChat (f : ExportFormat) (msgs : list Message)
  : jsstring * jsstring :=
  (lit "chat-export." ++ match f with txt => lit "txt" | md => lit "md" end,
   join [LF] (export_lines f msgs)).

(** [arr.includes(x)] on an array of strings. *)
Definition includes (x : jsstring) (l : list jsstring) : bool :=
  existsb (fun y => str_eqb y x) l.

(** The [onChange] of the merge checkbox of the entry named [n];
    [checked] is [e.target.checked]. *)
Definition toggle_select (n : jsstring) (checked : bool) (s : State) : State :=
  with_mergeSelected
    (if checked then mergeSelected s ++ [n] else without n (mergeSelected s)) s.

Section Selection.

Variable rt : Runtime.
Variable props : Props.

(** The transitions of the component that bear on the library and on the
    merge selection: the handlers, the firings of the intervals, a click
    on the checkbox of a listed entry (the box is controlled, so the click
    asks for the opposite of what is shown), and any other state change,
    which writes to neither. *)
Inductive sel_step : State -> State -> Prop :=
| sel_sendMessage overrideText reply sug st st' e :
    sendMessage rt props overrideText reply sug st = Some (tt, st', e) ->
    sel_step st st'
| sel_handleTranslate filename lang reply st st' e :
    handleTranslate rt props filename lang reply st = Some (tt, st', e) ->
    sel_step st st'
| sel_handleFileChange file_name objUrl reply st r st' e :
    handleFileChange file_name objUrl reply st = Some (r, st', e) ->
    sel_step st st'
| sel_upload_poll reply p st p' st' e :
    upload_poll rt reply p st = Some (p', st', e) ->
    sel_step st st'
| sel_merge_poll reply p st p' st' e :
    merge_poll rt reply p st = Some (p', st', e) ->
    sel_step st st'
| sel_handleDeletePdf n st st' e :
    handleDeletePdf rt n st = Some (tt, st', e) ->
    sel_step st st'
| sel_handleMerge now reply st r st' e :
    handleMerge rt now reply st = Some (r, st', e) ->
    sel_step st st'
| sel_toggle n st :
    In n (names (pdfLibrary st)) ->
    sel_step st (toggle_select n (negb (includes n (mergeSelected st))) st)
| sel_other (f : State -> State) st :
    (forall s, pdfLibrary (f s) = pdfLibrary s) ->
    (forall s, mergeSelected (f s) = mergeSelected s) ->
    sel_step st (f st).

Inductive sel_reachable : State -> Prop :=
| sel_initial initialMessages : sel_reachable (initial_state initialMessages)
| sel_next st st' : sel_reachable st -> sel_step st st' -> sel_reachable st'.

End Selection.

(** The status requests among the effects. *)
Definition is_status_request (q : Request) : bool :=
  match q with GET_upload_status _ => true | _ => false end.

(** What a firing asks the server: nothing, or the status of its file,
    and nothing at the thirtieth firing. *)
Definition asks_at_most_once (tick : StatusReply -> Poll -> M Poll) : Prop :=
  forall r p st,
  exists p' st' e,
    tick r p st = Some (p', st', e)
    /\ pollCount p' = S (pollCount p)
    /\ poll_filename p' = poll_filename p
    /\ (requests e = []
        \/ requests e = [GET_upload_status (poll_filename p)]
           /\ (S (pollCount p) < 30)%nat).

(** The selection holds distinct names of the library. *)
Definition selection_ok (st : State) : Prop :=
  NoDup (mergeSelected st)
  /\ incl (mergeSelected st) (names (pdfLibrary st)).

(** [summarize]: the prompt goes to [sendMessage] through
    [sendMessageRef]. *)
Definition summarize (rt : Runtime) (props : Props) (reply : FetchOutcome)
    (sug_reply : option (list jsstring)) : M unit :=
  st0 <- rendered ;;
  sendMessage rt props (Some (summarize_prompt (pdfLibrary st0))) reply
              sug_reply.

(** [haystack.includes(needle)] on strings: [needle] occurs in
    [haystack]. *)
Definition occurs_in (needle haystack : jsstring) : Prop :=
  exists pre post, haystack = pre ++ needle ++ post.

(* ================================================================== *)
(** * Properties *)
(* ================================================================== *)

(** ** Strings *)

Lemma str_eqb_spec (a b : jsstring) : str_eqb a b = true <-> a = b.
Proof.
  revert b; induction a as [|x a IH]; intros [|y b];
    try (split; [discriminate | discriminate]); try (split; reflexivity).
  change (str_eqb (x :: a) (y :: b)) with ((x =? y) && str_eqb a b).
  rewrite andb_true_iff, N.eqb_eq, IH. split.
  - intros [-> ->]; reflexivity.
  - intros H; injection H; auto.
Qed.

Lemma str_eqb_refl (a : jsstring) : str_eqb a a = true.
Proof. apply str_eqb_spec; reflexivity. Qed.

Lemma str_eqb_neq (a b : jsstring) : str_eqb a b = false <-> a <> b.
Proof.
  split.
  - intros H E. apply str_eqb_spec in E. congruence.
  - intros H. destruct (str_eqb a b) eqn:E; auto.
    apply str_eqb_spec in E. contradiction.
Qed.

Lemma split_nonempty (sep : N) (s : jsstring) : split sep s <> [].
Proof.
  destruct s as [|c s]; simpl; [discriminate|].
  destruct (c =? sep); [discriminate|].
  destruct (split sep s); discriminate.
Qed.

(** Splitting distributes over a separator in the middle. *)
Lemma split_app_sep (sep : N) (x y : jsstring) :
  split sep (x ++ sep :: y) = split sep x ++ split sep y.
Proof.
  induction x as [|c x IH]; simpl.
  - rewrite N.eqb_refl. reflexivity.
  - destruct (c =? sep); [rewrite IH; reflexivity|].
    rewrite IH. destruct (split sep x) eqn:E; [|reflexivity].
    exfalso; exact (split_nonempty _ _ E).
Qed.

Lemma split_no_sep (sep : N) (x : jsstring) :
  ~ In sep x -> split sep x = [x].
Proof.
  induction x as [|c x IH]; simpl; intros H; [reflexivity|].
  destruct (c =? sep) eqn:E.
  - apply N.eqb_eq in E. exfalso; apply H; auto.
  - rewrite IH by tauto. reflexivity.
Qed.

Lemma pop_snoc {A} (l : list A) (x : A) : pop (l ++ [x]) = (l, Some x).
Proof. unfold pop. rewrite rev_unit, rev_involutive. reflexivity. Qed.

Lemma pop_app {A} (l1 l2 : list A) :
  l2 <> [] -> pop (l1 ++ l2) = (l1 ++ fst (pop l2), snd (pop l2)).
Proof.
  intros H. destruct (exists_last H) as [l [x ->]].
  rewrite app_assoc, !pop_snoc. reflexivity.
Qed.

(** ** The stream consumer computes its pure view *)

Arguments lit : simpl never.
Arguments trim : simpl never.
Arguments slice : simpl never.
Arguments startsWith : simpl never.
Arguments str_eqb : simpl never.
Arguments split : simpl never.


Lemma append_text_nonempty (d : jsstring) (ms : list Message) :
  ms <> [] -> append_text d ms <> [].
Proof.
  intros H. unfold append_text. destruct (rev ms) eqn:E.
  - apply (f_equal (@rev _)) in E. rewrite rev_involutive in E. contradiction.
  - intros C. apply app_eq_nil in C. destruct C; discriminate.
Qed.

Lemma append_to_last_some (d : jsstring) (ms : list Message) :
  ms <> [] -> append_to_last d ms = Some (append_text d ms).
Proof.
  intros H. unfold append_to_last, append_text. destruct (rev ms) eqn:E.
  - apply (f_equal (@rev _)) in E. rewrite rev_involutive in E. contradiction.
  - reflexivity.
Qed.

Lemma append_text_nil (ms : list Message) : append_text [] ms = ms.
Proof.
  unfold append_text. destruct (rev ms) as [|m r] eqn:E.
  - apply (f_equal (@rev _)) in E. rewrite rev_involutive in E. auto.
  - rewrite app_nil_r. destruct m as [ro co]; simpl.
    apply (f_equal (@rev _)) in E. rewrite rev_involutive in E.
    simpl in E. auto.
Qed.

Lemma append_text_app (d e : jsstring) (ms : list Message) :
  append_text e (append_text d ms) = append_text (d ++ e) ms.
Proof.
  unfold append_text. destruct (rev ms) as [|m r]; [reflexivity|].
  rewrite rev_unit, rev_involutive. simpl. rewrite app_assoc. reflexivity.
Qed.

Lemma append_text_snoc (d : jsstring) (ms : list Message) (m : Message) :
  append_text d (ms ++ [m]) =
  ms ++ [{| role := role m; content := content m ++ d |}].
Proof. unfold append_text. rewrite rev_unit, rev_involutive. reflexivity. Qed.

Lemma replace_last_snoc (e : Message) (ms : list Message) (m : Message) :
  replace_last e (ms ++ [m]) = ms ++ [e].
Proof. unfold replace_last. rewrite rev_unit, rev_involutive. reflexivity. Qed.

Lemma append_text_snoc2 (d : jsstring) (ms : list Message) (u m : Message) :
  append_text d (ms ++ [u; m]) =
  ms ++ [u; {| role := role m; content := content m ++ d |}].
Proof.
  change [u; m] with ([u] ++ [m]).
  rewrite app_assoc, append_text_snoc, <- app_assoc. reflexivity.
Qed.

Lemma replace_last_snoc2 (e : Message) (ms : list Message) (u m : Message) :
  replace_last e (ms ++ [u; m]) = ms ++ [u; e].
Proof.
  change [u; m] with ([u] ++ [m]).
  rewrite app_assoc, replace_last_snoc, <- app_assoc. reflexivity.
Qed.

Lemma with_messages_same (st : State) : with_messages (messages st) st = st.
Proof. destruct st; reflexivity. Qed.

Section ConsumerRuns.

Variable rt : Runtime.

Lemma for_lines_run (lines : list jsstring) :
  forall (full : jsstring) (st : State),
    messages st <> [] ->
    for_lines rt lines full st =
    Some (full ++ batch_text rt lines,
          with_messages (append_text (batch_text rt lines) (messages st)) st,
          []).
Proof.
  induction lines as [|line rest IH]; intros full st Hne; simpl.
  - unfold ret. rewrite app_nil_r, append_text_nil, with_messages_same.
    reflexivity.
  - unfold is_done_line, line_text, is_data_line, payload.
    destruct (startsWith line (lit "data: ")) eqn:Hd; simpl.
    + destruct (str_eqb (trim (slice 6 line)) (lit "[DONE]")) eqn:Hdone.
      * unfold ret. rewrite app_nil_r, append_text_nil, with_messages_same.
        reflexivity.
      * destruct (token_of rt (trim (slice 6 line))) as [d|] eqn:Ht; simpl.
        -- unfold bind, setMessages. rewrite (append_to_last_some d Hne).
           rewrite IH by (simpl; apply append_text_nonempty; exact Hne).
           simpl. rewrite append_text_app, app_assoc. reflexivity.
        -- apply IH; exact Hne.
    + apply IH; exact Hne.
Qed.

Lemma on_read_run (value buf full : jsstring) (st : State) :
  messages st <> [] ->
  on_read rt value (buf, full) st =
  Some ((kept (buf ++ value),
         full ++ batch_text rt (complete_lines (buf ++ value))),
        with_messages
          (append_text (batch_text rt (complete_lines (buf ++ value)))
                       (messages st)) st,
        []).
Proof.
  intros Hne. unfold on_read, kept, complete_lines.
  destruct (pop (split LF (buf ++ value))) as [lines last]; simpl.
  unfold bind. rewrite for_lines_run by exact Hne. reflexivity.
Qed.

Lemma read_loop_run (values : list jsstring) :
  forall (buf full : jsstring) (st : State),
    messages st <> [] ->
    exists buf',
      read_loop rt values (buf, full) st =
      Some ((buf', full ++ stream_text rt buf values),
            with_messages
              (append_text (stream_text rt buf values) (messages st)) st,
            []).
Proof.
  induction values as [|value more IH]; intros buf full st Hne;
    cbn [read_loop stream_text].
  - exists buf. unfold ret.
    rewrite app_nil_r, append_text_nil, with_messages_same. reflexivity.
  - unfold bind. rewrite on_read_run by exact Hne.
    edestruct IH as [buf' ->].
    { simpl. apply append_text_nonempty. exact Hne. }
    exists buf'. simpl. rewrite append_text_app, app_assoc. reflexivity.
Qed.

(** What the [try] block does to a state whose message list is not empty:
    the streamed text lands in the last message, nothing else changes and
    nothing is emitted. *)
Lemma stream_try_run (reply : FetchOutcome) (st : State) :
  messages st <> [] ->
  stream_try rt reply st =
  Some ((streamed rt reply, failed reply),
        with_messages (append_text (streamed rt reply) (messages st)) st,
        []).
Proof.
  intros Hne. unfold stream_try, streamed, failed.
  destruct reply as [|ok [b|]]; simpl;
    try (unfold ret; rewrite append_text_nil, with_messages_same; reflexivity).
  2: { destruct ok; unfold ret; rewrite append_text_nil, with_messages_same;
       reflexivity. }
  destruct ok; simpl.
  - unfold bind. destruct (read_loop_run (reads b) [] [] st Hne) as [buf' E].
    unfold jsstring in *. rewrite E. reflexivity.
  - unfold ret. rewrite append_text_nil, with_messages_same. reflexivity.
Qed.

End ConsumerRuns.

(** ** What an exchange leaves behind *)

Arguments append_text : simpl never.
Arguments replace_last : simpl never.

Section Exchanges.

Variable rt : Runtime.
Variable props : Props.

Lemma saved_app (e1 e2 : list Effect) : saved (e1 ++ e2) = saved e1 ++ saved e2.
Proof.
  induction e1 as [|e r IH]; simpl; [reflexivity|].
  destruct e; simpl; rewrite ?IH; reflexivity.
Qed.

(** The follow-up suggestions touch the suggestions only. *)
Lemma suggestions_run (b : bool) (trimmed fullAnswer : jsstring)
    (sug_reply : option (list jsstring)) (st : State) :
  exists st' e,
    when b (fetch_suggestions rt trimmed fullAnswer sug_reply) st
    = Some (tt, st', e)
    /\ messages st' = messages st
    /\ loading st' = loading st
    /\ pdfLibrary st' = pdfLibrary st
    /\ saved e = [].
Proof.
  destruct b; cbn.
  - unfold fetch_suggestions, bind, update, emit, ret.
    destruct (encodeURIComponent rt trimmed), (encodeURIComponent rt fullAnswer),
      sug_reply; cbn; eexists; eexists; repeat split; reflexivity.
  - unfold ret. eexists; eexists; repeat split; reflexivity.
Qed.

Lemma sendMessage_run (overrideText : option jsstring) (reply : FetchOutcome)
    (sug_reply : option (list jsstring)) (st : State) :
  can_send overrideText st = true ->
  let userMessage :=
    {| role := user; content := trim (nullish overrideText (input st)) |} in
  exists st' effs,
    sendMessage rt props overrideText reply sug_reply st = Some (tt, st', effs)
    /\ messages st' =
       messages st ++
       [userMessage;
        if failed reply then chat_error
        else {| role := assistant; content := streamed rt reply |}]
    /\ loading st' = false
    /\ pdfLibrary st' = pdfLibrary st
    /\ saved effs =
       if negb (failed reply) && nonempty (trim (streamed rt reply))
          && has_onSaveSession props
       then [(sessionId props,
              messages st ++
              [userMessage;
               {| role := assistant; content := streamed rt reply |}])]
       else [].
Proof.
  intros H. unfold can_send in H. apply andb_true_iff in H as [H1 H2].
  apply negb_true_iff in H2.
  unfold sendMessage, bind, rendered. rewrite H1, H2. cbn -[stream_try].
  rewrite stream_try_run
    by (cbn; intros C; apply app_eq_nil in C; destruct C; discriminate).
  cbn -[fetch_suggestions]. rewrite append_text_snoc. cbn [role content app].
  destruct (failed reply) eqn:F; cbn -[fetch_suggestions].
  - rewrite replace_last_snoc.
    eexists; eexists; repeat split; cbn; try reflexivity.
    rewrite <- app_assoc; reflexivity.
  - match goal with
    | |- context [when ?b (fetch_suggestions rt ?t ?f ?r) ?s] =>
        destruct (suggestions_run b t f r s)
          as (s1 & e1 & E & Hm & Hl & Hp & Hs)
    end.
    rewrite E. cbn in Hm, Hl, Hp. cbn.
    destruct (nonempty (trim (streamed rt reply)));
      destruct (has_onSaveSession props); cbn;
      eexists; eexists; repeat split; cbn;
      rewrite ?saved_app, ?Hs, ?Hm, ?Hp, <- ?app_assoc; reflexivity.
Qed.

Lemma sendMessage_idle (overrideText : option jsstring) (reply : FetchOutcome)
    (sug_reply : option (list jsstring)) (st : State) :
  can_send overrideText st = false ->
  sendMessage rt props overrideText reply sug_reply st = Some (tt, st, []).
Proof.
  intros H. unfold can_send in H. unfold sendMessage, bind, rendered.
  destruct (nonempty (trim (nullish overrideText (input st))));
    destruct (loading st); try discriminate; reflexivity.
Qed.

Lemma handleTranslate_run (filename lang : jsstring) (reply : FetchOutcome)
    (st : State) :
  can_translate st = true ->
  exists st' effs,
    handleTranslate rt props filename lang reply st = Some (tt, st', effs)
    /\ messages st' =
       messages st ++
       [translate_request filename lang;
        if failed reply then translate_error
        else {| role := assistant; content := streamed rt reply |}]
    /\ loading st' = false
    /\ translatingPdf st' = None
    /\ pdfLibrary st' = pdfLibrary st
    /\ saved effs =
       if negb (failed reply) && nonempty (trim (streamed rt reply))
          && has_onSaveSession props
       then [(sessionId props,
              messages st ++
              [translate_request filename lang;
               {| role := assistant; content := streamed rt reply |}])]
       else [].
Proof.
  intros H. unfold can_translate in H. apply andb_true_iff in H as [H1 H2].
  apply negb_true_iff in H1. apply negb_true_iff in H2.
  unfold handleTranslate, bind, rendered. rewrite H1, H2. cbn -[stream_try].
  rewrite stream_try_run
    by (cbn; intros C; apply app_eq_nil in C; destruct C; discriminate).
  cbn. rewrite append_text_snoc2. cbn [role content app].
  destruct (failed reply) eqn:F; cbn.
  - rewrite replace_last_snoc2.
    eexists; eexists; repeat split; cbn; reflexivity.
  - destruct (nonempty (trim (streamed rt reply)));
      destruct (has_onSaveSession props); cbn;
      eexists; eexists; repeat split; cbn; reflexivity.
Qed.

Lemma handleTranslate_idle (filename lang : jsstring) (reply : FetchOutcome)
    (st : State) :
  can_translate st = false ->
  handleTranslate rt props filename lang reply st = Some (tt, st, []).
Proof.
  intros H. unfold can_translate in H. unfold handleTranslate, bind, rendered.
  destruct (match translatingPdf st with
            | Some t => nonempty t
            | None => false
            end); destruct (loading st); try discriminate; reflexivity.
Qed.

(** An exchange sees its reply through the streamed text and the failure
    flag only. *)
Lemma sendMessage_ext (overrideText : option jsstring) (r1 r2 : FetchOutcome)
    (sug_reply : option (list jsstring)) (st : State) :
  streamed rt r1 = streamed rt r2 -> failed r1 = failed r2 ->
  sendMessage rt props overrideText r1 sug_reply st
  = sendMessage rt props overrideText r2 sug_reply st.
Proof.
  intros Hs Hf. unfold sendMessage, bind, rendered.
  destruct (negb (nonempty (trim (nullish overrideText (input st))))
            || loading st); [reflexivity|].
  cbn -[stream_try].
  rewrite !stream_try_run
    by (cbn; intros C; apply app_eq_nil in C; destruct C; discriminate).
  rewrite Hs, Hf. reflexivity.
Qed.

Lemma handleTranslate_ext (filename lang : jsstring) (r1 r2 : FetchOutcome)
    (st : State) :
  streamed rt r1 = streamed rt r2 -> failed r1 = failed r2 ->
  handleTranslate rt props filename lang r1 st
  = handleTranslate rt props filename lang r2 st.
Proof.
  intros Hs Hf. unfold handleTranslate, bind, rendered.
  destruct (match translatingPdf st with
            | Some t => nonempty t
            | None => false
            end || loading st); [reflexivity|].
  cbn -[stream_try].
  rewrite !stream_try_run
    by (cbn; intros C; apply app_eq_nil in C; destruct C; discriminate).
  rewrite Hs, Hf. reflexivity.
Qed.

End Exchanges.

(** ** A line that is passed over does not disturb its neighbours *)

Section SkippedLines.

Variable rt : Runtime.







Lemma kept_ends_with_LF (s : jsstring) : kept (s ++ [LF]) = [].
Proof.
  unfold kept. rewrite split_app_sep.
  change (split LF []) with [@nil N]. rewrite pop_snoc. reflexivity.
Qed.

Lemma at_line_start_kept (x y : jsstring) :
  at_line_start (x ++ y) -> at_line_start (kept x ++ y).
Proof.
  intros [E | [s E]].
  - apply app_eq_nil in E as [-> ->]. left. reflexivity.
  - destruct y as [|c y'] using rev_ind.
    + rewrite app_nil_r in E. subst x. rewrite kept_ends_with_LF. left.
      reflexivity.
    + rewrite app_assoc in E. apply app_inj_tail in E as [_ ->].
      right. exists (kept x ++ y'). rewrite app_assoc. reflexivity.
Qed.

(** One read, with and without a line. *)
Lemma read_skip (buf a bad b : jsstring) :
  at_line_start (buf ++ a) -> ~ In LF bad ->
  exists l1 l2,
    complete_lines (buf ++ a ++ bad ++ LF :: b) = l1 ++ bad :: l2
    /\ complete_lines (buf ++ a ++ b) = l1 ++ l2
    /\ kept (buf ++ a ++ bad ++ LF :: b) = kept (buf ++ a ++ b).
Proof.
  intros Hs Hb. unfold complete_lines, kept. rewrite !app_assoc.
  destruct Hs as [E | [s E]]; rewrite E.
  - exists [], (fst (pop (split LF b))). cbn [app].
    rewrite split_app_sep, (split_no_sep LF bad Hb).
    rewrite pop_app by apply split_nonempty. auto.
  - exists (split LF s), (fst (pop (split LF b))).
    rewrite <- !app_assoc. cbn [app].
    rewrite !split_app_sep, (split_no_sep LF bad Hb).
    rewrite !pop_app
      by (try apply split_nonempty; intros C; apply app_eq_nil in C;
          destruct C; discriminate).
    cbn [fst snd app]. auto.
Qed.


End SkippedLines.

(** ** Streams whose terminator, if any, is their last line *)

Section TerminatedStreams.

Variable rt : Runtime.

Lemma last_LF (x : jsstring) :
  ~ In LF x \/ exists s k, x = s ++ LF :: k /\ ~ In LF k.
Proof.
  induction x as [|c x [IH | (s & k & -> & Hk)]].
  - left. intros [].
  - destruct (N.eq_dec c LF) as [-> | Hc].
    + right. exists [], x. auto.
    + left. intros [H | H]; auto.
  - right. exists (c :: s), k. auto.
Qed.

(** Reading [x] and then [y] hands over the lines of [x ++ y]. *)
Lemma complete_lines_app (x y : jsstring) :
  complete_lines (x ++ y) = complete_lines x ++ complete_lines (kept x ++ y)
  /\ kept (x ++ y) = kept (kept x ++ y).
Proof.
  unfold complete_lines, kept.
  destruct (last_LF x) as [Hx | (s & k & -> & Hk)].
  - rewrite (split_no_sep LF x Hx). change (pop [x]) with (pop ([] ++ [x])).
    rewrite pop_snoc. cbn. auto.
  - rewrite split_app_sep, (split_no_sep LF k Hk), pop_snoc. cbn [fst snd nullish].
    rewrite <- app_assoc. cbn [app]. rewrite split_app_sep.
    rewrite pop_app by apply split_nonempty. auto.
Qed.

Lemma kept_no_LF (x : jsstring) : ~ In LF (kept x).
Proof.
  unfold kept. destruct (last_LF x) as [Hx | (s & k & -> & Hk)].
  - rewrite (split_no_sep LF x Hx). change (pop [x]) with (pop ([] ++ [x])).
    rewrite pop_snoc. exact Hx.
  - rewrite split_app_sep, (split_no_sep LF k Hk), pop_snoc. exact Hk.
Qed.

Lemma complete_lines_no_LF (x : jsstring) : ~ In LF x -> complete_lines x = [].
Proof.
  intros Hx. unfold complete_lines. rewrite (split_no_sep LF x Hx).
  change (pop [x]) with (pop ([] ++ [x])). rewrite pop_snoc. reflexivity.
Qed.

(** The successive batches are the complete lines of the whole stream. *)
Lemma batches_concat (values : list jsstring) :
  forall buf,
    ~ In LF buf ->
    List.concat (batches buf values)
    = complete_lines (buf ++ List.concat values).
Proof.
  induction values as [|v more IH]; intros buf Hb; cbn [batches List.concat].
  - rewrite app_nil_r. symmetry. apply complete_lines_no_LF. exact Hb.
  - rewrite IH by apply kept_no_LF.
    rewrite app_assoc. symmetry. apply complete_lines_app.
Qed.

Lemma stream_text_batches (values : list jsstring) :
  forall buf,
    stream_text rt buf values
    = List.concat (map (batch_text rt) (batches buf values)).
Proof.
  induction values as [|v more IH]; intros buf;
    cbn [stream_text batches map List.concat]; [reflexivity|].
  rewrite IH. reflexivity.
Qed.

Lemma batch_text_app (l1 l2 : list jsstring) :
  (forall d, In d l1 -> is_done_line d = false) ->
  batch_text rt (l1 ++ l2) = batch_text rt l1 ++ batch_text rt l2.
Proof.
  induction l1 as [|l l1 IH]; intros H; cbn [batch_text app]; [reflexivity|].
  rewrite (H l) by (left; reflexivity).
  rewrite IH by (intros d Hd; apply H; right; exact Hd).
  rewrite app_assoc. reflexivity.
Qed.

Lemma batch_text_concat (bs : list (list jsstring)) :
  done_only_last (List.concat bs) ->
  List.concat (map (batch_text rt) bs) = batch_text rt (List.concat bs).
Proof.
  induction bs as [|b bs IH]; intros H; cbn [map List.concat]; [reflexivity|].
  destruct (List.concat bs) as [|x rest] eqn:E.
  - assert (Hnil : List.concat (map (batch_text rt) bs) = []).
    { clear IH H. induction bs as [|c bs IH]; [reflexivity|].
      cbn [List.concat] in E. apply app_eq_nil in E as [-> E].
      cbn [map List.concat batch_text app]. auto. }
    rewrite Hnil, !app_nil_r. reflexivity.
  - rewrite batch_text_app.
    + f_equal. rewrite <- E in *. apply IH.
      intros l1 d l2 Hc Hl2. apply (H (b ++ l1) d l2); [|exact Hl2].
      cbn [List.concat]. rewrite Hc, app_assoc. reflexivity.
    + intros d Hd. apply in_split in Hd as (l1 & l2 & ->).
      apply (H l1 d (l2 ++ x :: rest)).
      * cbn [List.concat]. rewrite E, <- app_assoc. reflexivity.
      * intros C. apply app_eq_nil in C as [_ C]. discriminate.
Qed.

(** When no line but the last complete one is the terminator, the text
    streamed is that of the lines of the whole stream up to the
    terminator, however the stream was cut into reads. *)
Lemma stream_text_terminated (values : list jsstring) :
  done_only_last (complete_lines (List.concat values)) ->
  stream_text rt [] values
  = batch_text rt (complete_lines (List.concat values)).
Proof.
  intros H. rewrite stream_text_batches.
  assert (E : List.concat (batches [] values)
              = complete_lines (List.concat values))
    by (apply batches_concat; intros []).
  rewrite <- E in *. apply batch_text_concat. exact H.
Qed.

End TerminatedStreams.

(** ** Streams of lines that are each consumed in a known way *)

Section ConsumedLines.

Variable rt : Runtime.




End ConsumedLines.

(* ================================================================== *)
(** ** Claims about the stream consumer and the exchanges *)
(* ================================================================== *)

(** C1 (evaluation at the diverging input).  The server answers with two
    reads, the first carrying the line [data: [DONE]] and the second a
    token event: [break] has left the [for] loop of the first read only,
    the [while] loop goes on, and the token that arrives after the
    terminator is appended to the assistant message (and persisted). *)
Theorem sendMessage_appends_after_DONE :
  exists st' effs,
    sendMessage Sample.runtime Examples.props None
      (Examples.body [Examples.done_line ++ [LF];
                      Examples.token_line "x" ++ [LF]])
      None Examples.typed
    = Some (tt, st', effs)
    /\ messages st' =
       Examples.earlier ++
       [{| role := user; content := lit "hi" |};
        {| role := assistant; content := lit "x" |}]
    /\ saved effs =
       [(lit "s1",
         Examples.earlier ++
         [{| role := user; content := lit "hi" |};
          {| role := assistant; content := lit "x" |}])].
Proof.
  eexists; eexists. split; [vm_compute; reflexivity|].
  split; vm_compute; reflexivity.
Qed.




(** C5.  When the stream of an exchange fails (the request is rejected,
    the response is not ok or has no body, or a [read()] rejects, possibly
    after tokens were shown), the exchange still terminates; the messages
    that preceded it are unchanged, its assistant slot holds the error
    message in place of whatever was streamed, the component is no longer
    loading, the library is untouched and nothing is persisted. *)
Theorem failed_exchange_shows_error (rt : Runtime) (props : Props)
    (reply : FetchOutcome) :
  failed reply = true ->
  (forall overrideText sug st,
      can_send overrideText st = true ->
      exists st' effs,
        sendMessage rt props overrideText reply sug st = Some (tt, st', effs)
        /\ messages st' =
           messages st ++
           [{| role := user;
               content := trim (nullish overrideText (input st)) |};
            {| role := assistant;
               content := lit "Error: Could not reach the server." |}]
        /\ loading st' = false
        /\ pdfLibrary st' = pdfLibrary st
        /\ saved effs = [])
  /\
  (forall filename lang st,
      can_translate st = true ->
      exists st' effs,
        handleTranslate rt props filename lang reply st = Some (tt, st', effs)
        /\ messages st' =
           messages st ++
           [translate_request filename lang;
            {| role := assistant;
               content := lit "Error: Translation failed. Please try again." |}]
        /\ loading st' = false
        /\ pdfLibrary st' = pdfLibrary st
        /\ saved effs = []).
Proof.
  intros F. split.
  - intros ov sug st G.
    destruct (sendMessage_run rt props ov reply sug st G)
      as (st' & effs & E & Hm & Hl & Hp & Hs).
    rewrite F in Hm, Hs. exists st', effs. auto.
  - intros f l st G.
    destruct (handleTranslate_run rt props f l reply st G)
      as (st' & effs & E & Hm & Hl & Ht & Hp & Hs).
    rewrite F in Hm, Hs. exists st', effs. auto.
Qed.

Lemma failed_exchange_shows_error_witness :
  exists st' effs,
    sendMessage Sample.runtime Examples.props None
      (Examples.cut_body [Examples.token_line "partial" ++ [LF]])
      None Examples.typed
    = Some (tt, st', effs)
    /\ messages st' =
       messages Examples.typed ++
       [{| role := user;
           content := trim (nullish None (input Examples.typed)) |};
        {| role := assistant;
           content := lit "Error: Could not reach the server." |}]
    /\ loading st' = false
    /\ pdfLibrary st' = pdfLibrary Examples.typed
    /\ saved effs = [].
Proof.
  assert (F : failed (Examples.cut_body
                        [Examples.token_line "partial" ++ [LF]]) = true)
    by reflexivity.
  destruct (failed_exchange_shows_error Sample.runtime Examples.props _ F)
    as [H _].
  apply H. vm_compute. reflexivity.
Defined.

Lemma nonblank_nonempty (s : jsstring) : nonempty (trim s) = true -> s <> [].
Proof. intros H ->. discriminate H. Qed.

(** The shape shared by the two cases of C6: what was saved, given what
    the exchange streamed. *)
Lemma saved_only_complete (props : Props) (reply : FetchOutcome)
    (text : jsstring) (final after : list Message)
    (l : list (jsstring * list Message)) :
  l = (if negb (failed reply) && nonempty (trim text)
          && has_onSaveSession props
       then [(sessionId props, final)] else []) ->
  (failed reply = false -> after = final) ->
  (forall sid msgs,
      In (sid, msgs) l ->
      failed reply = false /\ text <> [] /\ sid = sessionId props
      /\ msgs = final /\ msgs = after)
  /\ (failed reply = true \/ text = [] -> l = []).
Proof.
  intros -> Hafter. split.
  - intros sid msgs Hin.
    destruct (failed reply); [contradiction|].
    destruct (nonempty (trim text)) eqn:Hn; [|contradiction].
    destruct (has_onSaveSession props); [|contradiction].
    destruct Hin as [Hin|[]]. injection Hin as <- <-.
    repeat split; auto using nonblank_nonempty.
    symmetry; auto.
  - intros [F | ->]; [rewrite F; reflexivity|].
    destruct (failed reply); reflexivity.
Qed.

(** C6.  An exchange (chat or translate) calls [onSaveSession] at most
    once, and only when its stream did not fail and the answer is not
    empty (indeed not blank); what it hands over is the messages from
    before the exchange followed by the user turn and the whole streamed
    answer, which is also what the component then shows.  After a failed
    or empty exchange nothing is handed over, and a call refused by the
    guard of the handler changes and emits nothing. *)
Theorem session_saved_only_when_complete (rt : Runtime) (props : Props)
    (reply : FetchOutcome) :
  (forall overrideText sug st,
      can_send overrideText st = true ->
      exists st' effs,
        sendMessage rt props overrideText reply sug st = Some (tt, st', effs)
        /\
        let final :=
          messages st ++
          [{| role := user;
              content := trim (nullish overrideText (input st)) |};
           {| role := assistant; content := streamed rt reply |}] in
        saved effs =
          (if negb (failed reply) && nonempty (trim (streamed rt reply))
              && has_onSaveSession props
           then [(sessionId props, final)] else [])
        /\ (forall sid msgs,
              In (sid, msgs) (saved effs) ->
              failed reply = false /\ streamed rt reply <> []
              /\ sid = sessionId props /\ msgs = final
              /\ msgs = messages st')
        /\ (failed reply = true \/ streamed rt reply = [] -> saved effs = []))
  /\
  (forall filename lang st,
      can_translate st = true ->
      exists st' effs,
        handleTranslate rt props filename lang reply st = Some (tt, st', effs)
        /\
        let final :=
          messages st ++
          [translate_request filename lang;
           {| role := assistant; content := streamed rt reply |}] in
        saved effs =
          (if negb (failed reply) && nonempty (trim (streamed rt reply))
              && has_onSaveSession props
           then [(sessionId props, final)] else [])
        /\ (forall sid msgs,
              In (sid, msgs) (saved effs) ->
              failed reply = false /\ streamed rt reply <> []
              /\ sid = sessionId props /\ msgs = final
              /\ msgs = messages st')
        /\ (failed reply = true \/ streamed rt reply = [] -> saved effs = []))
  /\
  (forall overrideText sug st,
      can_send overrideText st = false ->
      sendMessage rt props overrideText reply sug st = Some (tt, st, []))
  /\
  (forall filename lang st,
      can_translate st = false ->
      handleTranslate rt props filename lang reply st = Some (tt, st, [])).
Proof.
  split; [|split; [|split]].
  - intros ov sug st G.
    destruct (sendMessage_run rt props ov reply sug st G)
      as (st' & effs & E & Hm & Hl & Hp & Hs).
    exists st', effs. split; [exact E|]. cbv zeta. split; [exact Hs|].
    eapply saved_only_complete; [exact Hs|].
    intros F. rewrite F in Hm. exact Hm.
  - intros f l st G.
    destruct (handleTranslate_run rt props f l reply st G)
      as (st' & effs & E & Hm & Hl & Ht & Hp & Hs).
    exists st', effs. split; [exact E|]. cbv zeta. split; [exact Hs|].
    eapply saved_only_complete; [exact Hs|].
    intros F. rewrite F in Hm. exact Hm.
  - intros. apply sendMessage_idle. assumption.
  - intros. apply handleTranslate_idle. assumption.
Qed.

Lemma session_saved_only_when_complete_witness :
  exists st' effs,
    handleTranslate Sample.runtime Examples.props (lit "a.pdf") (lit "French")
      (Examples.body [Examples.token_line "Bonjour" ++ [LF];
                      Examples.done_line ++ [LF]])
      Examples.typed
    = Some (tt, st', effs)
    /\ saved effs =
       [(lit "s1",
         Examples.earlier ++
         [translate_request (lit "a.pdf") (lit "French");
          {| role := assistant; content := lit "Bonjour" |}])].
Proof.
  destruct (session_saved_only_when_complete Sample.runtime Examples.props
              (Examples.body [Examples.token_line "Bonjour" ++ [LF];
                              Examples.done_line ++ [LF]]))
    as (_ & H & _).
  destruct (H (lit "a.pdf") (lit "French") Examples.typed)
    as (st' & effs & E & Hs & _).
  - vm_compute. reflexivity.
  - exists st', effs. split; [exact E|]. rewrite Hs. vm_compute. reflexivity.
Defined.

(* ================================================================== *)
(** ** Claims about status polling *)
(* ================================================================== *)

Section Polling.

Variable rt : Runtime.

Lemma adopt_pending_status (n : jsstring) (st : State) :
  exists st', adopt_pending n st = Some (tt, st', [])
              /\ uploadStatus st' = uploadStatus st.
Proof.
  unfold adopt_pending, bind, current, update, ret.
  destruct (pendingUploadRef st); cbn; eexists; split; reflexivity.
Qed.

(** Closes a case of a firing once its result is computed. *)
Ltac tick_case :=
  eexists; eexists; eexists; (split; [reflexivity|]); cbn;
  (split; [reflexivity|]); auto 10.

Lemma upload_poll_ok : tick_ok (upload_poll rt).
Proof.
  intros r p st. unfold upload_poll, MAX_POLLS.
  destruct (30 <=? S (pollCount p))%nat eqn:L.
  - apply Nat.leb_le in L. unfold bind, update, ret.
    destruct (adopt_pending_status (poll_filename p)
                (with_uploadStatus success st)) as (st' & -> & Hu).
    eexists; eexists; eexists. split; [reflexivity|]. cbn.
    rewrite Hu. cbn. auto 10.
  - apply Nat.leb_gt in L.
    destruct (encodeURIComponent rt (poll_filename p)).
    2: { unfold ret. tick_case. }
    unfold bind, emit, update, ret.
    destruct r as [| |status]; try tick_case.
    cbn [reports_end].
    destruct (str_eqb status (lit "done")) eqn:Hd.
    + destruct (adopt_pending_status (poll_filename p)
                  (with_uploadStatus success st)) as (st' & -> & Hu).
      eexists; eexists; eexists. split; [reflexivity|]. cbn.
      rewrite Hu. cbn. auto 10.
    + destruct (str_eqb status (lit "error")) eqn:He; tick_case.
Qed.

Lemma merge_poll_ok : tick_ok (merge_poll rt).
Proof.
  intros r p st. unfold merge_poll.
  destruct (30 <=? S (pollCount p))%nat eqn:L.
  - apply Nat.leb_le in L. unfold bind, update, ret. tick_case.
  - apply Nat.leb_gt in L.
    destruct (encodeURIComponent rt (poll_filename p)).
    2: { unfold ret. tick_case. }
    unfold bind, emit, update, ret.
    destruct r as [| |status]; try tick_case.
    cbn [reports_end].
    destruct (str_eqb status (lit "done")) eqn:Hd;
      [|destruct (str_eqb status (lit "error")) eqn:He]; tick_case.
Qed.

Section OneInterval.

Variable tick : StatusReply -> Poll -> M Poll.
Hypothesis tick_spec : tick_ok tick.

(** An interval that is given enough firings to reach its thirtieth is
    cleared and leaves a settled status; if no reply before the thirtieth
    firing ended the polling, it is the thirtieth firing that does, and
    the status it leaves is [success]. *)
Lemma run_poll_settles (replies : list StatusReply) :
  forall (p : Poll) (st : State),
    cleared p = false ->
    (30 <= pollCount p + List.length replies)%nat ->
    (pollCount p < 30)%nat ->
    exists p' st' e,
      run_poll tick replies p st = Some (p', st', e)
      /\ cleared p' = true
      /\ settled (uploadStatus st') = true
      /\ (forallb (fun r => negb (reports_end r))
                  (firstn (29 - pollCount p) replies) = true ->
          uploadStatus st' = success /\ pollCount p' = 30%nat).
Proof.
  induction replies as [|r more IH]; intros p st Hc Hlen Hlt.
  - cbn in Hlen. lia.
  - cbn [run_poll]. rewrite Hc. unfold bind.
    destruct (tick_spec r p st) as (p1 & st1 & e1 & -> & Hn & Hcases).
    destruct Hcases as [(Hc1 & Hs1 & Hwhy) | (Hc1 & Hu1 & Hlt1)].
    + (* this firing cleared the interval *)
      assert (R : run_poll tick more p1 st1 = Some (p1, st1, [])).
      { destruct more; cbn [run_poll]; [reflexivity|]. rewrite Hc1.
        reflexivity. }
      rewrite R. eexists; eexists; eexists. split; [reflexivity|].
      split; [exact Hc1|]. split; [exact Hs1|].
      intros Hall. destruct Hwhy as [[Hge Hsucc] | [Hlt1 Hend]].
      * split; [exact Hsucc|]. lia.
      * exfalso. destruct (29 - pollCount p)%nat eqn:E; [lia|].
        cbn [firstn forallb] in Hall. rewrite Hend in Hall. discriminate.
    + (* the polling goes on *)
      cbn [List.length] in Hlen.
      destruct (IH p1 st1 Hc1 ltac:(lia) Hlt1)
        as (p' & st' & e & -> & Hc' & Hs' & Hall').
      eexists; eexists; eexists. split; [reflexivity|].
      split; [exact Hc'|]. split; [exact Hs'|].
      intros Hall. apply Hall'.
      destruct (29 - pollCount p)%nat eqn:E; [lia|].
      cbn [firstn forallb] in Hall. apply andb_true_iff in Hall as [_ Hall].
      replace (29 - pollCount p1)%nat with n by lia. exact Hall.
Qed.

End OneInterval.

(** What [adopt_pending] leaves: with a pending upload, the library
    without the entries of that name and the pending file last, the
    library panel open and no pending upload; without one, nothing. *)
Lemma adopt_pending_run (n : jsstring) (st : State) :
  adopt_pending n st =
  Some (tt,
        match pendingUploadRef st with
        | Some pending =>
            with_pendingUploadRef None
              (with_showPdfLibrary true
                 (with_pdfLibrary
                    (without_name n (pdfLibrary st) ++
                     [{| name := n;
                         displayName := pending_displayName pending;
                         objectUrl := pending_objectUrl pending |}]) st))
        | None => st
        end, []).
Proof.
  unfold adopt_pending, bind, current, update, ret.
  destruct (pendingUploadRef st); reflexivity.
Qed.

(** A firing before the thirtieth whose reply does not end the polling
    leaves the component as it is. *)
Lemma upload_poll_idle (r : StatusReply) (p : Poll) (st : State) :
  (S (pollCount p) < 30)%nat -> reports_end r = false ->
  exists e,
    upload_poll rt r p st =
    Some ({| poll_filename := poll_filename p; pollCount := S (pollCount p);
             cleared := false |}, st, e).
Proof.
  intros Hlt Hr. unfold upload_poll, MAX_POLLS.
  apply Nat.leb_gt in Hlt. rewrite Hlt.
  destruct (encodeURIComponent rt (poll_filename p));
    [|eexists; reflexivity].
  unfold bind, emit, update, ret.
  destruct r as [| |status]; try (eexists; reflexivity).
  cbn [reports_end] in Hr. apply orb_false_iff in Hr as [-> ->].
  eexists; reflexivity.
Qed.

Lemma merge_poll_idle (r : StatusReply) (p : Poll) (st : State) :
  (S (pollCount p) < 30)%nat -> reports_end r = false ->
  exists e,
    merge_poll rt r p st =
    Some ({| poll_filename := poll_filename p; pollCount := S (pollCount p);
             cleared := false |}, st, e).
Proof.
  intros Hlt Hr. unfold merge_poll.
  apply Nat.leb_gt in Hlt. rewrite Hlt.
  destruct (encodeURIComponent rt (poll_filename p));
    [|eexists; reflexivity].
  unfold bind, emit, update, ret.
  destruct r as [| |status]; try (eexists; reflexivity).
  cbn [reports_end] in Hr. apply orb_false_iff in Hr as [-> ->].
  eexists; reflexivity.
Qed.

(** The thirtieth firing of the interval of an upload. *)
Lemma upload_poll_timeout (r : StatusReply) (p : Poll) (st : State) :
  (30 <= S (pollCount p))%nat ->
  upload_poll rt r p st =
  Some ({| poll_filename := poll_filename p; pollCount := S (pollCount p);
           cleared := true |},
        match pendingUploadRef st with
        | Some pending =>
            with_pendingUploadRef None
              (with_showPdfLibrary true
                 (with_pdfLibrary
                    (without_name (poll_filename p) (pdfLibrary st) ++
                     [{| name := poll_filename p;
                         displayName := pending_displayName pending;
                         objectUrl := pending_objectUrl pending |}])
                    (with_uploadStatus success st)))
        | None => with_uploadStatus success st
        end, []).
Proof.
  intros Hge. unfold upload_poll, MAX_POLLS.
  apply Nat.leb_le in Hge. rewrite Hge.
  unfold bind, update, ret. rewrite adopt_pending_run.
  destruct st; reflexivity.
Qed.

(** The thirtieth firing of the interval of a merge. *)
Lemma merge_poll_timeout (r : StatusReply) (p : Poll) (st : State) :
  (30 <= S (pollCount p))%nat ->
  merge_poll rt r p st =
  Some ({| poll_filename := poll_filename p; pollCount := S (pollCount p);
           cleared := true |}, with_uploadStatus success st, []).
Proof.
  intros Hge. unfold merge_poll.
  apply Nat.leb_le in Hge. rewrite Hge. reflexivity.
Qed.

Section Exhausted.

Variable tick : StatusReply -> Poll -> M Poll.
Variable final : jsstring -> State -> State.

Hypothesis tick_idle :
  forall r p st,
    (S (pollCount p) < 30)%nat -> reports_end r = false ->
    exists e,
      tick r p st =
      Some ({| poll_filename := poll_filename p; pollCount := S (pollCount p);
               cleared := false |}, st, e).

Hypothesis tick_timeout :
  forall r p st,
    (30 <= S (pollCount p))%nat ->
    tick r p st =
    Some ({| poll_filename := poll_filename p; pollCount := S (pollCount p);
             cleared := true |}, final (poll_filename p) st, []).

(** When no reply before the thirtieth firing ends the polling, the
    component is untouched until that firing, which leaves [final]. *)
Lemma run_poll_exhausted (replies : list StatusReply) :
  forall (p : Poll) (st : State),
    cleared p = false ->
    (pollCount p < 30)%nat ->
    (30 <= pollCount p + List.length replies)%nat ->
    forallb (fun r => negb (reports_end r))
            (firstn (29 - pollCount p) replies) = true ->
    exists p' e,
      run_poll tick replies p st
      = Some (p', final (poll_filename p) st, e).
Proof.
  induction replies as [|r more IH]; intros p st Hc Hlt Hlen Hall.
  - cbn in Hlen. lia.
  - cbn [run_poll]. rewrite Hc. unfold bind.
    destruct (Nat.eq_dec (pollCount p) 29) as [E | NE].
    + rewrite tick_timeout by lia.
      assert (R : forall q s, cleared q = true ->
                  run_poll tick more q s = Some (q, s, [])).
      { intros q s Hq. destruct more; cbn [run_poll]; [reflexivity|].
        rewrite Hq. reflexivity. }
      rewrite R by reflexivity. eexists; eexists; reflexivity.
    + destruct (29 - pollCount p)%nat as [|n] eqn:En; [lia|].
      cbn [firstn forallb] in Hall. apply andb_true_iff in Hall as [Hr Hall].
      apply negb_true_iff in Hr.
      destruct (tick_idle r p st ltac:(lia) Hr) as [e1 ->].
      cbn [List.length] in Hlen.
      edestruct (IH {| poll_filename := poll_filename p;
                       pollCount := S (pollCount p); cleared := false |} st)
        as (p' & e & ->); cbn [pollCount cleared poll_filename];
        try reflexivity; try lia.
      * replace (29 - S (pollCount p))%nat with n by lia. exact Hall.
      * eexists; eexists; reflexivity.
Qed.

End Exhausted.

End Polling.

(** C3 (as stated, at a concrete input).  An upload is accepted, the
    status is [embedding], and the server answers a non-final status to
    every poll: the thirtieth firing clears the interval and the status
    becomes [success], not [error]; the pending file joins the library. *)
Lemma exhausted_polling_reports_success :
  exists p st e,
    Examples.upload_doc (initial_state []) = Some (Some p, st, e)
    /\ uploadStatus st = embedding
    /\ forallb (fun r => negb (reports_end r)) Examples.stuck = true
    /\ exists p' st' e',
        run_poll (upload_poll Sample.runtime) Examples.stuck p st
        = Some (p', st', e')
        /\ cleared p' = true
        /\ uploadStatus st' = success
        /\ uploadStatus st' <> error
        /\ names (pdfLibrary st') = [lit "doc.pdf"].
Proof.
  eexists; eexists; eexists. split; [vm_compute; reflexivity|].
  split; [reflexivity|]. split; [vm_compute; reflexivity|].
  eexists; eexists; eexists. split; [vm_compute; reflexivity|].
  split; [reflexivity|]. split; [reflexivity|]. split; [discriminate|].
  vm_compute. reflexivity.
Qed.

(** C3 (amended).  Whatever the server answers, an interval started by an
    upload or by a merge and given its thirty firings is cleared and the
    status is then [success] or [error], never [embedding]; when no reply
    before the thirtieth firing reports ['done'] or ['error'], the budget
    is exhausted and the status is [success]: the client assumes the
    embedding is done.  The component is then otherwise as it was when
    the interval started, but for an upload the pending file has been
    moved into the library: the entries of its name are gone, it stands
    last, the library panel is open and no upload is pending any more. *)
Theorem exhausted_polling_settles (rt : Runtime) (replies : list StatusReply)
    (filename : jsstring) (st : State) :
  (30 <= List.length replies)%nat ->
  let p := {| poll_filename := filename; pollCount := 0; cleared := false |} in
  (exists p' st' e,
      run_poll (upload_poll rt) replies p st = Some (p', st', e)
      /\ cleared p' = true
      /\ settled (uploadStatus st') = true
      /\ uploadStatus st' <> embedding
      /\ (forallb (fun r => negb (reports_end r)) (firstn 29 replies) = true ->
          uploadStatus st' = success /\ pollCount p' = MAX_POLLS
          /\ st' =
             match pendingUploadRef st with
             | Some pending =>
                 with_pendingUploadRef None
                   (with_showPdfLibrary true
                      (with_pdfLibrary
                         (without_name filename (pdfLibrary st) ++
                          [{| name := filename;
                              displayName := pending_displayName pending;
                              objectUrl := pending_objectUrl pending |}])
                         (with_uploadStatus success st)))
             | None => with_uploadStatus success st
             end
          /\ forall pending,
               pendingUploadRef st = Some pending ->
               pdfLibrary st' =
               without_name filename (pdfLibrary st) ++
               [{| name := filename;
                   displayName := pending_displayName pending;
                   objectUrl := pending_objectUrl pending |}]
               /\ pendingUploadRef st' = None))
  /\
  (exists p' st' e,
      run_poll (merge_poll rt) replies p st = Some (p', st', e)
      /\ cleared p' = true
      /\ settled (uploadStatus st') = true
      /\ uploadStatus st' <> embedding
      /\ (forallb (fun r => negb (reports_end r)) (firstn 29 replies) = true ->
          uploadStatus st' = success /\ pollCount p' = 30%nat
          /\ st' = with_uploadStatus success st)).
Proof.
  intros Hlen p.
  assert (Hc0 : cleared p = false) by reflexivity.
  assert (Hlen0 : (30 <= pollCount p + List.length replies)%nat)
    by (cbn; lia).
  assert (Hlt0 : (pollCount p < 30)%nat) by (cbn; lia).
  split.
  - destruct (run_poll_settles (upload_poll_ok rt) replies p st Hc0 Hlen0 Hlt0)
      as (p' & st' & e & E & Hc & Hs & Hall).
    exists p', st', e. split; [exact E|]. split; [exact Hc|].
    split; [exact Hs|]. split.
    + intros C. rewrite C in Hs. discriminate.
    + intros Hstuck. destruct (Hall Hstuck) as [Hu Hn].
      split; [exact Hu|]. split; [exact Hn|].
      destruct (@run_poll_exhausted (upload_poll rt)
                  (fun n s =>
                     match pendingUploadRef s with
                     | Some pending =>
                         with_pendingUploadRef None
                           (with_showPdfLibrary true
                              (with_pdfLibrary
                                 (without_name n (pdfLibrary s) ++
                                  [{| name := n;
                                      displayName :=
                                        pending_displayName pending;
                                      objectUrl :=
                                        pending_objectUrl pending |}])
                                 (with_uploadStatus success s)))
                     | None => with_uploadStatus success s
                     end)
                  (upload_poll_idle rt) (upload_poll_timeout rt)
                  replies p st Hc0 Hlt0 Hlen0 Hstuck) as (p2 & e2 & E2).
      rewrite E in E2. injection E2 as _ -> _. cbn [poll_filename p].
      split; [reflexivity|].
      intros pending Hp. rewrite Hp. destruct st; split; reflexivity.
  - destruct (run_poll_settles (merge_poll_ok rt) replies p st Hc0 Hlen0 Hlt0)
      as (p' & st' & e & E & Hc & Hs & Hall).
    exists p', st', e. split; [exact E|]. split; [exact Hc|].
    split; [exact Hs|]. split.
    + intros C. rewrite C in Hs. discriminate.
    + intros Hstuck. destruct (Hall Hstuck) as [Hu Hn].
      split; [exact Hu|]. split; [exact Hn|].
      destruct (@run_poll_exhausted (merge_poll rt)
                  (fun _ s => with_uploadStatus success s)
                  (merge_poll_idle rt) (merge_poll_timeout rt)
                  replies p st Hc0 Hlt0 Hlen0 Hstuck) as (p2 & e2 & E2).
      rewrite E in E2. injection E2 as _ -> _. reflexivity.
Qed.

Lemma exhausted_polling_settles_witness :
  exists p' st' e,
    run_poll (upload_poll Sample.runtime) Examples.stuck Examples.doc_poll
             Examples.uploading
    = Some (p', st', e)
    /\ cleared p' = true
    /\ uploadStatus st' = success
    /\ names (pdfLibrary st') = [lit "doc.pdf"]
    /\ pendingUploadRef st' = None.
Proof.
  assert (L : (30 <= List.length Examples.stuck)%nat) by (vm_compute; lia).
  destruct (exhausted_polling_settles Sample.runtime Examples.stuck
              (lit "doc.pdf") Examples.uploading L)
    as [(p' & st' & e & E & Hc & _ & _ & Hall) _].
  destruct Hall as (Hs & _ & _ & Hlib); [vm_compute; reflexivity|].
  destruct (Hlib {| pending_displayName := lit "doc.pdf";
                    pending_objectUrl := lit "blob:1" |})
    as [Hl Hp]; [vm_compute; reflexivity|].
  exists p', st', e. split; [exact E|]. split; [exact Hc|].
  split; [exact Hs|]. split; [|exact Hp].
  rewrite Hl. vm_compute. reflexivity.
Defined.

(* ================================================================== *)
(** ** Claims about the PDF library *)
(* ================================================================== *)

(** The run of [handleMerge] past its guard. *)
Lemma handleMerge_run (rt : Runtime) (now : jsstring) (reply : MergeReply)
    (st : State) :
  (2 <= List.length (mergeSelected st))%nat -> mergeLoading st = false ->
  let outName :=
    if nonempty (trim (mergeName st)) then trim (mergeName st)
    else lit "merged_" ++ now in
  exists r st' effs,
    handleMerge rt now reply st = Some (r, st', effs)
    /\ requests effs = [POST_pdf_merge (mergeSelected st) outName]
    /\ mergeLoading st' = false
    /\ match reply with
       | MergeOk serverName =>
           match encodeURIComponent rt serverName with
           | Some enc =>
               pdfLibrary st' =
               without_name serverName (pdfLibrary st) ++
               [{| name := serverName; displayName := serverName;
                   objectUrl := lit "http://localhost:8000/pdf/download/"
                                ++ enc |}]
               /\ mergeSelected st' = []
               /\ mergeName st' = []
               /\ uploadStatus st' = embedding
               /\ r = Some {| poll_filename := serverName; pollCount := 0;
                              cleared := false |}
           | None => pdfLibrary st' = pdfLibrary st /\ r = None
           end
       | _ => pdfLibrary st' = pdfLibrary st
              /\ mergeSelected st' = mergeSelected st /\ r = None
       end.
Proof.
  intros H2 Hl outName. unfold handleMerge, bind, rendered.
  apply Nat.ltb_ge in H2. rewrite H2, Hl. cbn [orb].
  unfold update, emit, ret.
  destruct reply as [| |serverName]; cbn;
    try (eexists; eexists; eexists; repeat split; reflexivity).
  destruct (encodeURIComponent rt serverName); cbn;
    eexists; eexists; eexists; repeat split; reflexivity.
Qed.

(** C4.  With fewer than two documents selected, [handleMerge] (and
    [handleMergeClick] of the library panel) returns at its guard: the
    state is unchanged and nothing is emitted, in particular no merge
    request.  Conversely, whenever a run emits a merge request (or calls
    [onMerge]), at least two names were selected, and the request carries
    exactly the selection. *)
Theorem merge_needs_two_documents (rt : Runtime) :
  (forall now reply st,
      (List.length (mergeSelected st) < 2)%nat ->
      handleMerge rt now reply st = Some (None, st, []))
  /\
  (forall now reply st r st' effs,
      handleMerge rt now reply st = Some (r, st', effs) ->
      existsb is_merge_request (requests effs) = true ->
      (2 <= List.length (mergeSelected st))%nat
      /\ exists outName,
          requests effs = [POST_pdf_merge (mergeSelected st) outName])
  /\
  (forall mergeLoading now s,
      (List.length (PDFLibraryPanel.mergeSelected s) < 2)%nat ->
      PDFLibraryPanel.handleMergeClick mergeLoading now s = (s, []))
  /\
  (forall mergeLoading now s s' calls filenames outName,
      PDFLibraryPanel.handleMergeClick mergeLoading now s = (s', calls) ->
      In (PDFLibraryPanel.onMerge filenames outName) calls ->
      (2 <= List.length filenames)%nat
      /\ filenames = PDFLibraryPanel.mergeSelected s).
Proof.
  split; [|split; [|split]].
  - intros now reply st H. unfold handleMerge, bind, rendered.
    apply Nat.ltb_lt in H. rewrite H. reflexivity.
  - intros now reply st r st' effs E Hreq.
    destruct (List.length (mergeSelected st) <? 2)%nat eqn:L.
    + unfold handleMerge, bind, rendered in E. rewrite L in E.
      cbn in E. injection E as <- <- <-. discriminate Hreq.
    + apply Nat.ltb_ge in L. destruct (mergeLoading st) eqn:Hl.
      * unfold handleMerge, bind, rendered in E. rewrite Hl, orb_true_r in E.
        cbn in E. injection E as <- <- <-. discriminate Hreq.
      * destruct (handleMerge_run rt now reply st L Hl)
          as (r' & st1 & effs' & E' & Hr & _).
        rewrite E in E'. injection E' as <- <- <-.
        split; [exact L|]. eexists. exact Hr.
  - intros ml now s H. unfold PDFLibraryPanel.handleMergeClick.
    apply Nat.ltb_lt in H. rewrite H. reflexivity.
  - intros ml now s s' calls filenames outName E Hin.
    unfold PDFLibraryPanel.handleMergeClick in E.
    destruct (List.length (PDFLibraryPanel.mergeSelected s) <? 2)%nat eqn:L;
      cbn [orb] in E.
    + injection E as <- <-. contradiction.
    + destruct ml; injection E as <- <-; [contradiction|].
      destruct Hin as [Hin|[]]. injection Hin as <- _.
      apply Nat.ltb_ge in L. auto.
Qed.

Lemma merge_needs_two_documents_witness :
  handleMerge Sample.runtime (lit "1700000000000")
              (MergeOk (lit "merged.pdf")) Examples.one_selected
  = Some (None, Examples.one_selected, []).
Proof.
  destruct (merge_needs_two_documents Sample.runtime) as [H _].
  apply H. vm_compute. lia.
Defined.

Lemma without_name_absent (n : jsstring) (l : list PdfEntry) :
  ~ In n (names l) -> without_name n l = l.
Proof.
  unfold without_name.
  induction l as [|a l IH]; cbn; intros H; [reflexivity|].
  destruct (str_eqb (name a) n) eqn:E.
  - apply str_eqb_spec in E. exfalso. auto.
  - cbn. rewrite IH by tauto. reflexivity.
Qed.

Lemma without_name_gone (n : jsstring) (l : list PdfEntry) :
  ~ In n (names (without_name n l)).
Proof.
  unfold names, without_name. rewrite in_map_iff.
  intros (e & He & Hin). apply filter_In in Hin as [_ Hin].
  rewrite <- He, str_eqb_refl in Hin. discriminate.
Qed.

Lemma without_gone (n : jsstring) (l : list jsstring) : ~ In n (without n l).
Proof.
  unfold without. intros Hin. apply filter_In in Hin as [_ Hin].
  rewrite str_eqb_refl in Hin. discriminate.
Qed.

Lemma without_absent (n : jsstring) (l : list jsstring) :
  ~ In n l -> without n l = l.
Proof.
  unfold without.
  induction l as [|a l IH]; cbn; intros H; [reflexivity|].
  destruct (str_eqb a n) eqn:E.
  - apply str_eqb_spec in E. exfalso. auto.
  - cbn. rewrite IH by tauto. reflexivity.
Qed.

Lemma without_name_keeps (n : jsstring) (l : list PdfEntry) (e : PdfEntry) :
  In e l -> name e <> n -> In e (without_name n l).
Proof.
  intros Hin Hne. apply filter_In. split; [exact Hin|].
  apply str_eqb_neq in Hne. rewrite Hne. reflexivity.
Qed.

Lemma names_without_name (n : jsstring) (l : list PdfEntry) (x : jsstring) :
  In x (names (without_name n l)) -> In x (names l).
Proof.
  unfold names, without_name. rewrite !in_map_iff.
  intros (e & He & Hin). apply filter_In in Hin as [Hin _]. eauto.
Qed.

(** Removing the entries named [n] and appending one named [n] keeps the
    names distinct. *)
Lemma NoDup_names_insert (n : jsstring) (l : list PdfEntry) (e : PdfEntry) :
  name e = n -> NoDup (names l) ->
  NoDup (names (without_name n l ++ [e])).
Proof.
  intros He. induction l as [|a l IH]; intros H.
  - cbn. rewrite He. constructor; [intros []|constructor].
  - inversion H as [|x xs Hnotin Hnd]; subst.
    unfold without_name. cbn [filter].
    fold (without_name (name e) l).
    destruct (str_eqb (name a) (name e)) eqn:E; cbn [negb]; [auto|].
    cbn [app names map]. constructor; [|apply IH; exact Hnd].
    fold (names (without_name (name e) l ++ [e])).
    unfold names. rewrite map_app, in_app_iff. cbn [map In].
    intros [Hin | [Heq | []]].
    + apply Hnotin. eapply names_without_name. exact Hin.
    + apply str_eqb_neq in E. auto.
Qed.

Lemma NoDup_names_without (n : jsstring) (l : list PdfEntry) :
  NoDup (names l) -> NoDup (names (without_name n l)).
Proof.
  induction l as [|a l IH]; intros H; [constructor|].
  inversion H as [|x xs Hnotin Hnd]; subst.
  unfold without_name. cbn [filter]. fold (without_name n l).
  destruct (str_eqb (name a) n); cbn [negb]; [auto|].
  cbn [names map]. constructor; [|apply IH; exact Hnd].
  intros Hin. apply Hnotin. eapply names_without_name. exact Hin.
Qed.

Section Library.

Variable rt : Runtime.

(** [handleDeletePdf] always runs to its end: it sends the request when
    the name can be encoded, revokes the blob URL of the entry it finds,
    and leaves [after_delete]; it never alerts. *)
Lemma handleDeletePdf_run (n : jsstring) (st : State) :
  exists effs,
    handleDeletePdf rt n st = Some (tt, after_delete n st, effs)
    /\ existsb is_alert effs = false
    /\ (find_name n (pdfLibrary st) = None ->
        forall url, ~ In (RevokeObjectURL url) effs).
Proof.
  unfold handleDeletePdf, after_delete, bind, rendered, current, update,
    emit, ret, when.
  destruct (encodeURIComponent rt n); cbn;
    destruct (find_name n (pdfLibrary st)) as [entry|]; cbn;
    try destruct (startsWith (objectUrl entry) (lit "blob:")); cbn;
    destruct (match previewPdfName st with
              | Some pv => str_eqb pv n
              | None => false
              end); cbn;
    eexists; (split; [reflexivity|]); (split; [reflexivity|]);
    try (intros C; discriminate C);
    intros _ url; cbn; intuition discriminate.
Qed.

Lemma after_delete_idempotent (n : jsstring) (st : State) :
  after_delete n (after_delete n st) = after_delete n st.
Proof.
  assert (Hl : forall l, without_name n (without_name n l) = without_name n l)
    by (intros l; apply without_name_absent, without_name_gone).
  assert (Hm : forall l, without n (without n l) = without n l)
    by (intros l; apply without_absent, without_gone).
  unfold after_delete. destruct st; cbn -[without_name without].
  destruct previewPdfName0 as [pv|]; cbn -[without_name without].
  - destruct (str_eqb pv n) eqn:E; cbn -[without_name without];
      rewrite ?E, Hl, Hm; reflexivity.
  - rewrite Hl, Hm. reflexivity.
Qed.

End Library.

(** C7.  Deleting a PDF never fails on the client, whatever the server
    answers (the reply is not looked at): the handler runs to its end and
    alerts nothing.  Deleting a name that the library does not hold leaves
    the library as it is and revokes no URL; and a second deletion of the
    same name, right after the first, leaves the whole component state of
    the first in place. *)
Theorem delete_is_idempotent (rt : Runtime) (n : jsstring) (st : State) :
  exists st1 e1,
    handleDeletePdf rt n st = Some (tt, st1, e1)
    /\ existsb is_alert e1 = false
    /\ ~ In n (names (pdfLibrary st1))
    /\ (~ In n (names (pdfLibrary st)) ->
        pdfLibrary st1 = pdfLibrary st
        /\ forall url, ~ In (RevokeObjectURL url) e1)
    /\ exists e2,
        handleDeletePdf rt n st1 = Some (tt, st1, e2)
        /\ existsb is_alert e2 = false
        /\ forall url, ~ In (RevokeObjectURL url) e2.
Proof.
  destruct (handleDeletePdf_run rt n st) as (e1 & E1 & A1 & R1).
  destruct (handleDeletePdf_run rt n (after_delete n st)) as (e2 & E2 & A2 & R2).
  assert (Hlib : pdfLibrary (after_delete n st) = without_name n (pdfLibrary st)).
  { unfold after_delete. destruct (match previewPdfName st with
                                   | Some pv => str_eqb pv n
                                   | None => false
                                   end); reflexivity. }
  assert (Hfind : forall l, ~ In n (names l) -> find_name n l = None).
  { intros l Hl. unfold find_name.
    destruct (find (fun p => str_eqb (name p) n) l) as [e|] eqn:F;
      [|reflexivity].
    apply find_some in F as [Hin He]. apply str_eqb_spec in He.
    exfalso. apply Hl. unfold names. rewrite <- He. apply in_map. exact Hin. }
  exists (after_delete n st), e1. split; [exact E1|]. split; [exact A1|].
  split; [rewrite Hlib; apply without_name_gone|]. split.
  - intros Habs. split.
    + rewrite Hlib. apply without_name_absent. exact Habs.
    + apply R1. apply Hfind. exact Habs.
  - exists e2. rewrite after_delete_idempotent in E2.
    split; [exact E2|]. split; [exact A2|].
    apply R2. apply Hfind. rewrite Hlib. apply without_name_gone.
Qed.

Lemma delete_is_idempotent_witness :
  exists st1 e1,
    handleDeletePdf Sample.runtime (lit "zzz.pdf") Examples.two_selected
    = Some (tt, st1, e1)
    /\ pdfLibrary st1 = Examples.two_docs.
Proof.
  destruct (delete_is_idempotent Sample.runtime (lit "zzz.pdf")
              Examples.two_selected) as (st1 & e1 & E & _ & _ & H & _).
  exists st1, e1. split; [exact E|].
  apply H. vm_compute. intuition discriminate.
Defined.




Section LibrarySteps.

Variable rt : Runtime.
Variable props : Props.

(** [adopt_pending] after the status was set to [u]. *)
Lemma adopt_pending_library (n : jsstring) (st : State) (u : UploadStatus) :
  exists st',
    adopt_pending n (with_uploadStatus u st) = Some (tt, st', [])
    /\ pdfLibrary st' =
       match pendingUploadRef st with
       | Some pending =>
           without_name n (pdfLibrary st) ++
           [{| name := n; displayName := pending_displayName pending;
               objectUrl := pending_objectUrl pending |}]
       | None => pdfLibrary st
       end.
Proof.
  unfold adopt_pending, bind, current, update, ret. cbn.
  destruct (pendingUploadRef st); cbn; eexists; split; reflexivity.
Qed.

Lemma upload_poll_library (reply : StatusReply) (p p' : Poll)
    (st st' : State) (e : list Effect) :
  upload_poll rt reply p st = Some (p', st', e) ->
  library_change (pdfLibrary st) (pdfLibrary st').
Proof.
  destruct (adopt_pending_library (poll_filename p) st success)
    as (st1 & Ha & Hl).
  assert (Hch : library_change (pdfLibrary st) (pdfLibrary st1)).
  { rewrite Hl. destruct (pendingUploadRef st) as [pending|].
    - right. right.
      exists {| name := poll_filename p;
                displayName := pending_displayName pending;
                objectUrl := pending_objectUrl pending |}. reflexivity.
    - left. reflexivity. }
  unfold upload_poll.
  destruct (MAX_POLLS <=? S (pollCount p))%nat.
  - unfold bind, update, ret. rewrite Ha. intros E.
    injection E as <- <- <-. exact Hch.
  - destruct (encodeURIComponent rt (poll_filename p)).
    2: { unfold ret. intros E. injection E as <- <- <-. left. reflexivity. }
    unfold bind, emit, update, ret.
    destruct reply as [| |status];
      try (intros E; injection E as <- <- <-; left; reflexivity).
    destruct (str_eqb status (lit "done")).
    + rewrite Ha. intros E. injection E as <- <- <-. exact Hch.
    + destruct (str_eqb status (lit "error")); intros E;
        injection E as <- <- <-; left; reflexivity.
Qed.

Lemma merge_poll_library (reply : StatusReply) (p p' : Poll)
    (st st' : State) (e : list Effect) :
  merge_poll rt reply p st = Some (p', st', e) ->
  pdfLibrary st' = pdfLibrary st.
Proof.
  unfold merge_poll.
  destruct (30 <=? S (pollCount p))%nat.
  - unfold bind, update, ret. intros E. injection E as <- <- <-. reflexivity.
  - destruct (encodeURIComponent rt (poll_filename p)).
    2: { unfold ret. intros E. injection E as <- <- <-. reflexivity. }
    unfold bind, emit, update, ret.
    destruct reply as [| |status];
      try (intros E; injection E as <- <- <-; reflexivity).
    destruct (str_eqb status (lit "done"));
      [|destruct (str_eqb status (lit "error"))];
      intros E; injection E as <- <- <-; reflexivity.
Qed.

Lemma handleFileChange_library (file_name : option jsstring)
    (objUrl : jsstring) (reply : UploadReply) (st st' : State)
    (r : option Poll) (e : list Effect) :
  handleFileChange file_name objUrl reply st = Some (r, st', e) ->
  pdfLibrary st' = pdfLibrary st.
Proof.
  unfold handleFileChange, bind, update, emit, ret.
  destruct file_name as [fname|];
    [|intros E; injection E as <- <- <-; reflexivity].
  destruct (negb (endsWith fname (lit ".pdf")));
    [intros E; injection E as <- <- <-; reflexivity|].
  destruct reply; intros E; injection E as <- <- <-; reflexivity.
Qed.

Lemma handleMerge_library (now : jsstring) (reply : MergeReply)
    (st st' : State) (r : option Poll) (e : list Effect) :
  handleMerge rt now reply st = Some (r, st', e) ->
  library_change (pdfLibrary st) (pdfLibrary st').
Proof.
  intros E.
  destruct (List.length (mergeSelected st) <? 2)%nat eqn:L.
  - unfold handleMerge, bind, rendered in E. rewrite L in E. cbn in E.
    injection E as <- <- <-. left. reflexivity.
  - apply Nat.ltb_ge in L. destruct (mergeLoading st) eqn:Hl.
    + unfold handleMerge, bind, rendered in E. rewrite Hl, orb_true_r in E.
      cbn in E. injection E as <- <- <-. left. reflexivity.
    + destruct (handleMerge_run rt now reply st L Hl)
        as (r' & st1 & effs' & E' & _ & _ & Hcase).
      rewrite E in E'. injection E' as <- <- <-.
      destruct reply as [| |serverName];
        try (left; apply Hcase).
      destruct (encodeURIComponent rt serverName) as [enc|].
      * right. right. exists (merged_entry serverName enc). apply Hcase.
      * left. apply Hcase.
Qed.

Lemma step_library (st st' : State) :
  step rt props st st' -> library_change (pdfLibrary st) (pdfLibrary st').
Proof.
  intros H. destruct H.
  - destruct (can_send overrideText st) eqn:G.
    + destruct (sendMessage_run rt props overrideText reply sug st G)
        as (s1 & e1 & E & _ & _ & Hp & _).
      rewrite H in E. injection E as <- <-. left. exact Hp.
    + rewrite sendMessage_idle in H by exact G.
      injection H as <- <-. left. reflexivity.
  - destruct (can_translate st) eqn:G.
    + destruct (handleTranslate_run rt props filename lang reply st G)
        as (s1 & e1 & E & _ & _ & _ & Hp & _).
      rewrite H in E. injection E as <- <-. left. exact Hp.
    + rewrite handleTranslate_idle in H by exact G.
      injection H as <- <-. left. reflexivity.
  - left. eapply handleFileChange_library. exact H.
  - eapply upload_poll_library. exact H.
  - left. eapply merge_poll_library. exact H.
  - destruct (handleDeletePdf_run rt n st) as (e1 & E & _).
    rewrite H in E. injection E as -> _. right. left. exists n.
    unfold after_delete.
    destruct (match previewPdfName st with
              | Some pv => str_eqb pv n
              | None => false
              end); reflexivity.
  - eapply handleMerge_library. exact H.
  - left. auto.
Qed.

End LibrarySteps.

(** C9.  The names of the library are pairwise distinct in every state
    the component reaches; each of the three insertions (an upload whose
    embedding is reported done, an upload whose polling times out, a
    merge) leaves the library without the entries of the inserted name
    followed by the inserted entry. *)
Theorem library_names_are_distinct (rt : Runtime) (props : Props) :
  (forall st, reachable rt props st -> NoDup (names (pdfLibrary st)))
  /\
  (forall reply p st pending,
      pendingUploadRef st = Some pending ->
      cleared p = false ->
      (MAX_POLLS <= S (pollCount p))%nat
      \/ (exists enc, encodeURIComponent rt (poll_filename p) = Some enc)
         /\ reply = StatusIs (lit "done") ->
      exists p' st' e,
        upload_poll rt reply p st = Some (p', st', e)
        /\ pdfLibrary st' =
           without_name (poll_filename p) (pdfLibrary st) ++
           [{| name := poll_filename p;
               displayName := pending_displayName pending;
               objectUrl := pending_objectUrl pending |}])
  /\
  (forall now serverName enc st,
      (2 <= List.length (mergeSelected st))%nat -> mergeLoading st = false ->
      encodeURIComponent rt serverName = Some enc ->
      exists r st' e,
        handleMerge rt now (MergeOk serverName) st = Some (r, st', e)
        /\ pdfLibrary st' =
           without_name serverName (pdfLibrary st)
           ++ [merged_entry serverName enc]).
Proof.
  split; [|split].
  - intros st R. induction R as [ms | st st' _ IH Hstep].
    + constructor.
    + destruct (step_library Hstep) as [-> | [[n ->] | [e ->]]].
      * exact IH.
      * apply NoDup_names_without. exact IH.
      * apply NoDup_names_insert; [reflexivity | exact IH].
  - intros reply p st pending Hp Hc Hwhy.
    destruct (adopt_pending_library (poll_filename p) st success)
      as (st1 & Ha & Hl).
    rewrite Hp in Hl. cbn in Hl.
    unfold upload_poll. destruct Hwhy as [Hmax | [[enc Henc] ->]].
    + apply Nat.leb_le in Hmax. rewrite Hmax. unfold bind, update, ret.
      rewrite Ha. eexists; eexists; eexists. split; [reflexivity|]. exact Hl.
    + destruct (MAX_POLLS <=? S (pollCount p))%nat.
      * unfold bind, update, ret. rewrite Ha.
        eexists; eexists; eexists. split; [reflexivity|]. exact Hl.
      * rewrite Henc. unfold bind, emit, update, ret.
        rewrite str_eqb_refl, Ha.
        eexists; eexists; eexists. split; [reflexivity|]. exact Hl.
  - intros now serverName enc st H2 Hl Henc.
    destruct (handleMerge_run rt now (MergeOk serverName) st H2 Hl)
      as (r & st' & effs & E & _ & _ & Hcase).
    rewrite Henc in Hcase. destruct Hcase as (Hlib & _).
    exists r, st', effs. split; [exact E | exact Hlib].
Qed.

Lemma library_names_are_distinct_witness :
  exists p st e p' st' e',
    Examples.upload_doc (initial_state []) = Some (Some p, st, e)
    /\ upload_poll Sample.runtime (StatusIs (lit "done")) p st
       = Some (p', st', e')
    /\ names (pdfLibrary st') = [lit "doc.pdf"]
    /\ NoDup (names (pdfLibrary st')).
Proof.
  destruct (library_names_are_distinct Sample.runtime Examples.props)
    as (Hinv & _ & _).
  eexists; eexists; eexists; eexists; eexists; eexists.
  split; [vm_compute; reflexivity|].
  split; [vm_compute; reflexivity|].
  split; [vm_compute; reflexivity|].
  apply Hinv.
  eapply reachable_step.
  - eapply reachable_step.
    + apply (reachable_initial Sample.runtime Examples.props []).
    + eapply step_handleFileChange
        with (file_name := Some (lit "doc.pdf")) (objUrl := lit "blob:1")
             (reply := UploadOk (Some (lit "doc.pdf"))).
      vm_compute. reflexivity.
  - eapply step_upload_poll
      with (reply := StatusIs (lit "done")) (p := Examples.doc_poll).
    vm_compute. reflexivity.
Defined.

(* ================================================================== *)
(** ** Claims about the sessions of the shell *)
(* ================================================================== *)

Module AppShellFacts.
Import AppShell.






(** What [handleSaveSession] posts: at most one record, for the session
    it was called for, carrying the final messages it was given. *)
Lemma handleSaveSession_posts (userId sid : jsstring)
    (finalMessages : list Message) (s : State) (r : SavedSession) :
  In r (snd (handleSaveSession userId sid finalMessages s)) ->
  snd (handleSaveSession userId sid finalMessages s) = [r]
  /\ saved_session_id r = sid
  /\ saved_messages r = finalMessages
  /\ listed sid s.
Proof.
  unfold handleSaveSession, listed. cbn [snd].
  destruct (find (fun x => str_eqb (id x) sid) (sessions s)) as [x|] eqn:F;
    [|intros []].
  apply find_some in F as [Hin Hid]. apply str_eqb_spec in Hid.
  destruct (nonempty userId); [|intros []].
  intros [<- | []]. cbn. repeat split; auto.
  rewrite <- Hid. apply in_map. exact Hin.
Qed.

End AppShellFacts.



(* ================================================================== *)
(** * Further properties *)
(* ================================================================== *)

(** ** Trimming *)

Lemma trimStart_spec (s : jsstring) :
  exists p,
    s = p ++ trimStart s
    /\ forallb is_white_space p = true
    /\ (trimStart s = []
        \/ exists c r, trimStart s = c :: r /\ is_white_space c = false).
Proof.
  induction s as [|c s (p & E & Hp & Hhead)].
  - exists []. auto.
  - cbn [trimStart]. destruct (is_white_space c) eqn:W.
    + exists (c :: p). cbn [app forallb]. rewrite W, Hp, <- E. auto.
    + exists []. split; [reflexivity|]. split; [reflexivity|].
      right. eauto.
Qed.

Lemma trimStart_drops (w s : jsstring) :
  forallb is_white_space w = true -> trimStart (w ++ s) = trimStart s.
Proof.
  induction w as [|c w IH]; cbn [forallb app trimStart]; [reflexivity|].
  intros H. apply andb_true_iff in H as [-> H]. auto.
Qed.

Lemma trimStart_keeps (c : N) (s : jsstring) :
  is_white_space c = false -> trimStart (c :: s) = c :: s.
Proof. intros H. cbn [trimStart]. rewrite H. reflexivity. Qed.

Lemma forallb_rev {A} (f : A -> bool) (l : list A) :
  forallb f (rev l) = forallb f l.
Proof.
  induction l as [|a l IH]; [reflexivity|].
  cbn [rev forallb]. rewrite forallb_app, IH. cbn. rewrite andb_true_r.
  apply andb_comm.
Qed.

(** White space at the end of a string does not survive [trim], and does
    not change what [trim] returns. *)
Lemma trim_drops_end (s w : jsstring) :
  forallb is_white_space w = true -> trim (s ++ w) = trim s.
Proof.
  intros Hw. unfold trim, trimEnd.
  destruct (trimStart_spec s) as (p & E & Hp & [Hnil | (c & r & Hc & Wc)]).
  - rewrite Hnil in *. rewrite app_nil_r in E. subst p.
    rewrite trimStart_drops by exact Hp.
    destruct (trimStart_spec w) as (q & Ew & Hq & [-> | (d & r & Hd & Wd)]).
    + reflexivity.
    + exfalso. rewrite Ew, forallb_app, Hd in Hw. cbn in Hw.
      rewrite Wd in Hw. rewrite andb_false_r in Hw. discriminate.
  - rewrite E at 1. rewrite <- app_assoc, trimStart_drops by exact Hp.
    rewrite Hc. cbn [app]. rewrite trimStart_keeps by exact Wc.
    change (c :: r ++ w) with ((c :: r) ++ w).
    rewrite rev_app_distr, trimStart_drops; [reflexivity|].
    rewrite forallb_rev. exact Hw.
Qed.

Lemma trim_tight (s : jsstring) : tight s -> trim s = s.
Proof.
  intros [-> | [(c & r & E & Wc) (r' & d & E' & Wd)]]; [reflexivity|].
  unfold trim, trimEnd. rewrite E, trimStart_keeps by exact Wc.
  rewrite <- E, E', rev_unit, trimStart_keeps by exact Wd.
  rewrite <- (rev_unit r' d), rev_involutive. reflexivity.
Qed.

Lemma tight_trim (s : jsstring) : tight (trim s).
Proof.
  unfold trim, trimEnd.
  destruct (trimStart_spec s) as (p & E & Hp & [-> | (c & a & Ha & Wc)]).
  - left. reflexivity.
  - rewrite Ha.
    destruct (trimStart_spec (rev (c :: a)))
      as (q & Eq & Hq & [Hnil | (d & b & Hb & Wd)]).
    + exfalso. rewrite Hnil, app_nil_r in Eq. rewrite <- Eq in Hq.
      rewrite forallb_rev in Hq. cbn in Hq. rewrite Wc in Hq. discriminate.
    + right. rewrite Hb. split.
      * apply (f_equal (@rev N)) in Eq.
        rewrite rev_involutive, rev_app_distr, Hb in Eq.
        destruct (rev (d :: b)) as [|x y] eqn:R.
        -- apply (f_equal (@List.length N)) in R.
           rewrite length_rev in R. discriminate.
        -- cbn in Eq. injection Eq as <- _. eauto.
      * exists (rev b), d. split; [reflexivity | exact Wd].
Qed.

Lemma trim_idempotent (s : jsstring) : trim (trim s) = trim s.
Proof. apply trim_tight, tight_trim. Qed.

(** ** Further properties of the stream consumer *)

Section StreamFacts.

Variable rt : Runtime.

(** A line that the [for] loop passes over: it is not the terminator and
    adds nothing. *)
Lemma batch_text_pass (line : jsstring) (l1 l2 : list jsstring) :
  is_done_line line = false -> line_text rt line = [] ->
  batch_text rt (l1 ++ line :: l2) = batch_text rt (l1 ++ l2).
Proof.
  intros Hd Ht. induction l1 as [|l l1 IH]; cbn [batch_text app].
  - rewrite Hd, Ht. reflexivity.
  - rewrite IH. reflexivity.
Qed.

Lemma stream_text_pass (before : list jsstring) :
  forall (buf a line b : jsstring) (after : list jsstring),
    is_done_line line = false -> line_text rt line = [] -> ~ In LF line ->
    at_line_start (buf ++ List.concat before ++ a) ->
    stream_text rt buf (before ++ (a ++ line ++ LF :: b) :: after)
    = stream_text rt buf (before ++ (a ++ b) :: after).
Proof.
  induction before as [|v before IH]; intros buf a line b after Hd Ht Hb Hs;
    cbn [app List.concat stream_text] in *.
  - destruct (@read_skip buf a line b Hs Hb) as (l1 & l2 & -> & -> & ->).
    rewrite (@batch_text_pass line l1 l2 Hd Ht). reflexivity.
  - f_equal. apply IH; auto.
    apply at_line_start_kept. rewrite <- !app_assoc in *. exact Hs.
Qed.

Lemma stream_text_tail (values : list jsstring) :
  forall (buf tail : jsstring),
    ~ In LF buf -> ~ In LF tail ->
    stream_text rt buf (values ++ [tail]) = stream_text rt buf values.
Proof.
  induction values as [|v more IH]; intros buf tail Hb Ht;
    cbn [app stream_text].
  - rewrite complete_lines_no_LF; [reflexivity|].
    intros H. apply in_app_or in H. tauto.
  - f_equal. apply IH; [apply kept_no_LF | exact Ht].
Qed.

Lemma split_cons (sep c : N) (s : jsstring) :
  split sep (c :: s) =
  if c =? sep then [] :: split sep s
  else match split sep s with
       | [] => [[c]]
       | h :: t => (c :: h) :: t
       end.
Proof. reflexivity. Qed.

Lemma split_lines (x : jsstring) :
  split LF x = complete_lines x ++ [kept x].
Proof.
  unfold complete_lines, kept.
  destruct (exists_last (@split_nonempty LF x)) as (l & k & E).
  rewrite E, pop_snoc. reflexivity.
Qed.

Lemma lines_of_split (x : jsstring) (l : list jsstring) (k : jsstring) :
  split LF x = l ++ [k] -> complete_lines x = l /\ kept x = k.
Proof.
  intros E. unfold complete_lines, kept. rewrite E, pop_snoc. auto.
Qed.

Lemma split_crlf (x : jsstring) :
  split LF (crlf x)
  = map (fun l => l ++ [CR]) (complete_lines x) ++ [kept x].
Proof.
  induction x as [|c r IH]; [reflexivity|].
  cbn [crlf]. pose proof (split_lines r) as Er.
  destruct (c =? LF) eqn:Q.
  - apply N.eqb_eq in Q. subst c.
    rewrite (split_cons LF CR), (split_cons LF LF). cbn [N.eqb Pos.eqb CR LF].
    change (split 10 (crlf r)) with (split LF (crlf r)). rewrite IH.
    destruct (@lines_of_split (LF :: r) ([] :: complete_lines r) (kept r))
      as [-> ->]; [|reflexivity].
    rewrite (split_cons LF LF). cbn [N.eqb Pos.eqb LF].
    change (split 10 r) with (split LF r). rewrite Er. reflexivity.
  - rewrite (split_cons LF c), Q, IH.
    destruct (complete_lines r) as [|h t] eqn:L.
    + destruct (@lines_of_split (c :: r) [] (c :: kept r)) as [-> ->];
        [|reflexivity].
      rewrite (split_cons LF c), Q, Er. reflexivity.
    + destruct (@lines_of_split (c :: r) ((c :: h) :: t) (kept r))
        as [-> ->]; [|reflexivity].
      rewrite (split_cons LF c), Q, Er. reflexivity.
Qed.

Lemma crlf_app (x y : jsstring) : crlf (x ++ y) = crlf x ++ crlf y.
Proof.
  induction x as [|c x IH]; [reflexivity|].
  cbn [crlf app]. rewrite IH. destruct (c =? LF); reflexivity.
Qed.

Lemma crlf_no_LF (x : jsstring) : ~ In LF x -> crlf x = x.
Proof.
  induction x as [|c x IH]; [reflexivity|]. intros H. cbn [crlf].
  destruct (c =? LF) eqn:Q.
  - apply N.eqb_eq in Q. exfalso. apply H. left. auto.
  - rewrite IH; [reflexivity|]. intros Hin. apply H. right. exact Hin.
Qed.

Lemma startsWith_snoc (x : N) (p : jsstring) :
  ~ In x p -> forall s, startsWith (s ++ [x]) p = startsWith s p.
Proof.
  induction p as [|c p IH]; intros H s; [destruct s; reflexivity|].
  destruct s as [|d s].
  - change (startsWith ([] ++ [x]) (c :: p))
      with ((x =? c) && startsWith [] p).
    change (startsWith [] (c :: p)) with false.
    replace (x =? c) with false; [reflexivity|].
    symmetry. apply N.eqb_neq. intros ->. apply H. left. reflexivity.
  - change (startsWith ((d :: s) ++ [x]) (c :: p))
      with ((d =? c) && startsWith (s ++ [x]) p).
    change (startsWith (d :: s) (c :: p)) with ((d =? c) && startsWith s p).
    rewrite IH; [reflexivity|]. intros Hin. apply H. right. exact Hin.
Qed.

Lemma startsWith_length (p : jsstring) :
  forall s, startsWith s p = true -> (List.length p <= List.length s)%nat.
Proof.
  induction p as [|c p IH]; intros s H; cbn [List.length]; [lia|].
  destruct s as [|d s]; [discriminate H|].
  change (startsWith (d :: s) (c :: p)) with ((d =? c) && startsWith s p) in H.
  apply andb_true_iff in H as [_ H]. apply IH in H. cbn [List.length]. lia.
Qed.

(** A carriage return at the end of a line changes neither whether it is
    the terminator nor what it adds. *)
Lemma line_cr (line : jsstring) :
  is_done_line (line ++ [CR]) = is_done_line line
  /\ line_text rt (line ++ [CR]) = line_text rt line.
Proof.
  assert (Hd : is_data_line (line ++ [CR]) = is_data_line line).
  { unfold is_data_line. apply startsWith_snoc. vm_compute.
    intuition discriminate. }
  unfold is_done_line, line_text. rewrite Hd.
  destruct (is_data_line line) eqn:D; [|auto].
  assert (Hp : payload (line ++ [CR]) = payload line).
  { unfold payload, slice. apply startsWith_length in D.
    change (List.length (lit "data: ")) with 6%nat in D.
    rewrite skipn_app. replace (6 - List.length line)%nat with 0%nat by lia.
    cbn [skipn]. apply trim_drops_end. reflexivity. }
  rewrite Hp. auto.
Qed.

Lemma batch_text_cr (lines : list jsstring) :
  batch_text rt (map (fun l => l ++ [CR]) lines) = batch_text rt lines.
Proof.
  induction lines as [|l lines IH]; [reflexivity|].
  cbn [map batch_text]. destruct (line_cr l) as [-> ->]. rewrite IH.
  reflexivity.
Qed.

Lemma stream_text_crlf (values : list jsstring) :
  forall buf,
    ~ In LF buf ->
    stream_text rt buf (map crlf values) = stream_text rt buf values.
Proof.
  induction values as [|v more IH]; intros buf Hb; [reflexivity|].
  cbn [map stream_text].
  assert (E : buf ++ crlf v = crlf (buf ++ v))
    by (rewrite crlf_app, (crlf_no_LF buf Hb); reflexivity).
  rewrite E.
  destruct (@lines_of_split _ _ _ (split_crlf (buf ++ v))) as [-> ->].
  rewrite batch_text_cr, IH by apply kept_no_LF. reflexivity.
Qed.

End StreamFacts.

Lemma done_only_last_b_sound (lines : list jsstring) :
  done_only_last_b lines = true -> done_only_last lines.
Proof.
  induction lines as [|d rest IH]; intros H l1 x l2 E Hl2.
  - destruct l1; discriminate E.
  - cbn [done_only_last_b] in H. destruct l1 as [|y l1]; cbn [app] in E.
    + injection E as -> ->. destruct l2; [contradiction|].
      apply andb_true_iff in H as [H _]. apply negb_true_iff in H. exact H.
    + injection E as -> ->.
      assert (Hr : done_only_last_b (l1 ++ x :: l2) = true).
      { destruct (l1 ++ x :: l2) eqn:R; [reflexivity|].
        apply andb_true_iff in H as [_ H]. exact H. }
      exact (IH Hr l1 x l2 eq_refl Hl2).
Qed.

(** X1.  However a response is cut into reads, an exchange whose stream
    has no complete line after its terminator ends the same way: the text
    streamed is that of the complete lines of the whole response up to the
    terminator, and two cuttings of the same response give the same
    outcome of [sendMessage] and of [handleTranslate]. *)
Theorem answer_independent_of_reads (rt : Runtime) (props : Props)
    (values1 values2 : list jsstring) (ok rejects : bool) :
  List.concat values1 = List.concat values2 ->
  done_only_last (complete_lines (List.concat values1)) ->
  streamed rt (reply_of true values1 rejects)
  = batch_text rt (complete_lines (List.concat values1))
  /\ (forall overrideText sug st,
        sendMessage rt props overrideText (reply_of ok values1 rejects) sug st
        = sendMessage rt props overrideText (reply_of ok values2 rejects)
                      sug st)
  /\ (forall filename lang st,
        handleTranslate rt props filename lang (reply_of ok values1 rejects) st
        = handleTranslate rt props filename lang (reply_of ok values2 rejects)
                          st).
Proof.
  intros E H.
  assert (H1 : stream_text rt [] values1
               = batch_text rt (complete_lines (List.concat values1)))
    by (apply stream_text_terminated; exact H).
  assert (H2 : stream_text rt [] values2
               = batch_text rt (complete_lines (List.concat values1)))
    by (rewrite E in *; apply stream_text_terminated; exact H).
  assert (Hs : streamed rt (reply_of ok values1 rejects)
               = streamed rt (reply_of ok values2 rejects)).
  { unfold reply_of, streamed. destruct ok; [|reflexivity].
    cbn [reads]. congruence. }
  split; [exact H1|].
  split; intros; [apply sendMessage_ext | apply handleTranslate_ext];
    auto.
Qed.

Lemma answer_independent_of_reads_witness :
  sendMessage Sample.runtime Examples.props None
    (reply_of true [Examples.token_line "a" ++ [LF];
                    Examples.token_line "b" ++ LF :: Examples.done_line
                      ++ [LF]] false)
    None Examples.typed
  = sendMessage Sample.runtime Examples.props None
      (reply_of true [Examples.token_line "a" ++ LF :: lit "data: ";
                      skipn 6 (Examples.token_line "b") ++ [LF];
                      Examples.done_line ++ [LF]] false)
      None Examples.typed.
Proof.
  refine (proj1 (proj2 (@answer_independent_of_reads Sample.runtime
            Examples.props _ _ true false _ _)) None None Examples.typed).
  - vm_compute. reflexivity.
  - apply done_only_last_b_sound. vm_compute. reflexivity.
Defined.

(** X2.  What follows the last line feed of a response is never handed to
    the line loop: a final read without a line feed (a last event that is
    not terminated, say) leaves the outcome of the exchange as it is
    without that read. *)
Theorem unterminated_tail_is_dropped (rt : Runtime) (props : Props)
    (values : list jsstring) (tail : jsstring) (ok rejects : bool) :
  ~ In LF tail ->
  (forall overrideText sug st,
      sendMessage rt props overrideText
        (reply_of ok (values ++ [tail]) rejects) sug st
      = sendMessage rt props overrideText (reply_of ok values rejects)
                    sug st)
  /\ (forall filename lang st,
        handleTranslate rt props filename lang
          (reply_of ok (values ++ [tail]) rejects) st
        = handleTranslate rt props filename lang (reply_of ok values rejects)
                          st).
Proof.
  intros Ht.
  assert (Hs : streamed rt (reply_of ok (values ++ [tail]) rejects)
               = streamed rt (reply_of ok values rejects)).
  { unfold reply_of, streamed. destruct ok; [|reflexivity]. cbn [reads].
    apply stream_text_tail; [intros [] | exact Ht]. }
  split; intros; [apply sendMessage_ext | apply handleTranslate_ext];
    auto.
Qed.

Lemma unterminated_tail_is_dropped_witness :
  exists st' effs,
    sendMessage Sample.runtime Examples.props None
      (reply_of true [Examples.token_line "a" ++ [LF];
                      Examples.token_line "lost"] false)
      None Examples.typed
    = Some (tt, st', effs)
    /\ messages st' =
       Examples.earlier ++
       [{| role := user; content := lit "hi" |};
        {| role := assistant; content := lit "a" |}].
Proof.
  assert (Ht : ~ In LF (Examples.token_line "lost"))
    by (vm_compute; intuition discriminate).
  rewrite (proj1 (@unterminated_tail_is_dropped Sample.runtime Examples.props
                    [Examples.token_line "a" ++ [LF]] _ true false Ht)).
  eexists; eexists. split; vm_compute; reflexivity.
Defined.

(** X3.  A line that does not start with [data: ] (an empty line between
    two events, a comment, an [event:] field) is passed over wherever it
    stands: the exchange ends as it does over the response without that
    line. *)
Theorem other_lines_are_ignored (rt : Runtime) (props : Props)
    (line : jsstring) :
  is_data_line line = false -> ~ In LF line ->
  forall before a b after ok rejects,
    at_line_start (List.concat before ++ a) ->
    (forall overrideText sug st,
        sendMessage rt props overrideText
          (reply_of ok (before ++ (a ++ line ++ LF :: b) :: after) rejects)
          sug st
        = sendMessage rt props overrideText
            (reply_of ok (before ++ (a ++ b) :: after) rejects) sug st)
    /\
    (forall filename lang st,
        handleTranslate rt props filename lang
          (reply_of ok (before ++ (a ++ line ++ LF :: b) :: after) rejects) st
        = handleTranslate rt props filename lang
            (reply_of ok (before ++ (a ++ b) :: after) rejects) st).
Proof.
  intros Hd Hb before a b after ok rejects Hs.
  assert (Hst : streamed rt
                  (reply_of ok (before ++ (a ++ line ++ LF :: b) :: after)
                            rejects)
                = streamed rt
                    (reply_of ok (before ++ (a ++ b) :: after) rejects)).
  { unfold reply_of, streamed. destruct ok; [|reflexivity]. cbn [reads].
    apply stream_text_pass; auto.
    - unfold is_done_line. rewrite Hd. reflexivity.
    - unfold line_text. rewrite Hd. reflexivity. }
  split; intros; [apply sendMessage_ext | apply handleTranslate_ext];
    auto.
Qed.

Lemma other_lines_are_ignored_witness :
  sendMessage Sample.runtime Examples.props None
    (reply_of true [Examples.token_line "a" ++ LF :: LF ::
                    Examples.token_line "b" ++ [LF]] false)
    None Examples.typed
  = sendMessage Sample.runtime Examples.props None
      (reply_of true [Examples.token_line "a" ++ LF ::
                      Examples.token_line "b" ++ [LF]] false)
      None Examples.typed.
Proof.
  assert (Hd : is_data_line [] = false) by reflexivity.
  assert (Hb : ~ In LF []) by (intros []).
  assert (Hs : at_line_start
                 (List.concat [] ++ (Examples.token_line "a" ++ [LF])))
    by (right; exists (Examples.token_line "a"); reflexivity).
  pose proof (proj1 (@other_lines_are_ignored Sample.runtime Examples.props
                       [] Hd Hb [] (Examples.token_line "a" ++ [LF])
                       (Examples.token_line "b" ++ [LF]) [] true false Hs)
                    None None Examples.typed) as H.
  cbn [app] in H. rewrite <- !app_assoc in H. exact H.
Defined.

(** X4.  A response whose lines end with a carriage return and a line
    feed is consumed like the same response with bare line feeds, by
    [sendMessage] and by [handleTranslate]. *)
Theorem carriage_returns_are_immaterial (rt : Runtime) (props : Props)
    (values : list jsstring) (ok rejects : bool) :
  (forall overrideText sug st,
      sendMessage rt props overrideText
        (reply_of ok (map crlf values) rejects) sug st
      = sendMessage rt props overrideText (reply_of ok values rejects) sug st)
  /\ (forall filename lang st,
        handleTranslate rt props filename lang
          (reply_of ok (map crlf values) rejects) st
        = handleTranslate rt props filename lang (reply_of ok values rejects)
                          st).
Proof.
  assert (Hs : streamed rt (reply_of ok (map crlf values) rejects)
               = streamed rt (reply_of ok values rejects)).
  { unfold reply_of, streamed. destruct ok; [|reflexivity]. cbn [reads].
    apply stream_text_crlf. intros []. }
  split; intros; [apply sendMessage_ext | apply handleTranslate_ext];
    auto.
Qed.

(** ** Further properties of the polling, the upload and the merge *)

Lemma requests_app (e1 e2 : list Effect) :
  requests (e1 ++ e2) = requests e1 ++ requests e2.
Proof.
  induction e1 as [|e r IH]; simpl; [reflexivity|].
  destruct e; simpl; rewrite ?IH; reflexivity.
Qed.

Section PollingFacts.

Variable rt : Runtime.

Ltac ask_case :=
  eexists; eexists; eexists; (split; [reflexivity|]); cbn;
  (split; [reflexivity|]); (split; [reflexivity|]); auto.

Lemma upload_poll_asks : asks_at_most_once (upload_poll rt).
Proof.
  intros r p st. unfold upload_poll, MAX_POLLS.
  destruct (30 <=? S (pollCount p))%nat eqn:L.
  - unfold bind, update, ret.
    destruct (adopt_pending_status (poll_filename p)
                (with_uploadStatus success st)) as (st' & -> & Hu).
    ask_case.
  - apply Nat.leb_gt in L.
    destruct (encodeURIComponent rt (poll_filename p)).
    2: { unfold ret. ask_case. }
    unfold bind, emit, update, ret.
    destruct r as [| |status]; try ask_case.
    destruct (str_eqb status (lit "done")) eqn:Hd.
    + destruct (adopt_pending_status (poll_filename p)
                  (with_uploadStatus success st)) as (st' & -> & Hu).
      ask_case.
    + destruct (str_eqb status (lit "error")) eqn:He; ask_case.
Qed.

Lemma merge_poll_asks : asks_at_most_once (merge_poll rt).
Proof.
  intros r p st. unfold merge_poll.
  destruct (30 <=? S (pollCount p))%nat eqn:L.
  - unfold bind, update, ret. ask_case.
  - apply Nat.leb_gt in L.
    destruct (encodeURIComponent rt (poll_filename p)).
    2: { unfold ret. ask_case. }
    unfold bind, emit, update, ret.
    destruct r as [| |status]; try ask_case.
    destruct (str_eqb status (lit "done")) eqn:Hd;
      [|destruct (str_eqb status (lit "error")) eqn:He]; ask_case.
Qed.

Lemma run_poll_asks (tick : StatusReply -> Poll -> M Poll)
    (replies : list StatusReply) :
  asks_at_most_once tick ->
  forall p st,
  exists p' st' e,
    run_poll tick replies p st = Some (p', st', e)
    /\ (List.length (requests e) <= 29 - pollCount p)%nat
    /\ Forall (eq (GET_upload_status (poll_filename p))) (requests e).
Proof.
  intros Hask. induction replies as [|r more IH]; intros p st;
    cbn [run_poll].
  - unfold ret. eexists; eexists; eexists. split; [reflexivity|].
    cbn. split; [lia | constructor].
  - destruct (cleared p).
    + unfold ret. eexists; eexists; eexists. split; [reflexivity|].
      cbn. split; [lia | constructor].
    + unfold bind.
      destruct (Hask r p st) as (p1 & st1 & e1 & -> & Hn & Hf & Hreq).
      destruct (IH p1 st1) as (p' & st' & e2 & -> & Hlen & Hall).
      eexists; eexists; eexists. split; [reflexivity|].
      rewrite requests_app, length_app, Hn in *. rewrite Hf in Hall.
      destruct Hreq as [-> | [-> Hlt]]; cbn [List.length app].
      * split; [lia | exact Hall].
      * split; [lia | constructor; [reflexivity | exact Hall]].
Qed.

(** A firing that finds neither ['done'] nor ['error'] before the
    thirtieth leaves the component as it is. *)
Lemma upload_poll_waits (r : StatusReply) (p : Poll) (st : State)
    (enc : jsstring) :
  encodeURIComponent rt (poll_filename p) = Some enc ->
  (S (pollCount p) < 30)%nat -> reports_end r = false ->
  upload_poll rt r p st =
  Some ({| poll_filename := poll_filename p; pollCount := S (pollCount p);
           cleared := false |},
        st, [Fetch (GET_upload_status (poll_filename p))]).
Proof.
  intros He Hlt Hr. unfold upload_poll, MAX_POLLS.
  apply Nat.leb_gt in Hlt. rewrite Hlt, He.
  unfold bind, emit, update, ret.
  destruct r as [| |status]; try reflexivity.
  cbn [reports_end] in Hr. apply orb_false_iff in Hr as [-> ->]. reflexivity.
Qed.

Lemma upload_poll_error (p : Poll) (st : State) (enc : jsstring) :
  encodeURIComponent rt (poll_filename p) = Some enc ->
  (S (pollCount p) < 30)%nat ->
  upload_poll rt (StatusIs (lit "error")) p st =
  Some ({| poll_filename := poll_filename p; pollCount := S (pollCount p);
           cleared := true |},
        with_uploadStatus error st,
        [Fetch (GET_upload_status (poll_filename p))]).
Proof.
  intros He Hlt. unfold upload_poll, MAX_POLLS.
  apply Nat.leb_gt in Hlt. rewrite Hlt, He. reflexivity.
Qed.

Lemma run_poll_error (pre : list StatusReply) :
  forall (post : list StatusReply) (p : Poll) (st : State) (enc : jsstring),
    encodeURIComponent rt (poll_filename p) = Some enc ->
    cleared p = false ->
    forallb (fun r => negb (reports_end r)) pre = true ->
    (pollCount p + List.length pre < 29)%nat ->
    exists p' e,
      run_poll (upload_poll rt) (pre ++ StatusIs (lit "error") :: post) p st
      = Some (p', with_uploadStatus error st, e)
      /\ cleared p' = true
      /\ List.length (requests e) = S (List.length pre).
Proof.
  induction pre as [|r pre IH]; intros post p st enc He Hc Hall Hlen;
    cbn [app run_poll]; rewrite Hc; unfold bind.
  - rewrite (upload_poll_error p st He) by (cbn in Hlen; lia).
    assert (R : forall q s, cleared q = true ->
                run_poll (upload_poll rt) post q s = Some (q, s, [])).
    { intros q s Hq. destruct post; cbn [run_poll]; [reflexivity|].
      rewrite Hq. reflexivity. }
    rewrite R by reflexivity.
    eexists; eexists. split; [reflexivity|]. auto.
  - cbn [forallb List.length] in *. apply andb_true_iff in Hall as [Hr Hall].
    apply negb_true_iff in Hr.
    rewrite (upload_poll_waits r p st He) by (auto; lia).
    edestruct IH with (post := post) (st := st) as (p' & e & -> & Hc' & Hn);
      [exact He | reflexivity | exact Hall | cbn; lia |].
    eexists; eexists. split; [reflexivity|].
    split; [exact Hc'|]. cbn. rewrite Hn. reflexivity.
Qed.

End PollingFacts.

(** X5.  An interval never asks the server more than twenty-nine times,
    whatever the replies and however long it is left running, and asks
    about its own file only; the thirtieth firing asks nothing.  This
    holds for the interval of an upload and for that of a merge. *)
Theorem polling_asks_at_most_29_times (rt : Runtime)
    (replies : list StatusReply) (filename : jsstring) (st : State) :
  let p := {| poll_filename := filename; pollCount := 0; cleared := false |} in
  (exists p' st' e,
      run_poll (upload_poll rt) replies p st = Some (p', st', e)
      /\ (List.length (requests e) <= 29)%nat
      /\ Forall (eq (GET_upload_status filename)) (requests e))
  /\
  (exists p' st' e,
      run_poll (merge_poll rt) replies p st = Some (p', st', e)
      /\ (List.length (requests e) <= 29)%nat
      /\ Forall (eq (GET_upload_status filename)) (requests e)).
Proof.
  intros p. split.
  - destruct (run_poll_asks replies (upload_poll_asks rt) p st)
      as (p' & st' & e & E & Hl & Ha).
    exists p', st', e. cbn in Hl. auto.
  - destruct (run_poll_asks replies (merge_poll_asks rt) p st)
      as (p' & st' & e & E & Hl & Ha).
    exists p', st', e. cbn in Hl. auto.
Qed.

(** X6.  When the server reports ['error'] for an upload before the
    budget is spent, the polling stops there and the component is exactly
    as it was but for the status, now [error]: the file does not enter
    the library, and one request was made per firing. *)
Theorem reported_failure_keeps_library (rt : Runtime)
    (pre post : list StatusReply) (filename enc : jsstring) (st : State) :
  encodeURIComponent rt filename = Some enc ->
  forallb (fun r => negb (reports_end r)) pre = true ->
  (List.length pre < 29)%nat ->
  exists p' e,
    run_poll (upload_poll rt) (pre ++ StatusIs (lit "error") :: post)
             {| poll_filename := filename; pollCount := 0; cleared := false |}
             st
    = Some (p', with_uploadStatus error st, e)
    /\ cleared p' = true
    /\ List.length (requests e) = S (List.length pre).
Proof.
  intros He Hall Hlen.
  eapply run_poll_error; [exact He | reflexivity | exact Hall | cbn; lia].
Qed.

Lemma reported_failure_keeps_library_witness :
  exists p' e,
    run_poll (upload_poll Sample.runtime)
      ([StatusIs (lit "processing"); StatusNotOk]
       ++ StatusIs (lit "error") :: [StatusIs (lit "done")])
      Examples.doc_poll (initial_state [])
    = Some (p', with_uploadStatus error (initial_state []), e)
    /\ cleared p' = true
    /\ List.length (requests e) = 3%nat.
Proof.
  apply (@reported_failure_keeps_library Sample.runtime
           [StatusIs (lit "processing"); StatusNotOk]
           [StatusIs (lit "done")] (lit "doc.pdf") (lit "doc.pdf")
           (initial_state [])).
  - vm_compute. reflexivity.
  - vm_compute. reflexivity.
  - cbn. lia.
Defined.

Lemma handleMerge_failure (rt : Runtime) (now : jsstring)
    (reply : MergeReply) (st : State) :
  (2 <= List.length (mergeSelected st))%nat -> mergeLoading st = false ->
  match reply with
  | MergeOk serverName => encodeURIComponent rt serverName = None
  | _ => True
  end ->
  exists outName,
    handleMerge rt now reply st
    = Some (None, st,
            [Fetch (POST_pdf_merge (mergeSelected st) outName);
             Alert merge_alert]).
Proof.
  intros H2 Hl Hfail. unfold handleMerge, bind, rendered.
  apply Nat.ltb_ge in H2. rewrite H2, Hl. cbn [orb].
  unfold update, emit, ret.
  assert (Hst : with_mergeLoading false (with_mergeLoading true st) = st)
    by (destruct st; cbn in *; subst; reflexivity).
  destruct reply as [| |serverName]; cbn; try rewrite Hfail; cbn;
    rewrite Hst; eexists; reflexivity.
Qed.

(** X7.  A merge that fails (the request is rejected, the response is not
    ok, or the name returned cannot be encoded) leaves the component
    exactly as it was, selection and name field included, after one
    request and one alert; no polling starts. *)
Theorem failed_merge_changes_nothing (rt : Runtime) (now : jsstring)
    (reply : MergeReply) (st : State) :
  (2 <= List.length (mergeSelected st))%nat -> mergeLoading st = false ->
  match reply with
  | MergeOk serverName => encodeURIComponent rt serverName = None
  | _ => True
  end ->
  exists outName,
    handleMerge rt now reply st
    = Some (None, st,
            [Fetch (POST_pdf_merge (mergeSelected st) outName);
             Alert merge_alert])
    /\ outName =
       (if nonempty (trim (mergeName st)) then trim (mergeName st)
        else lit "merged_" ++ now).
Proof.
  intros H2 Hl Hfail.
  destruct (handleMerge_failure rt now reply st H2 Hl Hfail) as (o & E).
  destruct (handleMerge_run rt now reply st H2 Hl)
    as (r & st' & effs & E' & Hr & _).
  rewrite E in E'. injection E' as <- <- <-. cbn in Hr.
  injection Hr as ->. eexists. split; [exact E | reflexivity].
Qed.

Lemma failed_merge_changes_nothing_witness :
  handleMerge Sample.runtime (lit "1700000000000") MergeNotOk
              Examples.two_selected
  = Some (None, Examples.two_selected,
          [Fetch (POST_pdf_merge [lit "a.pdf"; lit "b.pdf"]
                                 (lit "merged_1700000000000"));
           Alert merge_alert]).
Proof.
  destruct (@failed_merge_changes_nothing Sample.runtime (lit "1700000000000")
              MergeNotOk Examples.two_selected) as (o & E & ->).
  - vm_compute. lia.
  - reflexivity.
  - exact I.
  - exact E.
Defined.

(** X8.  [handleFileChange] starts a polling only for a file whose name
    ends in [.pdf] and whose upload was answered ok; the status is then
    [embedding] and the interval asks about the name the server returned,
    or the name of the file when it returned none.  In every other case
    in which a file was picked the status ends as [error], and for a name
    that does not end in [.pdf] nothing is requested.  The library is
    never touched. *)
Theorem upload_starts_polling_only_when_accepted (file_name : option jsstring)
    (objUrl : jsstring) (reply : UploadReply) (st : State) :
  exists r st' e,
    handleFileChange file_name objUrl reply st = Some (r, st', e)
    /\ pdfLibrary st' = pdfLibrary st
    /\ (forall p, r = Some p ->
          exists fname returned,
            file_name = Some fname
            /\ endsWith fname (lit ".pdf") = true
            /\ reply = UploadOk returned
            /\ p = {| poll_filename := nullish returned fname;
                      pollCount := 0; cleared := false |}
            /\ uploadStatus st' = embedding
            /\ requests e = [POST_upload_pdf fname])
    /\ (r = None ->
          (file_name = None /\ st' = st /\ e = [])
          \/ uploadStatus st' = error)
    /\ (forall fname, file_name = Some fname ->
          endsWith fname (lit ".pdf") = false -> requests e = []).
Proof.
  unfold handleFileChange, bind, update, emit, ret.
  destruct file_name as [fname|].
  2: { eexists; eexists; eexists. split; [reflexivity|].
       repeat split; auto; discriminate. }
  destruct (endsWith fname (lit ".pdf")) eqn:Hp; cbn [negb].
  - destruct reply as [| |returned]; cbn;
      eexists; eexists; eexists; (split; [reflexivity|]);
      (split; [reflexivity|]); (split; [|split]); auto;
      try discriminate; try (intros _ H; discriminate H);
      try (intros f H; injection H as <-; intros C; congruence).
    intros p H. injection H as <-. exists fname, returned. auto 10.
  - cbn. eexists; eexists; eexists. split; [reflexivity|].
    repeat split; auto; discriminate.
Qed.

(** ** Further properties of the exchanges *)

Section ExchangeFacts.

Variable rt : Runtime.
Variable props : Props.

Lemma suggestions_detail (b : bool) (trimmed fullAnswer : jsstring)
    (sug_reply : option (list jsstring)) (st : State) :
  exists st' e,
    when b (fetch_suggestions rt trimmed fullAnswer sug_reply) st
    = Some (tt, st', e)
    /\ messages st' = messages st
    /\ mergeSelected st' = mergeSelected st
    /\ input st' = input st
    /\ (suggestions st' = suggestions st
        \/ b = true /\ sug_reply = Some (suggestions st'))
    /\ saved e = []
    /\ (requests e = []
        \/ requests e = [GET_suggestions trimmed fullAnswer]).
Proof.
  destruct b; cbn.
  - unfold fetch_suggestions, bind, update, emit, ret.
    destruct (encodeURIComponent rt trimmed), (encodeURIComponent rt fullAnswer),
      sug_reply; cbn; eexists; eexists; repeat split; auto.
  - unfold ret. eexists; eexists; repeat split; auto.
Qed.

(** More of what an exchange of [sendMessage] leaves: the draft is
    cleared, the selection is untouched, the request carries the messages
    from before the exchange and the names of the library, and the
    suggestions are those of this exchange or none. *)
Lemma sendMessage_detail (overrideText : option jsstring)
    (reply : FetchOutcome) (sug_reply : option (list jsstring)) (st : State) :
  can_send overrideText st = true ->
  let trimmed := trim (nullish overrideText (input st)) in
  exists st' effs,
    sendMessage rt props overrideText reply sug_reply st = Some (tt, st', effs)
    /\ mergeSelected st' = mergeSelected st
    /\ input st' = []
    /\ hd_error (requests effs)
       = Some (POST_chat_stream trimmed (messages st) (names (pdfLibrary st)))
    /\ (suggestions st' = []
        \/ sug_reply = Some (suggestions st')
           /\ failed reply = false
           /\ nonempty (trim (streamed rt reply)) = true).
Proof.
  intros H. unfold can_send in H. apply andb_true_iff in H as [H1 H2].
  apply negb_true_iff in H2.
  unfold sendMessage, bind, rendered. rewrite H1, H2. cbn -[stream_try].
  rewrite stream_try_run
    by (cbn; intros C; apply app_eq_nil in C; destruct C; discriminate).
  cbn -[fetch_suggestions].
  destruct (failed reply) eqn:F; cbn -[fetch_suggestions].
  - eexists; eexists; repeat split; cbn; auto.
  - match goal with
    | |- context [when ?b (fetch_suggestions rt ?t ?f ?r) ?s] =>
        destruct (suggestions_detail b t f r s)
          as (s1 & e1 & E & Hm & Hsel & Hin & Hsug & Hs & Hr)
    end.
    rewrite E. cbn in Hsel, Hin, Hsug. cbn.
    destruct (nonempty (trim (streamed rt reply))) eqn:Hn;
      destruct (has_onSaveSession props); cbn;
      eexists; eexists; (split; [reflexivity|]); cbn;
      (split; [exact Hsel|]); (split; [exact Hin|]);
      (split; [reflexivity|]);
      (destruct Hsug as [Hsug | [Hb Hsug]]; [left; exact Hsug|]);
      try discriminate Hb; right; auto.
Qed.

Lemma sendMessage_selection (overrideText : option jsstring)
    (reply : FetchOutcome) (sug_reply : option (list jsstring))
    (st st' : State) (e : list Effect) :
  sendMessage rt props overrideText reply sug_reply st = Some (tt, st', e) ->
  mergeSelected st' = mergeSelected st.
Proof.
  intros H. destruct (can_send overrideText st) eqn:G.
  - destruct (sendMessage_detail overrideText reply sug_reply st G)
      as (s1 & e1 & E & Hsel & _).
    rewrite H in E. injection E as <- <-. exact Hsel.
  - rewrite sendMessage_idle in H by exact G. injection H as <- <-.
    reflexivity.
Qed.

Lemma handleTranslate_selection (filename lang : jsstring)
    (reply : FetchOutcome) (st st' : State) (e : list Effect) :
  handleTranslate rt props filename lang reply st = Some (tt, st', e) ->
  mergeSelected st' = mergeSelected st.
Proof.
  destruct (can_translate st) eqn:G.
  - unfold can_translate in G. apply andb_true_iff in G as [H1 H2].
    apply negb_true_iff in H1. apply negb_true_iff in H2.
    unfold handleTranslate, bind, rendered. rewrite H1, H2.
    cbn -[stream_try].
    rewrite stream_try_run
      by (cbn; intros C; apply app_eq_nil in C; destruct C; discriminate).
    cbn. destruct (failed reply); cbn;
      destruct (nonempty (trim (streamed rt reply)));
      destruct (has_onSaveSession props); cbn;
      intros E; injection E as <- <-; reflexivity.
  - rewrite handleTranslate_idle by exact G. intros E.
    injection E as <- <-. reflexivity.
Qed.

End ExchangeFacts.

(** ** The merge selection *)

Section SelectionFacts.

Variable rt : Runtime.
Variable props : Props.

Lemma without_NoDup (n : jsstring) (l : list jsstring) :
  NoDup l -> NoDup (without n l).
Proof. intros H. unfold without. apply NoDup_filter. exact H. Qed.

Lemma without_In (n x : jsstring) (l : list jsstring) :
  In x (without n l) <-> In x l /\ x <> n.
Proof.
  unfold without. rewrite filter_In, negb_true_iff, str_eqb_neq. tauto.
Qed.

Lemma includes_In (x : jsstring) (l : list jsstring) :
  includes x l = true <-> In x l.
Proof.
  unfold includes. rewrite existsb_exists. split.
  - intros (y & Hin & E). apply str_eqb_spec in E. subst. exact Hin.
  - intros H. exists x. split; [exact H | apply str_eqb_refl].
Qed.

Lemma names_insert (n x : jsstring) (lib : list PdfEntry) (e : PdfEntry) :
  name e = n -> In x (names lib) -> In x (names (without_name n lib ++ [e])).
Proof.
  intros He Hin. unfold names. rewrite map_app, in_app_iff. cbn.
  destruct (str_eqb x n) eqn:Q.
  - apply str_eqb_spec in Q. subst. auto.
  - left. unfold names in Hin. apply in_map_iff in Hin as (y & <- & Hy).
    apply in_map. apply without_name_keeps; [exact Hy|].
    apply str_eqb_neq. exact Q.
Qed.

Lemma upload_poll_selection (reply : StatusReply) (p p' : Poll)
    (st st' : State) (e : list Effect) :
  upload_poll rt reply p st = Some (p', st', e) ->
  mergeSelected st' = mergeSelected st.
Proof.
  assert (Ha : forall u,
             exists s1, adopt_pending (poll_filename p) (with_uploadStatus u st)
                        = Some (tt, s1, [])
                        /\ mergeSelected s1 = mergeSelected st).
  { intros u. unfold adopt_pending, bind, current, update, ret. cbn.
    destruct (pendingUploadRef st); cbn; eexists; split; reflexivity. }
  unfold upload_poll.
  destruct (MAX_POLLS <=? S (pollCount p))%nat.
  - unfold bind, update, ret. destruct (Ha success) as (s1 & -> & Hs).
    intros E. injection E as <- <- <-. exact Hs.
  - destruct (encodeURIComponent rt (poll_filename p)).
    2: { unfold ret. intros E. injection E as <- <- <-. reflexivity. }
    unfold bind, emit, update, ret.
    destruct reply as [| |status];
      try (intros E; injection E as <- <- <-; reflexivity).
    destruct (str_eqb status (lit "done")).
    + destruct (Ha success) as (s1 & -> & Hs).
      intros E. injection E as <- <- <-. exact Hs.
    + destruct (str_eqb status (lit "error")); intros E;
        injection E as <- <- <-; reflexivity.
Qed.

Lemma merge_poll_selection (reply : StatusReply) (p p' : Poll)
    (st st' : State) (e : list Effect) :
  merge_poll rt reply p st = Some (p', st', e) ->
  mergeSelected st' = mergeSelected st.
Proof.
  unfold merge_poll.
  destruct (30 <=? S (pollCount p))%nat.
  - unfold bind, update, ret. intros E. injection E as <- <- <-. reflexivity.
  - destruct (encodeURIComponent rt (poll_filename p)).
    2: { unfold ret. intros E. injection E as <- <- <-. reflexivity. }
    unfold bind, emit, update, ret.
    destruct reply as [| |status];
      try (intros E; injection E as <- <- <-; reflexivity).
    destruct (str_eqb status (lit "done"));
      [|destruct (str_eqb status (lit "error"))];
      intros E; injection E as <- <- <-; reflexivity.
Qed.

Lemma handleFileChange_selection (file_name : option jsstring)
    (objUrl : jsstring) (reply : UploadReply) (st st' : State)
    (r : option Poll) (e : list Effect) :
  handleFileChange file_name objUrl reply st = Some (r, st', e) ->
  mergeSelected st' = mergeSelected st.
Proof.
  unfold handleFileChange, bind, update, emit, ret.
  destruct file_name as [fname|];
    [|intros E; injection E as <- <- <-; reflexivity].
  destruct (negb (endsWith fname (lit ".pdf")));
    [intros E; injection E as <- <- <-; reflexivity|].
  destruct reply; intros E; injection E as <- <- <-; reflexivity.
Qed.

Lemma insert_keeps_selection (st st' : State) (ent : PdfEntry) :
  selection_ok st ->
  pdfLibrary st' = without_name (name ent) (pdfLibrary st) ++ [ent] ->
  mergeSelected st' = mergeSelected st ->
  selection_ok st'.
Proof.
  intros [Hn Hi] Hl Hs. unfold selection_ok. rewrite Hl, Hs.
  split; [exact Hn|]. intros x Hx. apply names_insert; auto.
Qed.

Lemma sendMessage_library (overrideText : option jsstring)
    (reply : FetchOutcome) (sug : option (list jsstring))
    (st st' : State) (e : list Effect) :
  sendMessage rt props overrideText reply sug st = Some (tt, st', e) ->
  pdfLibrary st' = pdfLibrary st.
Proof.
  intros H. destruct (can_send overrideText st) eqn:G.
  - destruct (sendMessage_run rt props overrideText reply sug st G)
      as (s1 & e1 & E & _ & _ & Hp & _).
    rewrite H in E. injection E as <- <-. exact Hp.
  - rewrite sendMessage_idle in H by exact G. injection H as <- <-.
    reflexivity.
Qed.

Lemma handleTranslate_library (filename lang : jsstring)
    (reply : FetchOutcome) (st st' : State) (e : list Effect) :
  handleTranslate rt props filename lang reply st = Some (tt, st', e) ->
  pdfLibrary st' = pdfLibrary st.
Proof.
  intros H. destruct (can_translate st) eqn:G.
  - destruct (handleTranslate_run rt props filename lang reply st G)
      as (s1 & e1 & E & _ & _ & _ & Hp & _).
    rewrite H in E. injection E as <- <-. exact Hp.
  - rewrite handleTranslate_idle in H by exact G. injection H as <- <-.
    reflexivity.
Qed.

Lemma same_keeps_selection (st st' : State) :
  selection_ok st ->
  pdfLibrary st' = pdfLibrary st -> mergeSelected st' = mergeSelected st ->
  selection_ok st'.
Proof. intros Hok Hl Hs. unfold selection_ok. rewrite Hl, Hs. exact Hok. Qed.

Lemma upload_poll_insert (reply : StatusReply) (p p' : Poll)
    (st st' : State) (e : list Effect) :
  upload_poll rt reply p st = Some (p', st', e) ->
  pdfLibrary st' = pdfLibrary st
  \/ exists ent,
      pdfLibrary st' = without_name (name ent) (pdfLibrary st) ++ [ent].
Proof.
  destruct (adopt_pending_library (poll_filename p) st success)
    as (st1 & Ha & Hl).
  assert (Hch : pdfLibrary st1 = pdfLibrary st
                \/ exists ent,
                    pdfLibrary st1
                    = without_name (name ent) (pdfLibrary st) ++ [ent]).
  { rewrite Hl. destruct (pendingUploadRef st) as [pending|]; [|auto].
    right.
    exists {| name := poll_filename p;
              displayName := pending_displayName pending;
              objectUrl := pending_objectUrl pending |}. reflexivity. }
  unfold upload_poll.
  destruct (MAX_POLLS <=? S (pollCount p))%nat.
  - unfold bind, update, ret. rewrite Ha. intros E.
    injection E as <- <- <-. exact Hch.
  - destruct (encodeURIComponent rt (poll_filename p)).
    2: { unfold ret. intros E. injection E as <- <- <-. left. reflexivity. }
    unfold bind, emit, update, ret.
    destruct reply as [| |status];
      try (intros E; injection E as <- <- <-; left; reflexivity).
    destruct (str_eqb status (lit "done")).
    + rewrite Ha. intros E. injection E as <- <- <-. exact Hch.
    + destruct (str_eqb status (lit "error")); intros E;
        injection E as <- <- <-; left; reflexivity.
Qed.

Lemma handleMerge_insert (now : jsstring) (reply : MergeReply)
    (st st' : State) (r : option Poll) (e : list Effect) :
  handleMerge rt now reply st = Some (r, st', e) ->
  (pdfLibrary st' = pdfLibrary st /\ mergeSelected st' = mergeSelected st)
  \/ (mergeSelected st' = []
      /\ exists ent,
          pdfLibrary st' = without_name (name ent) (pdfLibrary st) ++ [ent]).
Proof.
  intros E.
  destruct (List.length (mergeSelected st) <? 2)%nat eqn:L.
  - unfold handleMerge, bind, rendered in E. rewrite L in E. cbn in E.
    injection E as <- <- <-. auto.
  - apply Nat.ltb_ge in L. destruct (mergeLoading st) eqn:Hl.
    + unfold handleMerge, bind, rendered in E. rewrite Hl, orb_true_r in E.
      cbn in E. injection E as <- <- <-. auto.
    + destruct reply as [| |serverName].
      * destruct (@handleMerge_failure rt now MergeRejected st L Hl I)
          as (o & E'). rewrite E in E'. injection E' as _ <- _. auto.
      * destruct (@handleMerge_failure rt now MergeNotOk st L Hl I)
          as (o & E'). rewrite E in E'. injection E' as _ <- _. auto.
      * destruct (encodeURIComponent rt serverName) as [enc|] eqn:He.
        -- destruct (handleMerge_run rt now (MergeOk serverName) st L Hl)
             as (r' & s1 & effs' & E' & _ & _ & Hcase).
           rewrite E in E'. injection E' as <- <- <-. rewrite He in Hcase.
           destruct Hcase as (Hlib & Hsel & _). right. split; [exact Hsel|].
           exists (merged_entry serverName enc). exact Hlib.
        -- destruct (@handleMerge_failure rt now (MergeOk serverName)
                       st L Hl He) as (o & E').
           rewrite E in E'. injection E' as _ <- _. auto.
Qed.

Lemma sel_step_keeps (st st' : State) :
  sel_step rt props st st' -> selection_ok st -> selection_ok st'.
Proof.
  intros H Hok. pose proof Hok as [Hn Hi]. destruct H.
  - eapply same_keeps_selection; eauto using sendMessage_library,
      sendMessage_selection.
  - eapply same_keeps_selection; eauto using handleTranslate_library,
      handleTranslate_selection.
  - eapply same_keeps_selection; eauto using handleFileChange_library,
      handleFileChange_selection.
  - pose proof (@upload_poll_selection _ _ _ _ _ _ H) as Hs.
    destruct (@upload_poll_insert _ _ _ _ _ _ H) as [E | [ent E]].
    + eapply same_keeps_selection; eauto.
    + eapply insert_keeps_selection; eauto.
  - eapply same_keeps_selection; eauto using merge_poll_library,
      merge_poll_selection.
  - destruct (handleDeletePdf_run rt n st) as (e1 & E & _).
    rewrite H in E. injection E as -> _.
    assert (Hl : pdfLibrary (after_delete n st)
                 = without_name n (pdfLibrary st))
      by (unfold after_delete;
          destruct (match previewPdfName st with
                    | Some pv => str_eqb pv n
                    | None => false
                    end); reflexivity).
    assert (Hs : mergeSelected (after_delete n st)
                 = without n (mergeSelected st))
      by (unfold after_delete;
          destruct (match previewPdfName st with
                    | Some pv => str_eqb pv n
                    | None => false
                    end); reflexivity).
    unfold selection_ok. rewrite Hl, Hs. split.
    + apply without_NoDup. exact Hn.
    + intros x Hx. apply without_In in Hx as [Hx Hne].
      apply Hi in Hx. unfold names in *.
      apply in_map_iff in Hx as (y & <- & Hy). apply in_map.
      apply without_name_keeps; assumption.
  - destruct (@handleMerge_insert _ _ _ _ _ _ H) as [[El Es] | [Es [ent El]]].
    + eapply same_keeps_selection; eauto.
    + unfold selection_ok. rewrite Es. split; [constructor|].
      intros x [].
  - unfold selection_ok, toggle_select. cbn.
    change (pdfLibrary
              (with_mergeSelected
                 (if negb (includes n (mergeSelected st))
                  then mergeSelected st ++ [n]
                  else without n (mergeSelected st)) st))
      with (pdfLibrary st).
    destruct (includes n (mergeSelected st)) eqn:Q; cbn [negb].
    + split; [apply without_NoDup; exact Hn|].
      intros x Hx. apply without_In in Hx as [Hx _]. auto.
    + split.
      * assert (Hnot : ~ In n (mergeSelected st)).
        { intros C. apply includes_In in C. congruence. }
        apply NoDup_rev in Hn. rewrite <- (rev_involutive (_ ++ _)).
        apply NoDup_rev. rewrite rev_unit. constructor; [|exact Hn].
        rewrite <- in_rev. exact Hnot.
      * intros x Hx. apply in_app_or in Hx as [Hx | [<- | []]]; auto.
  - eapply same_keeps_selection; eauto.
Qed.

End SelectionFacts.

Lemma handleMerge_requests (rt : Runtime) (now : jsstring)
    (reply : MergeReply) (st st' : State) (r : option Poll)
    (effs : list Effect) :
  handleMerge rt now reply st = Some (r, st', effs) ->
  requests effs = []
  \/ ((2 <= List.length (mergeSelected st))%nat
      /\ exists outName,
          requests effs = [POST_pdf_merge (mergeSelected st) outName]).
Proof.
  intros E.
  destruct (List.length (mergeSelected st) <? 2)%nat eqn:L.
  - unfold handleMerge, bind, rendered in E. rewrite L in E. cbn in E.
    injection E as <- <- <-. left. reflexivity.
  - apply Nat.ltb_ge in L. destruct (mergeLoading st) eqn:Hl.
    + unfold handleMerge, bind, rendered in E. rewrite Hl, orb_true_r in E.
      cbn in E. injection E as <- <- <-. left. reflexivity.
    + destruct (handleMerge_run rt now reply st L Hl)
        as (r' & s1 & effs' & E' & Hr & _).
      rewrite E in E'. injection E' as <- <- <-. right. eauto.
Qed.

(** X9.  In every state the component reaches, the names selected for a
    merge are pairwise distinct names of documents of the library; so a
    merge request, which is sent with the selection as it stands, names at
    least two different documents, all of them in the library. *)
Theorem selection_stays_within_library (rt : Runtime) (props : Props)
    (st : State) :
  sel_reachable rt props st ->
  NoDup (mergeSelected st)
  /\ incl (mergeSelected st) (names (pdfLibrary st))
  /\ forall now reply r st' effs filenames outName,
      handleMerge rt now reply st = Some (r, st', effs) ->
      In (POST_pdf_merge filenames outName) (requests effs) ->
      NoDup filenames
      /\ incl filenames (names (pdfLibrary st))
      /\ exists a b rest, filenames = a :: b :: rest /\ a <> b.
Proof.
  intros R.
  assert (Hok : selection_ok st).
  { induction R as [ms | st st' _ IH Hstep].
    - split; [constructor | intros x []].
    - eapply sel_step_keeps; eauto. }
  destruct Hok as [Hn Hi]. split; [exact Hn|]. split; [exact Hi|].
  intros now reply r st' effs filenames outName E Hin.
  destruct (handleMerge_requests rt now reply st E)
    as [Hnone | (H2 & o & Hreq)].
  - rewrite Hnone in Hin. contradiction.
  - rewrite Hreq in Hin. destruct Hin as [Hin | []].
    injection Hin as <- _. split; [exact Hn|]. split; [exact Hi|].
    destruct (mergeSelected st) as [|a [|b rest]]; cbn in H2; try lia.
    exists a, b, rest. split; [reflexivity|].
    inversion Hn as [|x xs Hnotin _]; subst. intros ->. apply Hnotin.
    left. reflexivity.
Qed.

Lemma selection_stays_within_library_witness :
  exists st,
    sel_reachable Sample.runtime Examples.props st
    /\ mergeSelected st = [lit "doc.pdf"]
    /\ NoDup (mergeSelected st)
    /\ incl (mergeSelected st) (names (pdfLibrary st)).
Proof.
  eexists. split; [|split].
  - eapply sel_next.
    + eapply sel_next.
      * eapply sel_next.
        -- apply (sel_initial Sample.runtime Examples.props []).
        -- eapply sel_handleFileChange
             with (file_name := Some (lit "doc.pdf")) (objUrl := lit "blob:1")
                  (reply := UploadOk (Some (lit "doc.pdf"))).
           vm_compute. reflexivity.
      * eapply sel_upload_poll
          with (reply := StatusIs (lit "done")) (p := Examples.doc_poll).
        vm_compute. reflexivity.
    + apply sel_toggle with (n := lit "doc.pdf"). vm_compute. auto.
  - vm_compute. reflexivity.
  - match goal with
    | |- NoDup (mergeSelected ?s) /\ _ =>
        assert (R : sel_reachable Sample.runtime Examples.props s)
    end.
    { eapply sel_next.
      + eapply sel_next.
        * eapply sel_next.
          -- apply (sel_initial Sample.runtime Examples.props []).
          -- eapply sel_handleFileChange
               with (file_name := Some (lit "doc.pdf"))
                    (objUrl := lit "blob:1")
                    (reply := UploadOk (Some (lit "doc.pdf"))).
             vm_compute. reflexivity.
        * eapply sel_upload_poll
            with (reply := StatusIs (lit "done")) (p := Examples.doc_poll).
          vm_compute. reflexivity.
      + apply sel_toggle with (n := lit "doc.pdf"). vm_compute. auto. }
    destruct (selection_stays_within_library R) as (Hn & Hi & _). auto.
Defined.

(** ** Further properties of the exchanges, continued *)

(** X10.  After an exchange of [sendMessage] the draft is empty and the
    selection is as before; its first request carries the messages from
    before the exchange (not the new turn) and the names of the library;
    and the suggestions shown are those returned for this very exchange
    (which then has not failed and has a non-blank answer) or none, so
    suggestions of an earlier exchange never survive. *)
Theorem suggestions_belong_to_the_exchange (rt : Runtime) (props : Props)
    (overrideText : option jsstring) (reply : FetchOutcome)
    (sug_reply : option (list jsstring)) (st : State) :
  can_send overrideText st = true ->
  exists st' effs,
    sendMessage rt props overrideText reply sug_reply st = Some (tt, st', effs)
    /\ input st' = []
    /\ mergeSelected st' = mergeSelected st
    /\ hd_error (requests effs)
       = Some (POST_chat_stream (trim (nullish overrideText (input st)))
                                (messages st) (names (pdfLibrary st)))
    /\ (suggestions st' = []
        \/ sug_reply = Some (suggestions st')
           /\ failed reply = false
           /\ nonempty (trim (streamed rt reply)) = true).
Proof.
  intros G.
  destruct (sendMessage_detail rt props overrideText reply sug_reply st G)
    as (st' & effs & E & Hsel & Hin & Hreq & Hsug).
  exists st', effs. auto.
Qed.

Lemma suggestions_belong_to_the_exchange_witness :
  exists st' effs,
    sendMessage Sample.runtime Examples.props None
      (Examples.cut_body [Examples.token_line "partial" ++ [LF]])
      (Some [lit "stale?"])
      (with_suggestions [lit "old"] Examples.typed)
    = Some (tt, st', effs)
    /\ input st' = []
    /\ suggestions st' = [].
Proof.
  destruct (@suggestions_belong_to_the_exchange Sample.runtime Examples.props
              None (Examples.cut_body [Examples.token_line "partial" ++ [LF]])
              (Some [lit "stale?"])
              (with_suggestions [lit "old"] Examples.typed))
    as (st' & effs & E & Hin & _ & _ & Hsug).
  - vm_compute. reflexivity.
  - exists st', effs. split; [exact E|]. split; [exact Hin|].
    destruct Hsug as [H | (_ & F & _)]; [exact H | discriminate F].
Defined.

(** X11.  Submitting an edit of the message at [index] discards that
    message and all that follow, whether or not an exchange is running
    ([submitEdit] does not look at [loading]).  When nothing is loading,
    the deferred [sendMessage] then runs an exchange on what remains: the
    request carries the messages before [index] as history, and the chat
    ends as those messages followed by the edited turn (trimmed) and the
    assistant slot.  While an exchange is loading, the deferred
    [sendMessage] returns at its guard: the messages are discarded and
    nothing is sent. *)
Theorem edit_resends_from_the_edited_message (rt : Runtime) (props : Props)
    (e : EditState) (index : nat) (reply : FetchOutcome)
    (sug_reply : option (list jsstring)) (st : State) :
  editingIndex e = Some index ->
  nonempty (trim (editValue e)) = true ->
  let text := trim (editValue e) in
  let before := firstn index (messages st) in
  exists st1,
    submitEdit e st = Some ((cancelEdit, Some text), st1, [])
    /\ messages st1 = before
    /\ loading st1 = loading st
    /\ (loading st = false ->
        exists st2 effs,
          sendMessage rt props (Some text) reply sug_reply st1
          = Some (tt, st2, effs)
          /\ messages st2 =
             before ++
             [{| role := user; content := text |};
              if failed reply then chat_error
              else {| role := assistant; content := streamed rt reply |}]
          /\ hd_error (requests effs)
             = Some (POST_chat_stream text before (names (pdfLibrary st))))
    /\ (loading st = true ->
        sendMessage rt props (Some text) reply sug_reply st1
        = Some (tt, st1, [])).
Proof.
  intros Hi Hv text before.
  assert (E1 : submitEdit e st
               = Some ((cancelEdit, Some text), with_messages before st, []))
    by (unfold submitEdit, bind, rendered, setMessages, ret;
        rewrite Hv, Hi; reflexivity).
  exists (with_messages before st). split; [exact E1|].
  split; [reflexivity|]. split; [reflexivity|]. split.
  - intros Hl.
    assert (G : can_send (Some text) (with_messages before st) = true).
    { unfold can_send. cbn [nullish]. unfold text.
      rewrite trim_idempotent, Hv. cbn. rewrite Hl. reflexivity. }
    destruct (sendMessage_run rt props (Some text) reply sug_reply _ G)
      as (st2 & effs & E2 & Hm & _).
    destruct (sendMessage_detail rt props (Some text) reply sug_reply _ G)
      as (st2' & effs' & E2' & _ & _ & Hreq & _).
    rewrite E2 in E2'. injection E2' as <- <-.
    cbn [nullish] in Hm, Hreq. unfold text in Hm, Hreq.
    rewrite trim_idempotent in Hm, Hreq.
    exists st2, effs. auto.
  - intros Hl. apply sendMessage_idle. unfold can_send.
    cbn. rewrite Hl. apply andb_false_r.
Qed.

Lemma edit_resends_from_the_edited_message_witness :
  (exists st1 st2 effs,
      submitEdit (startEdit 0 (lit " q2 ")) (initial_state Examples.earlier)
      = Some ((cancelEdit, Some (lit "q2")), st1, [])
      /\ sendMessage Sample.runtime Examples.props (Some (lit "q2"))
           (Examples.body [Examples.token_line "r2" ++ [LF]]) None st1
         = Some (tt, st2, effs)
      /\ messages st2 =
         [{| role := user; content := lit "q2" |};
          {| role := assistant; content := lit "r2" |}])
  /\
  (exists st1,
      submitEdit (startEdit 1 (lit "r2"))
                 (with_loading true (initial_state Examples.earlier))
      = Some ((cancelEdit, Some (lit "r2")), st1, [])
      /\ messages st1 = [{| role := user; content := lit "q" |}]
      /\ sendMessage Sample.runtime Examples.props (Some (lit "r2"))
           (Examples.body [Examples.token_line "r2" ++ [LF]]) None st1
         = Some (tt, st1, [])).
Proof.
  split.
  - destruct (@edit_resends_from_the_edited_message Sample.runtime
                Examples.props (startEdit 0 (lit " q2 ")) 0
                (Examples.body [Examples.token_line "r2" ++ [LF]]) None
                (initial_state Examples.earlier))
      as (st1 & E1 & _ & _ & Hrun & _);
      [reflexivity | vm_compute; reflexivity |].
    destruct Hrun as (st2 & effs & E2 & Hm & _); [reflexivity|].
    exists st1, st2, effs.
    split; [exact E1|]. split; [exact E2|]. rewrite Hm. vm_compute.
    reflexivity.
  - destruct (@edit_resends_from_the_edited_message Sample.runtime
                Examples.props (startEdit 1 (lit "r2")) 1
                (Examples.body [Examples.token_line "r2" ++ [LF]]) None
                (with_loading true (initial_state Examples.earlier)))
      as (st1 & E1 & Hm & _ & _ & Hidle);
      [reflexivity | vm_compute; reflexivity |].
    exists st1. split; [exact E1|]. split; [exact Hm|].
    apply Hidle. reflexivity.
Defined.

Lemma summarize_prompt_tight (lib : list PdfEntry) :
  tight (summarize_prompt lib) /\ summarize_prompt lib <> [].
Proof.
  unfold summarize_prompt.
  destruct (1 <? List.length lib)%nat.
  - split; [|discriminate]. right. split.
    + eexists; eexists. split; reflexivity.
    + exists (lit "Please provide a comprehensive summary of each of the "
              ++ length_text (List.length lib) ++ lit " uploaded PDFs: "
              ++ join (lit ", ") (map displayName lib)), 46.
      split; [|reflexivity]. rewrite <- !app_assoc. reflexivity.
  - split; [|discriminate]. right. split.
    + eexists; eexists. split; reflexivity.
    + exists (lit "Please provide a comprehensive summary of the uploaded PDF document"), 46.
      split; reflexivity.
Qed.

(** X12.  [summarize] always starts an exchange when the component is not
    loading, whatever is typed in the draft: its user turn is the prompt,
    verbatim, and the request names the documents of the library.  While
    the component is loading it does nothing. *)
Theorem summarize_sends_its_prompt (rt : Runtime) (props : Props)
    (reply : FetchOutcome) (sug_reply : option (list jsstring)) (st : State) :
  (loading st = false ->
   exists st' effs,
     summarize rt props reply sug_reply st = Some (tt, st', effs)
     /\ messages st' =
        messages st ++
        [{| role := user; content := summarize_prompt (pdfLibrary st) |};
         if failed reply then chat_error
         else {| role := assistant; content := streamed rt reply |}]
     /\ hd_error (requests effs)
        = Some (POST_chat_stream (summarize_prompt (pdfLibrary st))
                                 (messages st) (names (pdfLibrary st))))
  /\ (loading st = true ->
      summarize rt props reply sug_reply st = Some (tt, st, [])).
Proof.
  destruct (summarize_prompt_tight (pdfLibrary st)) as [Ht Hne].
  pose proof (trim_tight Ht) as Etrim.
  assert (Hnon : nonempty (trim (summarize_prompt (pdfLibrary st))) = true).
  { rewrite Etrim. destruct (summarize_prompt (pdfLibrary st));
      [contradiction | reflexivity]. }
  assert (Es : summarize rt props reply sug_reply st
               = sendMessage rt props
                   (Some (summarize_prompt (pdfLibrary st))) reply sug_reply
                   st).
  { unfold summarize, bind, rendered.
    destruct (sendMessage rt props (Some (summarize_prompt (pdfLibrary st)))
                reply sug_reply st) as [[[u s1] e1]|]; [|reflexivity].
    rewrite app_nil_l. reflexivity. }
  rewrite Es. split.
  - intros Hl.
    assert (G : can_send (Some (summarize_prompt (pdfLibrary st))) st = true).
    { unfold can_send. cbn [nullish]. rewrite Hnon, Hl. reflexivity. }
    destruct (sendMessage_run rt props _ reply sug_reply st G)
      as (st' & effs & E & Hm & _).
    destruct (sendMessage_detail rt props _ reply sug_reply st G)
      as (st2 & effs2 & E2 & _ & _ & Hreq & _).
    rewrite E in E2. injection E2 as <- <-.
    cbn [nullish] in Hm, Hreq. rewrite Etrim in Hm, Hreq.
    exists st', effs. auto.
  - intros Hl. apply sendMessage_idle. unfold can_send. rewrite Hl.
    apply andb_false_r.
Qed.

Lemma summarize_sends_its_prompt_witness :
  exists st' effs,
    summarize Sample.runtime Examples.props
      (Examples.body [Examples.token_line "s" ++ [LF]]) None
      Examples.two_selected
    = Some (tt, st', effs)
    /\ messages st' =
       [{| role := user;
           content :=
             lit "Please provide a comprehensive summary of each of the 2 uploaded PDFs: Report.pdf, Annex.pdf." |};
        {| role := assistant; content := lit "s" |}].
Proof.
  destruct (proj1 (@summarize_sends_its_prompt Sample.runtime Examples.props
                     (Examples.body [Examples.token_line "s" ++ [LF]]) None
                     Examples.two_selected) eq_refl)
    as (st' & effs & E & Hm & _).
  exists st', effs. split; [exact E|]. rewrite Hm. vm_compute. reflexivity.
Defined.

(** ** The export of a chat *)

Lemma occurs_in_trans (a b c : jsstring) :
  occurs_in a b -> occurs_in b c -> occurs_in a c.
Proof.
  intros (p1 & q1 & ->) (p2 & q2 & ->).
  exists (p2 ++ p1), (q1 ++ q2). rewrite <- !app_assoc. reflexivity.
Qed.

Lemma join_occurs (sep x : jsstring) (l : list jsstring) :
  In x l -> occurs_in x (join sep l).
Proof.
  induction l as [|y l IH]; intros Hin; [contradiction|].
  destruct Hin as [-> | Hin].
  - destruct l as [|z l].
    + exists [], []. cbn. rewrite app_nil_r. reflexivity.
    + exists [], (sep ++ join sep (z :: l)). reflexivity.
  - destruct l as [|z l]; [contradiction|].
    destruct (IH Hin) as (pre & post & E).
    exists (y ++ sep ++ pre), post.
    change (join sep (y :: z :: l)) with (y ++ sep ++ join sep (z :: l)).
    rewrite E, <- !app_assoc. reflexivity.
Qed.

(** X13.  Whatever the format, the exported text contains the content of
    every message of the chat, each followed by a line feed; the text
    export of an empty chat is empty, and the file is named after the
    format. *)
Theorem export_contains_every_message (f : ExportFormat)
    (msgs : list Message) :
  (forall m, In m msgs -> occurs_in (content m ++ [LF]) (snd (exportChat f msgs)))
  /\ snd (exportChat txt []) = []
  /\ fst (exportChat f msgs)
     = lit "chat-export." ++ match f with txt => lit "txt" | md => lit "md" end.
Proof.
  split; [|split; reflexivity].
  intros m Hin. unfold exportChat. cbn [snd].
  destruct f.
  - apply occurs_in_trans
      with (b := lit "[" ++ export_label txt (role m) ++ lit "]: "
                 ++ content m ++ [LF]).
    + exists (lit "[" ++ export_label txt (role m) ++ lit "]: "), [].
      rewrite app_nil_r, <- !app_assoc. reflexivity.
    + apply join_occurs. unfold export_lines. apply in_map_iff.
      exists m. auto.
  - apply join_occurs. unfold export_lines. right.
    apply in_flat_map. exists m. split; [exact Hin|]. right. left.
    reflexivity.
Qed.

Lemma export_contains_every_message_witness :
  occurs_in (lit "r" ++ [LF]) (snd (exportChat md Examples.earlier))
  /\ snd (exportChat txt Examples.earlier)
     = lit "[You]: q" ++ [LF; LF] ++ lit "[Assistant]: r" ++ [LF].
Proof.
  split.
  - apply (proj1 (export_contains_every_message md Examples.earlier)
                 {| role := assistant; content := lit "r" |}).
    right. left. reflexivity.
  - vm_compute. reflexivity.
Defined.

(** ** localStorage: the anonymous user and the theme *)

Lemma getItem_setItem (k v : jsstring) (st : Storage) :
  getItem k (setItem k v st) = Some v.
Proof. unfold setItem. cbn [getItem]. rewrite str_eqb_refl. reflexivity. Qed.

Lemma getItem_setItem_other (k k' v : jsstring) (st : Storage) :
  k' <> k -> getItem k (setItem k' v st) = getItem k st.
Proof.
  intros Hne. unfold setItem. cbn [getItem].
  apply str_eqb_neq in Hne. rewrite Hne.
  induction st as [|[a b] st IH]; [reflexivity|].
  cbn [filter fst getItem]. destruct (str_eqb a k') eqn:Q; cbn [negb].
  - apply str_eqb_spec in Q. subst a. rewrite Hne. exact IH.
  - cbn [getItem]. destruct (str_eqb a k); [reflexivity | exact IH].
Qed.

(** X14.  The anonymous user id is stable: once [getAnonymousUserId] has
    run in a browser, every later run returns the same id, never empty,
    and leaves the storage alone, whatever [generateId] would produce
    then; switching the theme in between does not change it. *)
Theorem anonymous_id_is_stable (g1 g2 g3 : jsstring) (st : Storage)
    (t : Sidebar.Theme) :
  let '(id1, st1) := getAnonymousUserId true g1 st in
  id1 <> []
  /\ getAnonymousUserId true g2 st1 = (id1, st1)
  /\ fst (getAnonymousUserId true g3 (snd (Sidebar.toggleTheme t st1))) = id1.
Proof.
  assert (Hstable : forall id s g,
             id <> [] -> getItem (lit "anon_user_id") s = Some id ->
             getAnonymousUserId true g s = (id, s)).
  { intros id s g Hne Hg. unfold getAnonymousUserId. cbn [negb].
    rewrite Hg. destruct id; [contradiction | reflexivity]. }
  assert (Htheme : forall s v,
             getItem (lit "anon_user_id") (setItem (lit "theme") v s)
             = getItem (lit "anon_user_id") s).
  { intros s v. apply getItem_setItem_other. discriminate. }
  assert (Htoggle : forall s,
             getItem (lit "anon_user_id") (snd (Sidebar.toggleTheme t s))
             = getItem (lit "anon_user_id") s).
  { intros s. unfold Sidebar.toggleTheme.
    destruct (negb (Sidebar.isDark t)); cbn [snd]; apply Htheme. }
  unfold getAnonymousUserId at 1. cbn [negb].
  destruct (getItem (lit "anon_user_id") st) as [[|c i]|] eqn:G.
  - split; [discriminate|]. split.
    + apply Hstable; [discriminate | apply getItem_setItem].
    + rewrite (Hstable (lit "anon_" ++ g1)); [reflexivity | discriminate |].
      rewrite Htoggle. apply getItem_setItem.
  - split; [discriminate|]. split.
    + apply Hstable; [discriminate | exact G].
    + rewrite (Hstable (c :: i)); [reflexivity | discriminate |].
      rewrite Htoggle. exact G.
  - split; [discriminate|]. split.
    + apply Hstable; [discriminate | apply getItem_setItem].
    + rewrite (Hstable (lit "anon_" ++ g1)); [reflexivity | discriminate |].
      rewrite Htoggle. apply getItem_setItem.
Qed.

(** X15.  The stored theme is read back after a reload, but the class
    is not restored.  Right after [toggleTheme] the class [light] is on
    the document exactly when the theme is not dark.  When the sidebar
    mounts again, the mount effect sets [isDark] to the theme that was
    chosen and leaves the class as the document carries it; so after a
    switch to the light theme and a reload of a document without the
    class, [isDark] is false while the class is absent.  The class and
    [isDark] agree again after the next [toggleTheme]. *)
Theorem stored_theme_is_read_back (t : Sidebar.Theme) (page_light : bool)
    (st : Storage) :
  let '(t1, st1) := Sidebar.toggleTheme t st in
  let t2 := Sidebar.hydrate st1 (Sidebar.mounted page_light) in
  Sidebar.isDark t1 = negb (Sidebar.isDark t)
  /\ Sidebar.light_class t1 = negb (Sidebar.isDark t1)
  /\ Sidebar.isDark t2 = Sidebar.isDark t1
  /\ Sidebar.light_class t2 = page_light
  /\ (Sidebar.isDark t = true -> page_light = false ->
      Sidebar.isDark t2 = false /\ Sidebar.light_class t2 = false)
  /\ (let '(t3, _) := Sidebar.toggleTheme t2 st1 in
      Sidebar.isDark t3 = Sidebar.isDark t
      /\ Sidebar.light_class t3 = negb (Sidebar.isDark t3)).
Proof.
  unfold Sidebar.toggleTheme, Sidebar.hydrate, Sidebar.mounted.
  destruct (Sidebar.isDark t) eqn:D;
    cbn [negb Sidebar.isDark Sidebar.light_class fst];
    rewrite getItem_setItem; cbn [negb Sidebar.isDark Sidebar.light_class];
    repeat split; auto; try discriminate.
Qed.

Lemma stored_theme_is_read_back_witness :
  let t1 := fst (Sidebar.toggleTheme (Sidebar.mounted false) []) in
  let st1 := snd (Sidebar.toggleTheme (Sidebar.mounted false) []) in
  let t2 := Sidebar.hydrate st1 (Sidebar.mounted false) in
  (Sidebar.isDark t1 = false /\ Sidebar.light_class t1 = true)
  /\ (Sidebar.isDark t2 = false /\ Sidebar.light_class t2 = false).
Proof.
  pose proof (stored_theme_is_read_back (Sidebar.mounted false) false [])
    as H.
  cbv zeta. destruct (Sidebar.toggleTheme (Sidebar.mounted false) [])
    as [t1 st1] eqn:E.
  destruct H as (H1 & H2 & _ & _ & H5 & _). cbn [fst snd].
  split.
  - cbn in H1. rewrite H2, H1. auto.
  - apply H5; reflexivity.
Defined.

(** ** Further properties of the sessions *)

(** X16.  The title derived from the messages of a session is never
    longer than 43 code units: it is the first user message itself when
    that has at most 42, its first 42 followed by an ellipsis otherwise;
    without a user message the old title is kept.  Assistant messages
    before the first user message play no part. *)
Theorem session_title_is_short (msgs : list Message) (old : jsstring) :
  (forall m,
      find (fun m => match role m with user => true | assistant => false end)
           msgs = Some m ->
      (List.length (AppShell.derive_title msgs old) <= 43)%nat
      /\ ((List.length (content m) <= 42)%nat ->
          AppShell.derive_title msgs old = content m)
      /\ ((42 < List.length (content m))%nat ->
          AppShell.derive_title msgs old
          = firstn 42 (content m) ++ [AppShell.ELLIPSIS]))
  /\ ((forall m, In m msgs -> role m = assistant) ->
      AppShell.derive_title msgs old = old)
  /\ (forall a, AppShell.derive_title
                  ({| role := assistant; content := a |} :: msgs) old
                = AppShell.derive_title msgs old).
Proof.
  split; [|split].
  - intros m Hf. unfold AppShell.derive_title. rewrite Hf.
    destruct (42 <? List.length (content m))%nat eqn:L.
    + apply Nat.ltb_lt in L. split; [|split].
      * rewrite length_app, length_firstn. cbn [List.length]. lia.
      * lia.
      * reflexivity.
    + apply Nat.ltb_ge in L. rewrite app_nil_r. split; [|split].
      * rewrite length_firstn. lia.
      * intros _. apply firstn_all2. exact L.
      * lia.
  - intros Hall. unfold AppShell.derive_title.
    destruct (find _ msgs) as [m|] eqn:Hf; [|reflexivity].
    apply find_some in Hf as [Hin Hr]. rewrite (Hall m Hin) in Hr.
    discriminate.
  - reflexivity.
Qed.

Lemma session_title_is_short_witness :
  AppShell.derive_title
    [{| role := assistant; content := lit "Error: Could not reach the server." |};
     {| role := user;
        content := lit "What does the third chapter say about embeddings?" |}]
    (lit "New Chat")
  = lit "What does the third chapter say about embe" ++ [AppShell.ELLIPSIS].
Proof.
  destruct (proj1 (session_title_is_short
                     [{| role := assistant;
                         content := lit "Error: Could not reach the server." |};
                      {| role := user;
                         content :=
                           lit "What does the third chapter say about embeddings?" |}]
                     (lit "New Chat"))
                  {| role := user;
                     content :=
                       lit "What does the third chapter say about embeddings?" |}
                  eq_refl) as (_ & _ & H).
  rewrite H; [reflexivity|]. vm_compute. lia.
Defined.





(** ** Further properties of the library *)

Lemma upload_starts_polling_only_when_accepted_witness :
  exists r st' e,
    handleFileChange (Some (lit "notes.txt")) (lit "blob:9")
                     (UploadOk (Some (lit "notes.txt"))) (initial_state [])
    = Some (r, st', e)
    /\ r = None
    /\ requests e = []
    /\ uploadStatus st' = error.
Proof.
  destruct (upload_starts_polling_only_when_accepted
              (Some (lit "notes.txt")) (lit "blob:9")
              (UploadOk (Some (lit "notes.txt"))) (initial_state []))
    as (r & st' & e & E & _ & Hsome & Hnone & Hreq).
  assert (Hr : r = None).
  { destruct r as [p|]; [|reflexivity].
    destruct (Hsome p eq_refl) as (fname & ret & Hf & Hends & _).
    injection Hf as <-. vm_compute in Hends. discriminate Hends. }
  exists r, st', e. split; [exact E|]. split; [exact Hr|].
  split; [apply (Hreq (lit "notes.txt")); reflexivity|].
  destruct (Hnone Hr) as [(C & _) | H]; [discriminate C | exact H].
Defined.

Lemma without_name_length (n : jsstring) (lib : list PdfEntry) :
  NoDup (names lib) -> In n (names lib) ->
  S (List.length (without_name n lib)) = List.length lib.
Proof.
  induction lib as [|a lib IH]; intros Hnd Hin; [contradiction|].
  inversion Hnd as [|x xs Hnotin Hnd']; subst.
  unfold without_name. cbn [filter]. fold (without_name n lib).
  destruct (str_eqb (name a) n) eqn:Q; cbn [negb List.length].
  - apply str_eqb_spec in Q. subst n.
    rewrite without_name_absent by exact Hnotin. reflexivity.
  - f_equal. apply IH; [exact Hnd'|].
    destruct Hin as [Hin | Hin]; [|exact Hin].
    apply str_eqb_neq in Q. contradiction.
Qed.

Lemma reachable_NoDup (rt : Runtime) (props : Props) (st : State) :
  reachable rt props st -> NoDup (names (pdfLibrary st)).
Proof.
  intros R. induction R as [ms | st st' _ IH Hstep].
  - constructor.
  - destruct (step_library Hstep) as [-> | [[n ->] | [e ->]]].
    + exact IH.
    + apply NoDup_names_without. exact IH.
    + apply NoDup_names_insert; [reflexivity | exact IH].
Qed.

(** X19.  Adding a document under a name the library already holds
    replaces the old entry: when the embedding of a pending upload is
    reported done (or its polling times out) for a name already listed,
    or a merge returns such a name, the library keeps its size, the new
    entry comes last, and the other entries keep their order. *)
Theorem readding_a_document_replaces_it (rt : Runtime) (props : Props)
    (st : State) :
  reachable rt props st ->
  (forall reply p pending,
      pendingUploadRef st = Some pending ->
      In (poll_filename p) (names (pdfLibrary st)) ->
      (MAX_POLLS <= S (pollCount p))%nat
      \/ (exists enc, encodeURIComponent rt (poll_filename p) = Some enc)
         /\ reply = StatusIs (lit "done") ->
      exists p' st' e,
        upload_poll rt reply p st = Some (p', st', e)
        /\ List.length (pdfLibrary st') = List.length (pdfLibrary st)
        /\ pdfLibrary st' =
           without_name (poll_filename p) (pdfLibrary st) ++
           [{| name := poll_filename p;
               displayName := pending_displayName pending;
               objectUrl := pending_objectUrl pending |}])
  /\
  (forall now serverName enc,
      (2 <= List.length (mergeSelected st))%nat -> mergeLoading st = false ->
      encodeURIComponent rt serverName = Some enc ->
      In serverName (names (pdfLibrary st)) ->
      exists r st' e,
        handleMerge rt now (MergeOk serverName) st = Some (r, st', e)
        /\ List.length (pdfLibrary st') = List.length (pdfLibrary st)
        /\ pdfLibrary st' =
           without_name serverName (pdfLibrary st)
           ++ [merged_entry serverName enc]).
Proof.
  intros R. pose proof (reachable_NoDup R) as Hnd. split.
  - intros reply p pending Hp Hin Hwhy.
    destruct (adopt_pending_library (poll_filename p) st success)
      as (st1 & Ha & Hl).
    rewrite Hp in Hl. cbn in Hl.
    assert (Hlen : List.length (pdfLibrary st1) = List.length (pdfLibrary st)).
    { rewrite Hl, length_app. cbn [List.length].
      rewrite <- (@without_name_length _ _ Hnd Hin). lia. }
    unfold upload_poll. destruct Hwhy as [Hmax | [[enc Henc] ->]].
    + apply Nat.leb_le in Hmax. rewrite Hmax. unfold bind, update, ret.
      rewrite Ha. eexists; eexists; eexists. split; [reflexivity|]. auto.
    + destruct (MAX_POLLS <=? S (pollCount p))%nat.
      * unfold bind, update, ret. rewrite Ha.
        eexists; eexists; eexists. split; [reflexivity|]. auto.
      * rewrite Henc. unfold bind, emit, update, ret.
        rewrite str_eqb_refl, Ha.
        eexists; eexists; eexists. split; [reflexivity|]. auto.
  - intros now serverName enc H2 Hl Henc Hin.
    destruct (handleMerge_run rt now (MergeOk serverName) st H2 Hl)
      as (r & st' & effs & E & _ & _ & Hcase).
    rewrite Henc in Hcase. destruct Hcase as (Hlib & _).
    exists r, st', effs. split; [exact E|]. split; [|exact Hlib].
    rewrite Hlib, length_app. cbn [List.length].
    rewrite <- (@without_name_length _ _ Hnd Hin). lia.
Qed.






Lemma readding_a_document_replaces_it_witness :
  exists st p' st' e,
    reachable Sample.runtime Examples.props st
    /\ names (pdfLibrary st) = [lit "doc.pdf"]
    /\ upload_poll Sample.runtime (StatusIs (lit "done")) Examples.doc_poll st
       = Some (p', st', e)
    /\ List.length (pdfLibrary st') = 1%nat.
Proof.
  assert (R : exists st,
             reachable Sample.runtime Examples.props st
             /\ names (pdfLibrary st) = [lit "doc.pdf"]
             /\ pendingUploadRef st
                = Some {| pending_displayName := lit "doc.pdf";
                          pending_objectUrl := lit "blob:2" |}).
  { eexists. split; [|split].
    - eapply reachable_step.
      + eapply reachable_step.
        * eapply reachable_step.
          -- apply (reachable_initial Sample.runtime Examples.props []).
          -- eapply step_handleFileChange
               with (file_name := Some (lit "doc.pdf"))
                    (objUrl := lit "blob:1")
                    (reply := UploadOk (Some (lit "doc.pdf"))).
             vm_compute. reflexivity.
        * eapply step_upload_poll
            with (reply := StatusIs (lit "done")) (p := Examples.doc_poll).
          vm_compute. reflexivity.
      + eapply step_handleFileChange
          with (file_name := Some (lit "doc.pdf")) (objUrl := lit "blob:2")
               (reply := UploadOk (Some (lit "doc.pdf"))).
        vm_compute. reflexivity.
    - vm_compute. reflexivity.
    - vm_compute. reflexivity. }
  destruct R as (st & Hr & Hn & Hp).
  destruct (proj1 (readding_a_document_replaces_it Hr)
                  (StatusIs (lit "done")) Examples.doc_poll _ Hp)
    as (p' & st' & e & E & Hlen & _).
  - cbn [poll_filename Examples.doc_poll]. rewrite Hn. left. reflexivity.
  - right. split; [|reflexivity]. eexists. vm_compute. reflexivity.
  - exists st, p', st', e. split; [exact Hr|]. split; [exact Hn|].
    split; [exact E|]. rewrite Hlen.
    rewrite <- (length_map name). fold (names (pdfLibrary st)).
    rewrite Hn. reflexivity.
Defined.
